(** * onmt/Models.py : the variational encoder/decoder core

    A shallow embedding of [Encoder], [StackedLSTM], [Decoder] and
    [NMTModel] of onmt/Models.py.

    - Tensors are nested lists in row-major order; every tensor the code
      builds is contiguous at the point where it is viewed, so a [view]
      is a regrouping of the row-major data.
    - Float tensors hold rationals ([Q]): rounding is not modelled.
      [torch.exp] is a parameter of the development.
    - Long tensors hold [Z] with the 64-bit wrap-around written out.
    - Python exceptions are the [Raise] results of an error monad.
    - The random generator is an explicit state threaded through every
      operation that draws from it.
    - The library layers the file only calls ([nn.LSTM], [nn.LSTMCell],
      [nn.Embedding], [nn.Dropout], the generator) are parameters. *)

From Stdlib Require Import List ZArith QArith Qabs Qminmax Qround.
From Stdlib Require Import Lia Lqa Bool Arith PeanoNat Permutation.
Import ListNotations.

Set Implicit Arguments.

(** ** Exceptions *)

Inductive exn : Type :=
| AssertionError
| RuntimeError
| ValueError.

Inductive result (A : Type) : Type :=
| Ok (a : A)
| Raise (e : exn).

Arguments Ok {A} a.
Arguments Raise {A} e.

Definition bind {A B : Type} (r : result A) (k : A -> result B) : result B :=
  match r with
  | Ok a => k a
  | Raise e => Raise e
  end.

Declare Scope result_scope.
Delimit Scope result_scope with result.
Notation "x <- c1 ;; c2" := (bind c1 (fun x => c2))
  (at level 100, c1 at next level, right associativity) : result_scope.
Notation "' pat <- c1 ;; c2" := (bind c1 (fun x => match x with pat => c2 end))
  (at level 100, pat pattern, c1 at next level, right associativity) : result_scope.
Open Scope result_scope.


(** ** Tensors as nested lists *)

Module Tensor.

Section Poly.
Context {A : Type}.

Definition mat := list (list A).
Definition tensor3 := list (list (list A)).

(** [t.size(0)], [t.size(1)], [t.size(2)] *)
Definition size0 {X : Type} (t : list X) : nat := length t.
Definition size1 {X : Type} (t : list (list X)) : nat := length (hd [] t).
Definition size2 {X : Type} (t : list (list (list X))) : nat :=
  length (hd [] (hd [] t)).

(** Shapes. *)
Definition is_mat (r c : nat) (m : mat) : Prop :=
  length m = r /\ Forall (fun row => length row = c) m.

Definition is_tensor3 (a b c : nat) (t : tensor3) : Prop :=
  length t = a /\ Forall (is_mat b c) t.

(** Pointwise combination of two lists that must have the same length. *)
Fixpoint zip_exact {X Y Z : Type} (f : X -> Y -> result Z)
         (l1 : list X) (l2 : list Y) : result (list Z) :=
  match l1, l2 with
  | [], [] => Ok []
  | x :: l1', y :: l2' =>
      z <- f x y ;;
      zs <- zip_exact f l1' l2' ;;
      Ok (z :: zs)
  | _, _ => Raise RuntimeError
  end.

(** [torch.cat((x, y), 2)] on 3-d tensors: sizes must agree on
    dimensions 0 and 1. *)
Definition cat2 (x y : tensor3) : result tensor3 :=
  zip_exact (zip_exact (fun r1 r2 => Ok (r1 ++ r2))) x y.

(** [torch.cat((x, y), 0)] *)
Definition cat0 {X : Type} (x y : list X) : list X := x ++ y.

(** [t.transpose(0, 1).contiguous()] of a tensor whose dimension 1 has
    size [n]. *)
Fixpoint zip_cons {X : Type} (row : list X) (cols : list (list X)) : list (list X) :=
  match row, cols with
  | x :: row', c :: cols' => (x :: c) :: zip_cons row' cols'
  | _, _ => []
  end.

Fixpoint transpose_n {X : Type} (n : nat) (t : list (list X)) : list (list X) :=
  match t with
  | [] => repeat [] n
  | row :: t' => zip_cons row (transpose_n n t')
  end.

Definition transpose01 {X : Type} (t : list (list X)) : list (list X) :=
  transpose_n (size1 t) t.

(** [t.view(t.size(0), -1)] of a contiguous 3-d tensor: every slice along
    dimension 0 is laid out flat.  Of a tensor without elements (no
    slice, or empty slices) the [-1] cannot be inferred. *)
Definition view_rows (t : tensor3) : result mat :=
  let rows := map (@concat A) t in
  match rows with
  | [] => Raise RuntimeError
  | row :: _ =>
      if (length row =? 0)%nat then Raise RuntimeError else Ok rows
  end.

(** [count] consecutive groups of [size] elements. *)
Fixpoint group {X : Type} (count size : nat) (l : list X) : list (list X) :=
  match count with
  | O => []
  | S k => firstn size l :: group k size (skipn size l)
  end.

(** [m.view(a, b, -1)] of a contiguous matrix: the number of elements
    must be a multiple of [a * b], and not 0. *)
Definition view3 (a b : nat) (m : mat) : result tensor3 :=
  let flat := concat m in
  let n := length flat in
  if ((n =? 0) || (a * b =? 0))%nat then Raise RuntimeError
  else if negb (n mod (a * b) =? 0)%nat then Raise RuntimeError
  else Ok (group a b (group (a * b) (n / (a * b)) flat)).

(** [torch.chunk(t, 2, 2)] followed by the unpacking of the result into
    a pair: the chunk size is [ceil (n / 2)], and there are two chunks
    exactly when the last dimension has at least two elements. *)
Definition chunk2 (t : tensor3) : result (tensor3 * tensor3) :=
  let n := size2 t in
  if (n <? 2)%nat then Raise ValueError
  else
    let s := ((n + 1) / 2)%nat in
    Ok (map (map (firstn s)) t, map (map (skipn s)) t).

(** [torch.stack] of a Python list of tensors: an empty list is refused. *)
Definition stack {X : Type} (l : list X) : result (list X) :=
  match l with
  | [] => Raise RuntimeError
  | _ => Ok l
  end.

End Poly.

Arguments mat A : clear implicits.
Arguments tensor3 A : clear implicits.

End Tensor.

Import Tensor.

(** ** Long tensors: 64-bit integers *)

Definition wrap64 (z : Z) : Z :=
  ((z + 2 ^ 63) mod 2 ^ 64 - 2 ^ 63)%Z.

Definition in_int64 (z : Z) : Prop := (- 2 ^ 63 <= z < 2 ^ 63)%Z.

(** [x.long()] of a float: truncation toward zero. *)
Definition Qtrunc (q : Q) : Z :=
  if Qle_bool 0 q then Qfloor q else Qceiling q.

Definition long (m : mat Q) : mat Z := map (map Qtrunc) m.

(** Broadcasting of two operands along one dimension: sizes are equal, or
    one of them is 1. *)
Definition bcast {X Y Z : Type} (f : X -> Y -> result Z)
           (l1 : list X) (l2 : list Y) : result (list Z) :=
  if (length l1 =? length l2)%nat then zip_exact f l1 l2
  else
    match l1, l2 with
    | [x], _ => zip_exact f (repeat x (length l2)) l2
    | _, [y] => zip_exact f l1 (repeat y (length l1))
    | _, _ => Raise RuntimeError
    end.

Definition pointwise2 {X Y Z : Type} (f : X -> Y -> Z)
           (x : mat X) (y : mat Y) : result (mat Z) :=
  bcast (bcast (fun a b => Ok (f a b))) x y.

(** [torch.mul] and [+] on Long tensors, [torch.mul] and [torch.add] on
    Float tensors. *)
Definition mul_long : mat Z -> mat Z -> result (mat Z) :=
  pointwise2 (fun a b => wrap64 (a * b)).
Definition add_long : mat Z -> mat Z -> result (mat Z) :=
  pointwise2 (fun a b => wrap64 (a + b)).
Definition mul_float : mat Q -> mat Q -> result (mat Q) := pointwise2 Qmult.
Definition add_float : mat Q -> mat Q -> result (mat Q) := pointwise2 Qplus.

(** [torch.FloatTensor(r, c).fill_(v)]: a negative size is refused. *)
Definition full (r : Z) (c : nat) (v : Q) : result (mat Q) :=
  if (r <? 0)%Z then Raise RuntimeError
  else Ok (repeat (repeat v c) (Z.to_nat r)).

(** ** The random generator

    The generator is a stream of variates and a cursor; every draw
    advances the cursor, so no variate is handed out twice. *)

Record rng : Type := { stream : nat -> Q; cursor : nat }.

Definition next (g : rng) : Q * rng :=
  (stream g (cursor g), {| stream := stream g; cursor := S (cursor g) |}).

Fixpoint draws (n : nat) (g : rng) : list Q * rng :=
  match n with
  | O => ([], g)
  | S k =>
      let '(x, g1) := next g in
      let '(xs, g2) := draws k g1 in
      (x :: xs, g2)
  end.

(** A fresh [r] x [c] tensor filled in place from the generator, as
    [torch.FloatTensor(size).normal_()] does. *)
Fixpoint draw_rows (r c : nat) (g : rng) : mat Q * rng :=
  match r with
  | O => ([], g)
  | S k =>
      let '(row, g1) := draws c g in
      let '(rows, g2) := draw_rows k c g1 in
      (row :: rows, g2)
  end.

(** The uniform variate in [0, 1) behind a Bernoulli draw. *)
Definition uniform01 (x : Q) : Q := x - inject_Z (Qfloor x).

Definition bernoulli1 (u p : Q) : Q :=
  if Qlt_le_dec (uniform01 u) p then 1 else 0.

Definition valid_prob (p : Q) : bool := Qle_bool 0 p && Qle_bool p 1.

(** [torch.bernoulli(probs)]: every entry must be a probability. *)
Definition bernoulli (g : rng) (probs : mat Q) : result (mat Q * rng) :=
  if forallb (forallb valid_prob) probs then
    let '(u, g') := draw_rows (size0 probs) (size1 probs) g in
    Ok (map (fun ur => map (fun up => bernoulli1 (fst up) (snd up))
                           (combine (fst ur) (snd ur)))
            (combine u probs), g')
  else Raise RuntimeError.

(** ** Layers with learned weights *)

(** [nn.Linear]: [weight] is out_features x in_features. *)
Record Linear : Type := { weight : mat Q; bias : list Q }.

Definition dot (x w : list Q) : result Q :=
  ps <- zip_exact (fun a b => Ok (a * b)) x w ;;
  Ok (fold_right Qplus 0 ps).

Definition Linear_row (l : Linear) (x : list Q) : result (list Q) :=
  zip_exact (fun w b => d <- dot x w ;; Ok (d + b)) (weight l) (bias l).

Definition Linear_forward (l : Linear) (x : mat Q) : result (mat Q) :=
  zip_exact (fun row (_ : unit) => Linear_row l row) x (repeat tt (length x)).

(** [nn.ReLU] and [nn.PReLU] (one learned slope [a]). *)
Definition relu (x : Q) : Q := Qmax 0 x.
Definition prelu_fn (a x : Q) : Q := Qmax 0 x + a * Qmin 0 x.

Definition ReLU (m : mat Q) : mat Q := map (map relu) m.
Definition PReLU (a : Q) (m : mat Q) : mat Q := map (map (prelu_fn a)) m.

(** ** Configuration and collaborators *)

Module Opt.
Record t : Type := {
  layers : nat;
  brnn : bool;
  rnn_size : Z;
  word_vec_size : nat;
  dropout : Q;
  dynamic_decode : bool;
  ss : bool;
  gpus : list nat;
  latent_size : nat;
  feed_gt_prob : Q;
  deterministic : bool;
  prelu : bool
}.
End Opt.

Definition state : Type := (tensor3 Q * tensor3 Q)%type.

(** What the file takes from outside: [torch.exp], [onmt.Constants.UNK],
    the two embedding tables, the [nn.LSTM] of the encoder (with the
    packing and unpacking around it when lengths are given), the
    [nn.LSTMCell] of every decoder layer, [nn.Dropout] and the generator. *)
Record External : Type := {
  exp : Q -> Q;
  UNK : Z;
  word_lut_enc : Z -> list Q;
  word_lut_dec : Z -> list Q;
  enc_rnn : rng -> tensor3 Q -> option (list Z) -> option state ->
            (tensor3 Q * state) * rng;
  lstm_cell : nat -> mat Q -> mat Q * mat Q -> mat Q * mat Q;
  dropout_fn : rng -> mat Q -> mat Q * rng;
  generator : mat Q -> mat Q
}.

(** A source batch: a tensor of token ids, or a pair of it with the
    lengths of its examples. *)
Inductive tokens_input : Type :=
| Plain (tokens : mat Z)
| Packed (tokens : mat Z) (lengths : list Z).

(** ** Encoder *)

Module Encoder.

Record t : Type := {
  layers : nat;
  num_directions : Z;
  hidden_size : Z
}.

(** [Encoder.__init__] *)
Definition init (opt : Opt.t) : result t :=
  let num_directions := if Opt.brnn opt then 2%Z else 1%Z in
  if negb (Opt.rnn_size opt mod num_directions =? 0)%Z then Raise AssertionError
  else
    Ok {| layers := Opt.layers opt;
          num_directions := num_directions;
          hidden_size := (Opt.rnn_size opt / num_directions)%Z |}.

Section WithExternal.
Variable ext : External.

(** [Encoder.forward] *)
Definition forward (self : t) (g : rng) (input : tokens_input)
           (hidden : option state) : (state * tensor3 Q) * rng :=
  let '(emb, lengths) :=
    match input with
    | Packed toks lens => (map (map (word_lut_enc ext)) toks, Some lens)
    | Plain toks => (map (map (word_lut_enc ext)) toks, None)
    end in
  let '((outputs, hidden_t), g') := enc_rnn ext g emb lengths hidden in
  ((hidden_t, outputs), g').

End WithExternal.
End Encoder.

(** ** StackedLSTM *)

Module StackedLSTM.

(** [t[i]] on the first dimension. *)
Definition index {X : Type} (t : list X) (i : nat) : result X :=
  match nth_error t i with
  | Some x => Ok x
  | None => Raise RuntimeError
  end.

Section WithExternal.
Variable ext : External.

(** The body of [StackedLSTM.forward], layer after layer. *)
Fixpoint layers_loop (num_layers : nat) (idx : list nat) (input : mat Q)
         (h_0 c_0 h_1 c_1 : tensor3 Q) (g : rng)
  : result ((mat Q * (tensor3 Q * tensor3 Q)) * rng) :=
  match idx with
  | [] => Ok ((input, (h_1, c_1)), g)
  | i :: idx' =>
      h_0_i <- index h_0 i ;;
      c_0_i <- index c_0 i ;;
      let '(h_1_i, c_1_i) := lstm_cell ext i input (h_0_i, c_0_i) in
      let input := h_1_i in
      let '(input, g) :=
        if negb (i + 1 =? num_layers)%nat then dropout_fn ext g input
        else (input, g) in
      layers_loop num_layers idx' input h_0 c_0 (h_1 ++ [h_1_i]) (c_1 ++ [c_1_i]) g
  end.

(** [StackedLSTM.forward] *)
Definition forward (num_layers : nat) (g : rng) (input : mat Q) (hidden : state)
  : result ((mat Q * state) * rng) :=
  let '(h_0, c_0) := hidden in
  '((input, (h_1, c_1)), g) <-
     layers_loop num_layers (seq 0 num_layers) input h_0 c_0 [] [] g ;;
  h_1 <- stack h_1 ;;
  c_1 <- stack c_1 ;;
  Ok ((input, (h_1, c_1)), g).

End WithExternal.
End StackedLSTM.

(** ** Decoder *)

Module Decoder.

Record t : Type := {
  layers : nat;
  dynamic_decode : bool;
  ss : bool;
  hidden_size : Z
}.

(** [Decoder.__init__] *)
Definition init (opt : Opt.t) : t :=
  {| layers := Opt.layers opt;
     dynamic_decode := Opt.dynamic_decode opt;
     ss := Opt.ss opt;
     hidden_size := Opt.rnn_size opt |}.

(** [row.max(-1)]: the index of the first largest entry; an empty row is
    refused. *)
Fixpoint argmax_from (best : Q) (best_i i : nat) (l : list Q) : nat :=
  match l with
  | [] => best_i
  | x :: l' =>
      if Qlt_le_dec best x then argmax_from x i (S i) l'
      else argmax_from best best_i (S i) l'
  end.

Definition argmax_row (l : list Q) : result Z :=
  match l with
  | [] => Raise RuntimeError
  | x :: l' => Ok (Z.of_nat (argmax_from x 0 1 l'))
  end.

Fixpoint map_result {X Y : Type} (f : X -> result Y) (l : list X) : result (list Y) :=
  match l with
  | [] => Ok []
  | x :: l' => y <- f x ;; ys <- map_result f l' ;; Ok (y :: ys)
  end.

(** [_, indices = logit.max(-1)] *)
Definition max_indices (logit : mat Q) : result (list Z) :=
  map_result argmax_row logit.

Section WithExternal.
Variable ext : External.

(** [self.word_lut(indices)] on one timestep and on a whole sequence. *)
Definition embed_row (toks : list Z) : mat Q := map (word_lut_dec ext) toks.
Definition embed (toks : mat Z) : tensor3 Q := map embed_row toks.

(** The vector handed to [self.rnn] at timestep [i]: [emb_t.squeeze(0)]
    when dynamic decoding is off or at the first timestep, otherwise the
    [input_t] left by the previous iteration. *)
Definition rnn_input (self : t) (i : nat) (emb_t input_t : mat Q) : mat Q :=
  if negb (dynamic_decode self) || (i =? 0)%nat then emb_t else input_t.

(** One iteration of the loop of [Decoder.forward]: the logit of the
    timestep, the [input_t] it leaves, the new state. *)
Definition step (self : t) (i : nat) (emb_t input_t : mat Q)
           (hidden : state) (g : rng)
  : result ((mat Q * mat Q * state) * rng) :=
  let input_t := rnn_input self i emb_t input_t in
  '((output, hidden), g) <- StackedLSTM.forward ext (layers self) g input_t hidden ;;
  let '(output, g) := dropout_fn ext g output in
  let logit := generator ext output in
  input_t <-
    (if dynamic_decode self then
       indices <- max_indices logit ;;
       Ok (embed_row indices)
     else Ok input_t) ;;
  Ok ((logit, input_t, hidden), g).

Fixpoint loop (self : t) (i : nat) (emb : tensor3 Q) (input_t : mat Q)
         (hidden : state) (outputs : tensor3 Q) (g : rng)
  : result ((tensor3 Q * state) * rng) :=
  match emb with
  | [] => Ok ((outputs, hidden), g)
  | emb_t :: emb' =>
      '((logit, input_t, hidden), g) <- step self i emb_t input_t hidden g ;;
      loop self (S i) emb' input_t hidden (outputs ++ [logit]) g
  end.

(** [Decoder.forward].  [input_t] is unbound before the first iteration,
    which always assigns it; the empty tensor stands for it. *)
Definition forward (self : t) (g : rng) (input : mat Z) (hidden : state)
           (init_output : mat Q) (step : Z)
  : result ((tensor3 Q * state) * rng) :=
  let emb := embed input in
  '((outputs, hidden), g) <- loop self 0 emb [] hidden [] g ;;
  outputs <- stack outputs ;;
  Ok ((outputs, hidden), g).

(** The same loop, recording next to every logit the vector that was
    handed to [self.rnn] to produce it. *)
Fixpoint loop_traced (self : t) (i : nat) (emb : tensor3 Q) (input_t : mat Q)
         (hidden : state) (outputs : tensor3 Q) (fed : tensor3 Q) (g : rng)
  : result ((tensor3 Q * tensor3 Q * state) * rng) :=
  match emb with
  | [] => Ok ((outputs, fed, hidden), g)
  | emb_t :: emb' =>
      '((logit, input_t', hidden), g) <- step self i emb_t input_t hidden g ;;
      loop_traced self (S i) emb' input_t' hidden (outputs ++ [logit])
                  (fed ++ [rnn_input self i emb_t input_t]) g
  end.

Definition forward_traced (self : t) (g : rng) (input : mat Z) (hidden : state)
           (init_output : mat Q) (step : Z)
  : result ((tensor3 Q * tensor3 Q * state) * rng) :=
  let emb := embed input in
  '((outputs, fed, hidden), g) <- loop_traced self 0 emb [] hidden [] [] g ;;
  outputs <- stack outputs ;;
  Ok ((outputs, fed, hidden), g).

End WithExternal.
End Decoder.

(** ** NMTModel *)

Module NMTModel.

Record t : Type := {
  encoder : Encoder.t;
  decoder : Decoder.t;
  layers : nat;
  gpus : list nat;
  latent_size : nat;
  feed_gt_prob : Q;
  dynamic_decode : bool;
  deterministic : bool;
  prelu : bool;
  encoder_to_mu : Linear;
  encoder_to_nu : Linear;
  nu_to_logvar : Linear;
  latent_to_decoder : Linear;
  (* the slopes of [prelu_mu], [prelu_logvar], [prelu_dec]; they exist
     only when [prelu] is set *)
  prelu_mu : Q;
  prelu_logvar : Q;
  prelu_dec : Q;
  (* [nn.Module.training] *)
  training : bool
}.

(** The truth value of the list [self.gpus]. *)
Definition truthy {X : Type} (l : list X) : bool :=
  match l with [] => false | _ => true end.

(** [concat_hidden_size] of [NMTModel.__init__] *)
Definition concat_hidden_size (opt : Opt.t) : Z :=
  (Z.of_nat (Opt.layers opt) * Opt.rnn_size opt * 2)%Z.

(** [nn.Linear(i, o)] has an [o] x [i] weight and [o] biases. *)
Definition Linear_shape (i o : nat) (l : Linear) : Prop :=
  is_mat o i (weight l) /\ length (bias l) = o.

(** What [NMTModel.__init__] copies from [opt], and the shapes of the
    four projections it creates. *)
Record built_from (opt : Opt.t) (enc : Encoder.t) (self : t) : Prop := {
  built_encoder : encoder self = enc;
  built_decoder : decoder self = Decoder.init opt;
  built_layers : layers self = Opt.layers opt;
  built_gpus : gpus self = Opt.gpus opt;
  built_latent : latent_size self = Opt.latent_size opt;
  built_prob : feed_gt_prob self = Opt.feed_gt_prob opt;
  built_dynamic : dynamic_decode self = Opt.dynamic_decode opt;
  built_deterministic : deterministic self = Opt.deterministic opt;
  built_prelu : prelu self = Opt.prelu opt;
  built_mu :
    Linear_shape (Z.to_nat (concat_hidden_size opt)) (Opt.latent_size opt)
                 (encoder_to_mu self);
  built_nu :
    Linear_shape (Z.to_nat (concat_hidden_size opt)) (Opt.latent_size opt)
                 (encoder_to_nu self);
  built_logvar :
    Linear_shape (Opt.latent_size opt) (Opt.latent_size opt) (nu_to_logvar self);
  built_dec :
    Linear_shape (Opt.latent_size opt) (Z.to_nat (concat_hidden_size opt))
                 (latent_to_decoder self)
}.

(** Lines 141-142 of [encode]:
    [torch.cat((h, c), 2).transpose(0, 1).contiguous()] and then
    [.view(size(0), -1)]. *)
Definition encode_flatten {A : Type} (enc_hidden : tensor3 A * tensor3 A)
  : result (mat A) :=
  t <- cat2 (fst enc_hidden) (snd enc_hidden) ;;
  view_rows (transpose01 t).

(** Lines 171-172 of [decode]: [.view(self.layers, z.size(0), -1)] and
    [torch.chunk(_, 2, 2)]. *)
Definition decode_unflatten {A : Type} (layers batch : nat) (decStates : mat A)
  : result (tensor3 A * tensor3 A) :=
  t <- view3 layers batch decStates ;;
  chunk2 t.

(** [-2 * torch.abs(x)] *)
Definition neg2abs (x : Q) : Q := (-2) * Qabs x.

(** [_fix_enc_hidden]: [h.view(n // 2, 2, b, d)], [.transpose(1, 2)],
    [.view(n // 2, b, d * 2)]. *)
Definition _fix_enc_hidden {A : Type} (self : t) (h : tensor3 A)
  : result (tensor3 A) :=
  if (Encoder.num_directions (encoder self) =? 2)%Z then
    let n := size0 h in
    if ((n mod 2 =? 0) || (n * size1 h * size2 h =? 0))%nat then
      Ok (map (map (@concat A))
              (map (transpose_n (size1 h)) (group (n / 2) 2 h)))
    else Raise RuntimeError
  else Ok h.

(** Lines 143-149 of [encode]: the mean and the log-variance from the
    flattened state. *)
Definition latent (self : t) (enc_hidden : mat Q) : result (mat Q * mat Q) :=
  mu <- Linear_forward (encoder_to_mu self) enc_hidden ;;
  nu <- Linear_forward (encoder_to_nu self) enc_hidden ;;
  let nu := ReLU nu in
  logvar <- Linear_forward (nu_to_logvar self) nu ;;
  let logvar := map (map neg2abs) logvar in
  let '(mu, logvar) :=
    if prelu self then (PReLU (prelu_mu self) mu, PReLU (prelu_logvar self) logvar)
    else (mu, logvar) in
  Ok (mu, logvar).

(** Lines 166-172 of [decode]: the initial state of the decoder from the
    latent code. *)
Definition decoder_state (self : t) (z : mat Q) : result state :=
  decStates <- Linear_forward (latent_to_decoder self) z ;;
  let decStates :=
    if prelu self then PReLU (prelu_dec self) decStates else decStates in
  decode_unflatten (layers self) (size0 z) decStates.

(** The flattening the specification describes: the two directions of
    every layer are merged by [_fix_enc_hidden] first. *)
Definition flatten_merged {A : Type} (self : t)
           (enc_hidden : tensor3 A * tensor3 A) : result (mat A) :=
  h <- _fix_enc_hidden self (fst enc_hidden) ;;
  c <- _fix_enc_hidden self (snd enc_hidden) ;;
  encode_flatten (h, c).

Section WithExternal.
Variable ext : External.

(** [NMTModel.encode] *)
Definition encode (self : t) (g : rng) (x : tokens_input)
  : result ((mat Q * mat Q) * rng) :=
  let '((enc_hidden, _), g) := Encoder.forward ext (encoder self) g x None in
  enc_hidden <- encode_flatten enc_hidden ;;
  ml <- latent self enc_hidden ;;
  Ok (ml, g).

(** [NMTModel.reparameterize]; both branches on [self.gpus] draw a tensor
    of the size of [std], on one device or the other. *)
Definition reparameterize (self : t) (g : rng) (mu logvar : mat Q)
  : result (mat Q * rng) :=
  let std := map (map (fun x => exp ext (x * (1 # 2)))) logvar in
  let '(eps, g) := draw_rows (size0 std) (size1 std) g in
  es <- mul_float eps std ;;
  z <- add_float es mu ;;
  Ok (z, g).

(** [NMTModel.make_init_decoder_output] *)
Definition make_init_decoder_output (self : t) (z : mat Q) : result (mat Q) :=
  let batch_size := size0 z in
  let h := Decoder.hidden_size (decoder self) in
  if (h <? 0)%Z then Raise RuntimeError
  else Ok (repeat (repeat 0 (Z.to_nat h)) batch_size).

(** [NMTModel.decode] *)
Definition decode (self : t) (g : rng) (z : mat Q) (tgt : mat Z) (step : Z)
  : result (tensor3 Q * rng) :=
  decStates <- decoder_state self z ;;
  init_output <- make_init_decoder_output self z ;;
  '((x, dec_hidden), g) <-
     Decoder.forward ext (decoder self) g tgt decStates init_output step ;;
  Ok (x, g).

(** [NMTModel.replace_by_unk] *)
Definition replace_by_unk (self : t) (g : rng) (seqs : mat Z) (prob : Q)
  : result (mat Z * rng) :=
  let seq_len := Z.of_nat (size0 seqs) in
  let batch_size := size1 seqs in
  probs <-
    (if truthy (gpus self) then full (seq_len - 1) batch_size prob
     else full (seq_len - 2) batch_size prob) ;;
  ones <- full 1 batch_size 1 ;;
  let probs := cat0 ones probs in
  '(samples, g) <- bernoulli g probs ;;
  let added := map (map (fun s => (1 - s) * inject_Z (UNK ext))) samples in
  kept <- mul_long seqs (long samples) ;;
  r <- add_long kept (long added) ;;
  Ok (r, g).

(** Lines 208-211 of [forward]: the latent code is sampled, or is the
    mean itself when [self.deterministic] is set. *)
Definition sample (self : t) (g : rng) (mu logvar : mat Q)
  : result (mat Q * rng) :=
  if negb (deterministic self) then reparameterize self g mu logvar
  else Ok (mu, g).

(** [NMTModel.forward]; [input[1][:-1]] is [removelast]. *)
Definition forward (self : t) (g : rng) (input : tokens_input * mat Z) (step : Z)
  : result ((tensor3 Q * mat Q * mat Q) * rng) :=
  let src := fst input in
  let tgt := removelast (snd input) in
  '(tgt, g) <-
     (if training self && (if Qlt_le_dec (feed_gt_prob self) 1 then true else false)
      then replace_by_unk self g tgt (feed_gt_prob self)
      else Ok (tgt, g)) ;;
  '((mu, logvar), g) <- encode self g src ;;
  '(z, g) <- sample self g mu logvar ;;
  '(out, g) <- decode self g z tgt step ;;
  Ok ((out, mu, logvar), g).

End WithExternal.
End NMTModel.

(** ** Tensor objects in a store

    A tensor object of Python is a reference into a storage; slicing the
    first dimension gives a second object over the same storage, and the
    operations whose name ends in an underscore write into the storage of
    their receiver.  The functions of [NMTModel] that create, slice or
    fill tensor objects are embedded a second time over this store. *)

Module Store.

Inductive storage : Type :=
| LongData (m : mat Z)
| FloatData (m : mat Q).

Definition heap : Type := list storage.

(** The object covers the first [nrows] rows of the storage at [base]. *)
Record tensor : Type := { base : nat; nrows : nat }.

Record st : Type := { mem : heap; gen : rng }.

Definition M (A : Type) : Type := st -> result (A * st).

Definition ret {A : Type} (a : A) : M A := fun s => Ok (a, s).

Definition mbind {A B : Type} (c : M A) (k : A -> M B) : M B :=
  fun s =>
    match c s with
    | Ok (a, s') => k a s'
    | Raise e => Raise e
    end.

Declare Scope store_scope.
Delimit Scope store_scope with store.
Notation "x <- c1 ;; c2" := (mbind c1 (fun x => c2))
  (at level 100, c1 at next level, right associativity) : store_scope.
Notation "' pat <- c1 ;; c2" := (mbind c1 (fun x => match x with pat => c2 end))
  (at level 100, pat pattern, c1 at next level, right associativity) : store_scope.

(** A computation that cannot touch the store. *)
Definition lift {A : Type} (r : result A) : M A :=
  fun s => match r with Ok a => Ok (a, s) | Raise e => Raise e end.

(** A computation that draws from the generator only. *)
Definition with_gen {A : Type} (f : rng -> result (A * rng)) : M A :=
  fun s =>
    match f (gen s) with
    | Ok (a, g') => Ok (a, {| mem := mem s; gen := g' |})
    | Raise e => Raise e
    end.

Definition storage_rows (d : storage) : nat :=
  match d with LongData m => length m | FloatData m => length m end.

(** A new object over a new storage. *)
Definition alloc (d : storage) : M tensor :=
  fun s =>
    Ok ({| base := length (mem s); nrows := storage_rows d |},
        {| mem := mem s ++ [d]; gen := gen s |}).

Definition read_long (t : tensor) : M (mat Z) :=
  fun s =>
    match nth_error (mem s) (base t) with
    | Some (LongData m) => Ok (firstn (nrows t) m, s)
    | _ => Raise RuntimeError
    end.

Definition read_float (t : tensor) : M (mat Q) :=
  fun s =>
    match nth_error (mem s) (base t) with
    | Some (FloatData m) => Ok (firstn (nrows t) m, s)
    | _ => Raise RuntimeError
    end.

Fixpoint update {X : Type} (l : list X) (i : nat) (x : X) : list X :=
  match l, i with
  | [], _ => []
  | _ :: l', O => x :: l'
  | y :: l', S j => y :: update l' j x
  end.

(** Overwrite, in place, the rows that a float object covers. *)
Definition overwrite (t : tensor) (f : mat Q -> rng -> mat Q * rng) : M unit :=
  fun s =>
    match nth_error (mem s) (base t) with
    | Some (FloatData m) =>
        let '(rows', g') := f (firstn (nrows t) m) (gen s) in
        Ok (tt, {| mem := update (mem s) (base t)
                                 (FloatData (rows' ++ skipn (nrows t) m));
                   gen := g' |})
    | _ => Raise RuntimeError
    end.

(** [t.fill_(v)], [t.zero_()], [t.normal_()] *)
Definition fill_ (t : tensor) (v : Q) : M unit :=
  overwrite t (fun m g => (map (map (fun _ => v)) m, g)).
Definition zero_ (t : tensor) : M unit := fill_ t 0.
Definition normal_ (t : tensor) : M unit :=
  overwrite t (fun m g => draw_rows (size0 m) (size1 m) g).

(** [torch.FloatTensor(r, c)] and [x.new(r, c)]: a new storage, whose
    content is unspecified until it is filled (zeros stand for it). *)
Definition new_float (r c : Z) : M tensor :=
  if ((r <? 0) || (c <? 0))%Z then lift (Raise RuntimeError)
  else alloc (FloatData (repeat (repeat 0 (Z.to_nat c)) (Z.to_nat r))).

(** [t[:-1]]: an object over the same storage, one row shorter. *)
Definition slice_init (t : tensor) : tensor :=
  {| base := base t; nrows := nrows t - 1 |}.

(** Operations that return a new tensor. *)
Definition unary_float (f : mat Q -> storage) (a : tensor) : M tensor :=
  (x <- read_float a ;; alloc (f x))%store.

Definition binary_long (f : mat Z -> mat Z -> result (mat Z)) (a b : tensor)
  : M tensor :=
  (x <- read_long a ;;
   y <- read_long b ;;
   r <- lift (f x y) ;;
   alloc (LongData r))%store.

Definition cat0_float (a b : tensor) : M tensor :=
  (x <- read_float a ;;
   y <- read_float b ;;
   alloc (FloatData (cat0 x y)))%store.

Definition bernoulli_st (probs : tensor) : M tensor :=
  (p <- read_float probs ;;
   s <- with_gen (fun g => bernoulli g p) ;;
   alloc (FloatData s))%store.

(** A source batch whose tensor lives in the store. *)
Inductive tokens_ref : Type :=
| PlainRef (tokens : tensor)
| PackedRef (tokens : tensor) (lengths : list Z).

Definition read_tokens (x : tokens_ref) : M tokens_input :=
  match x with
  | PlainRef t => (v <- read_long t ;; ret (Plain v))%store
  | PackedRef t lens => (v <- read_long t ;; ret (Packed v lens))%store
  end.

End Store.

(** ** NMTModel over the store *)

Module Stateful.
Import Store.
Local Open Scope store_scope.

Section WithExternal.
Variable ext : External.

(** [NMTModel.replace_by_unk] *)
Definition replace_by_unk (self : NMTModel.t) (seqs : tensor) (prob : Q)
  : M tensor :=
  sv <- read_long seqs ;;
  let seq_len := Z.of_nat (size0 sv) in
  let batch_size := Z.of_nat (size1 sv) in
  probs <-
    new_float (if NMTModel.truthy (NMTModel.gpus self)
               then seq_len - 1 else seq_len - 2)%Z batch_size ;;
  _ <- fill_ probs prob ;;
  ones <- new_float 1 batch_size ;;
  _ <- fill_ ones 1 ;;
  probs <- cat0_float ones probs ;;
  samples <- bernoulli_st probs ;;
  added <-
    unary_float
      (fun s => FloatData (map (map (fun x => (1 - x) * inject_Z (UNK ext))) s))
      samples ;;
  samples_long <- unary_float (fun s => LongData (long s)) samples ;;
  kept <- binary_long mul_long seqs samples_long ;;
  added_long <- unary_float (fun s => LongData (long s)) added ;;
  binary_long add_long kept added_long.

(** [NMTModel.encode]: the source tokens are read, everything else is
    computed into new tensors. *)
Definition encode (self : NMTModel.t) (x : tokens_ref) : M (mat Q * mat Q) :=
  xv <- read_tokens x ;;
  with_gen (fun g => NMTModel.encode ext self g xv).

(** [NMTModel.reparameterize] *)
Definition reparameterize (self : NMTModel.t) (mu logvar : mat Q) : M (mat Q) :=
  let std := map (map (fun x => exp ext (x * (1 # 2)))) logvar in
  eps <- new_float (Z.of_nat (size0 std)) (Z.of_nat (size1 std)) ;;
  _ <- normal_ eps ;;
  eps <- read_float eps ;;
  es <- lift (mul_float eps std) ;;
  lift (add_float es mu).

(** [NMTModel.make_init_decoder_output] *)
Definition make_init_decoder_output (self : NMTModel.t) (z : mat Q) : M tensor :=
  let batch_size := Z.of_nat (size0 z) in
  t <- new_float batch_size (Decoder.hidden_size (NMTModel.decoder self)) ;;
  _ <- zero_ t ;;
  ret t.

(** [NMTModel.decode] *)
Definition decode (self : NMTModel.t) (z : mat Q) (tgt : tensor) (step : Z)
  : M (tensor3 Q) :=
  decStates <- lift (NMTModel.decoder_state self z) ;;
  init_output <- make_init_decoder_output self z ;;
  tv <- read_long tgt ;;
  iv <- read_float init_output ;;
  '(x, dec_hidden) <-
     with_gen (fun g =>
       Decoder.forward ext (NMTModel.decoder self) g tv decStates iv step) ;;
  ret x.

(** Lines 208-211 of [forward] *)
Definition sample (self : NMTModel.t) (mu logvar : mat Q) : M (mat Q) :=
  if negb (NMTModel.deterministic self) then reparameterize self mu logvar
  else ret mu.

(** [NMTModel.forward] *)
Definition forward (self : NMTModel.t) (input : tokens_ref * tensor) (step : Z)
  : M (tensor3 Q * mat Q * mat Q) :=
  let src := fst input in
  let tgt := slice_init (snd input) in
  tgt <-
    (if NMTModel.training self &&
        (if Qlt_le_dec (NMTModel.feed_gt_prob self) 1 then true else false)
     then replace_by_unk self tgt (NMTModel.feed_gt_prob self)
     else ret tgt) ;;
  '(mu, logvar) <- encode self src ;;
  z <- sample self mu logvar ;;
  out <- decode self z tgt step ;;
  ret (out, mu, logvar).

End WithExternal.
End Stateful.

(** ** Vocabulary of the statements *)

(** The entry [m[i][j]] of a float matrix (0 outside it). *)
Definition entry (m : mat Q) (i j : nat) : Q := nth j (nth i m []) 0%Q.

(** The token [m[i][j]] of a long matrix (0 outside it). *)
Definition token (m : mat Z) (i j : nat) : Z := nth j (nth i m []) 0%Z.

(** Everything a 3-d tensor holds for batch element [b], along its first
    size. *)
Definition column {A : Type} (b : nat) (t : tensor3 A) : list A :=
  concat (map (fun m => nth b m []) t).

(** Pointwise combination of two lists, as long as the shorter one. *)
Definition map2 {X Y Z : Type} (f : X -> Y -> Z) (l1 : list X) (l2 : list Y)
  : list Z :=
  map (fun p => f (fst p) (snd p)) (combine l1 l2).

(** The generator after [n] draws. *)
Definition advance (g : rng) (n : nat) : rng :=
  {| stream := stream g; cursor := cursor g + n |}.

(** What timestep [k] of the decoder must have been fed: the embedding
    of the target token of that timestep when dynamic decoding is off or
    [k = 0], otherwise the embedding of the indices of the largest
    logits of timestep [k - 1]. *)
Definition fed_spec (ext : External) (self : Decoder.t)
           (emb outputs : tensor3 Q) (k : nat) (x : mat Q) : Prop :=
  if negb (Decoder.dynamic_decode self) || (k =? 0)%nat
  then nth_error emb k = Some x
  else exists logit idx,
      nth_error outputs (k - 1) = Some logit /\
      Decoder.max_indices logit = Ok idx /\
      x = Decoder.embed_row ext idx.

(** A computation over the store keeps the first [n] storages as they
    are, and its result satisfies [post]. *)
Definition keeps {A : Type} (n : nat) (c : Store.M A) (post : A -> Prop) : Prop :=
  forall s a s',
    (n <= length (Store.mem s))%nat ->
    c s = Ok (a, s') ->
    firstn n (Store.mem s') = firstn n (Store.mem s) /\
    (n <= length (Store.mem s'))%nat /\
    post a.

(** The object lies over a storage beyond the first [n]. *)
Definition beyond (n : nat) (t : Store.tensor) : Prop := (n <= Store.base t)%nat.

(** The object [t] reads as the long matrix [v] in the state [s]. *)
Definition reads_long (s : Store.st) (t : Store.tensor) (v : mat Z) : Prop :=
  exists m, nth_error (Store.mem s) (Store.base t) = Some (Store.LongData m) /\
            (Store.nrows t <= length m)%nat /\
            firstn (Store.nrows t) m = v.

Definition reads_float (s : Store.st) (t : Store.tensor) (v : mat Q) : Prop :=
  exists m, nth_error (Store.mem s) (Store.base t) = Some (Store.FloatData m) /\
            (Store.nrows t <= length m)%nat /\
            firstn (Store.nrows t) m = v.

Definition reads_tokens (s : Store.st) (x : Store.tokens_ref) (v : tokens_input)
  : Prop :=
  match x, v with
  | Store.PlainRef t, Plain m => reads_long s t m
  | Store.PackedRef t lens, Packed m lens' => reads_long s t m /\ lens' = lens
  | _, _ => False
  end.

(** The state after one more storage has been created, and the object
    over it. *)
Definition push (s : Store.st) (d : Store.storage) : Store.st :=
  {| Store.mem := Store.mem s ++ [d]; Store.gen := Store.gen s |}.

Definition newest (s : Store.st) (d : Store.storage) : Store.tensor :=
  {| Store.base := length (Store.mem s); Store.nrows := Store.storage_rows d |}.

(** Every object that reads in [s] reads the same in [s']. *)
Definition extends (s s' : Store.st) : Prop :=
  (forall t v, reads_long s t v -> reads_long s' t v) /\
  (forall t v, reads_float s t v -> reads_float s' t v).

(** The generator gives every example at least one logit. *)
Definition generator_nonempty (ext : External) : Prop :=
  forall x, Forall (fun row => row <> []) (generator ext x).

(** The encoder network returns, for the source batch [src], final
    states of [slices] slices for [batch] examples and of width [width],
    whatever the state of the generator. *)
Definition encoder_shapes (ext : External) (enc : Encoder.t) (src : tokens_input)
           (slices batch width : nat) : Prop :=
  forall g,
    let hc := fst (fst (Encoder.forward ext enc g src None)) in
    is_tensor3 slices batch width (fst hc) /\
    is_tensor3 slices batch width (snd hc).

(** [i] is what [row.max(-1)] returns as index: a position of [row]
    whose entry no entry exceeds, and the first such position. *)
Definition is_argmax (row : list Q) (i : Z) : Prop :=
  (0 <= i < Z.of_nat (length row))%Z /\
  (forall j, (j < length row)%nat ->
     nth j row 0 <= nth (Z.to_nat i) row 0) /\
  (forall j, (j < Z.to_nat i)%nat ->
     nth j row 0 < nth (Z.to_nat i) row 0).

(** ** The cells of a [StackedLSTM]

    [StackedLSTM.__init__]: the loop that appends one
    [nn.LSTMCell(input_size, rnn_size)] per layer and then rebinds
    [input_size]; a cell is recorded by the two sizes it is built with. *)
Fixpoint StackedLSTM_init_loop (idx : list nat) (input_size rnn_size : Z)
         (layers : list (Z * Z)) : list (Z * Z) :=
  match idx with
  | [] => layers
  | _ :: idx' =>
      let layers := layers ++ [(input_size, rnn_size)] in
      let input_size := rnn_size in
      StackedLSTM_init_loop idx' input_size rnn_size layers
  end.

Definition StackedLSTM_init (num_layers : nat) (input_size rnn_size : Z)
  : list (Z * Z) :=
  StackedLSTM_init_loop (seq 0 num_layers) input_size rnn_size [].

(** ** A small concrete model

    One layer, one direction, hidden size 1, latent size 1; used to run
    the definitions. *)

Module Instance.

(** The stand-in encoder network returns, for both states, the first
    embedding coordinate of the last timestep of every example. *)
Definition ext : External :=
  {| exp := fun x => 1 + x;
     UNK := 1;
     word_lut_enc := fun tok => [inject_Z tok];
     word_lut_dec := fun tok => [inject_Z tok];
     enc_rnn := fun g emb _ _ =>
       let h := [map (fun v => [hd 0 v]) (last emb [])] in
       ((emb, (h, h)), g);
     lstm_cell := fun _ x hc => (map2 (map2 Qplus) x (fst hc), snd hc);
     dropout_fn := fun g x => (x, g);
     generator := fun x => map (fun row => row ++ [0]) x |}.

Definition opt (gp : list nat) (det pre dyn : bool) (p : Q) : Opt.t :=
  {| Opt.layers := 1; Opt.brnn := false; Opt.rnn_size := 1;
     Opt.word_vec_size := 1; Opt.dropout := 0; Opt.dynamic_decode := dyn;
     Opt.ss := false; Opt.gpus := gp; Opt.latent_size := 1;
     Opt.feed_gt_prob := p; Opt.deterministic := det; Opt.prelu := pre |}.

Definition enc : Encoder.t :=
  {| Encoder.layers := 1; Encoder.num_directions := 1; Encoder.hidden_size := 1 |}.

Definition model (gp : list nat) (train det pre dyn : bool) (p a : Q)
  : NMTModel.t :=
  {| NMTModel.encoder := enc;
     NMTModel.decoder := Decoder.init (opt gp det pre dyn p);
     NMTModel.layers := 1;
     NMTModel.gpus := gp;
     NMTModel.latent_size := 1;
     NMTModel.feed_gt_prob := p;
     NMTModel.dynamic_decode := dyn;
     NMTModel.deterministic := det;
     NMTModel.prelu := pre;
     NMTModel.encoder_to_mu := {| weight := [[1; 0]]; bias := [0] |};
     NMTModel.encoder_to_nu := {| weight := [[1; 0]]; bias := [0] |};
     NMTModel.nu_to_logvar := {| weight := [[1]]; bias := [0] |};
     NMTModel.latent_to_decoder := {| weight := [[1]; [1]]; bias := [0; 0] |};
     NMTModel.prelu_mu := a;
     NMTModel.prelu_logvar := a;
     NMTModel.prelu_dec := a;
     NMTModel.training := train |}.

Definition g0 : rng := {| stream := fun n => inject_Z (Z.of_nat n) / 3; cursor := 0 |}.

Definition src : tokens_input := Plain [[2]; [5]; [1]]%Z.
Definition tgt : mat Z := [[2]; [7]; [3]; [1]]%Z.

(** The same batch as two tensor objects of the caller in a store. *)
Definition store0 : Store.st :=
  {| Store.mem := [Store.LongData [[2]; [5]; [1]]%Z;
                   Store.LongData [[2]; [7]; [3]; [1]]%Z];
     Store.gen := g0 |}.
Definition src_ref : Store.tokens_ref :=
  Store.PlainRef {| Store.base := 0; Store.nrows := 3 |}.
Definition tgt_ref : Store.tensor := {| Store.base := 1; Store.nrows := 4 |}.

End Instance.

(** ** A small bidirectional model

    One layer, two directions of hidden size 1, so [rnn_size = 2]; the
    stand-in encoder network returns fixed final states. *)

Module Bidirectional.

Definition h : tensor3 Q := [[[1]]; [[2]]].
Definition c : tensor3 Q := [[[3]]; [[4]]].

Definition ext : External :=
  {| exp := fun x => 1 + x;
     UNK := 1;
     word_lut_enc := fun tok => [inject_Z tok];
     word_lut_dec := fun tok => [inject_Z tok];
     enc_rnn := fun g emb _ _ => ((emb, (h, c)), g);
     lstm_cell := fun _ x hc => hc;
     dropout_fn := fun g x => (x, g);
     generator := fun x => x |}.

Definition opt : Opt.t :=
  {| Opt.layers := 1; Opt.brnn := true; Opt.rnn_size := 2;
     Opt.word_vec_size := 1; Opt.dropout := 0; Opt.dynamic_decode := false;
     Opt.ss := false; Opt.gpus := []; Opt.latent_size := 1;
     Opt.feed_gt_prob := 1; Opt.deterministic := true; Opt.prelu := false |}.

Definition enc : Encoder.t :=
  {| Encoder.layers := 1; Encoder.num_directions := 2; Encoder.hidden_size := 1 |}.

(** The mean reads the second column of the flattened state. *)
Definition model : NMTModel.t :=
  {| NMTModel.encoder := enc;
     NMTModel.decoder := Decoder.init opt;
     NMTModel.layers := 1;
     NMTModel.gpus := [];
     NMTModel.latent_size := 1;
     NMTModel.feed_gt_prob := 1;
     NMTModel.dynamic_decode := false;
     NMTModel.deterministic := true;
     NMTModel.prelu := false;
     NMTModel.encoder_to_mu := {| weight := [[0; 1; 0; 0]]; bias := [0] |};
     NMTModel.encoder_to_nu := {| weight := [[0; 1; 0; 0]]; bias := [0] |};
     NMTModel.nu_to_logvar := {| weight := [[1]]; bias := [0] |};
     NMTModel.latent_to_decoder :=
       {| weight := [[1]; [1]; [1]; [1]]; bias := [0; 0; 0; 0] |};
     NMTModel.prelu_mu := 0;
     NMTModel.prelu_logvar := 0;
     NMTModel.prelu_dec := 0;
     NMTModel.training := false |}.

End Bidirectional.

(** ** A small model with two layers

    Two layers, one direction, hidden size 1, latent size 1. *)

Module TwoLayers.

Definition opt : Opt.t :=
  {| Opt.layers := 2; Opt.brnn := false; Opt.rnn_size := 1;
     Opt.word_vec_size := 1; Opt.dropout := 0; Opt.dynamic_decode := false;
     Opt.ss := false; Opt.gpus := []; Opt.latent_size := 1;
     Opt.feed_gt_prob := 1; Opt.deterministic := true; Opt.prelu := false |}.

Definition enc : Encoder.t :=
  {| Encoder.layers := 2; Encoder.num_directions := 1; Encoder.hidden_size := 1 |}.

Definition model : NMTModel.t :=
  {| NMTModel.encoder := enc;
     NMTModel.decoder := Decoder.init opt;
     NMTModel.layers := 2;
     NMTModel.gpus := [];
     NMTModel.latent_size := 1;
     NMTModel.feed_gt_prob := 1;
     NMTModel.dynamic_decode := false;
     NMTModel.deterministic := true;
     NMTModel.prelu := false;
     NMTModel.encoder_to_mu := {| weight := [[1; 0; 0; 0]]; bias := [0] |};
     NMTModel.encoder_to_nu := {| weight := [[1; 0; 0; 0]]; bias := [0] |};
     NMTModel.nu_to_logvar := {| weight := [[1]]; bias := [0] |};
     NMTModel.latent_to_decoder :=
       {| weight := [[1]; [2]; [3]; [4]]; bias := [0; 0; 0; 0] |};
     NMTModel.prelu_mu := 0;
     NMTModel.prelu_logvar := 0;
     NMTModel.prelu_dec := 0;
     NMTModel.training := false |}.

End TwoLayers.

(** * Properties *)

(** ** Generic facts about the tensor operations *)

(** Arithmetic on lengths, seen through the names of the tensor types. *)
Ltac len := unfold tensor3, mat in *; lia.

Lemma bind_ok {A B : Type} (r : result A) (k : A -> result B) (b : B) :
  bind r k = Ok b -> exists a, r = Ok a /\ k a = Ok b.
Proof.
  destruct r as [a|e]; simpl; intros H; [exists a; auto | discriminate].
Qed.

Lemma Qmult_comm_eq (x y : Q) : (x * y = y * x)%Q.
Proof.
  destruct x as [a b], y as [c d]. unfold Qmult. simpl.
  rewrite (Z.mul_comm a c), (Pos.mul_comm b d). reflexivity.
Qed.

Lemma Qplus_comm_eq (x y : Q) : (x + y = y + x)%Q.
Proof.
  destruct x as [a b], y as [c d]. unfold Qplus. simpl.
  rewrite (Z.add_comm (a * Z.pos d) (c * Z.pos b)), (Pos.mul_comm b d).
  reflexivity.
Qed.

Lemma is_mat_nil {A : Type} (c : nat) : is_mat 0 c (@nil (list A)).
Proof. split; [reflexivity | constructor]. Qed.

Lemma is_mat_cons {A : Type} (r c : nat) (row : list A) (m : mat A) :
  is_mat (S r) c (row :: m) <-> length row = c /\ is_mat r c m.
Proof.
  unfold is_mat. simpl. split.
  - intros [Hl Hf]. inversion Hf; subst. repeat split; auto.
  - intros [Hr [Hl Hf]]. split; [lia | constructor; auto].
Qed.

Lemma is_mat_inv_nil {A : Type} (r c : nat) :
  is_mat r c (@nil (list A)) -> r = 0%nat.
Proof. intros [H _]. simpl in H. auto. Qed.

Lemma is_mat_inv_cons {A : Type} (r c : nat) (row : list A) (m : mat A) :
  is_mat r c (row :: m) ->
  exists r', r = S r' /\ length row = c /\ is_mat r' c m.
Proof.
  intros H. destruct r as [|r'].
  - destruct H as [H _]. discriminate.
  - exists r'. apply is_mat_cons in H. tauto.
Qed.

(** ** Encoder *)


(** ** Pointwise operations *)

Lemma zip_exact_total {X Y Z : Type} (f : X -> Y -> result Z) (h : X -> Y -> Z)
      (l1 : list X) (l2 : list Y) :
  Forall2 (fun x y => f x y = Ok (h x y)) l1 l2 ->
  zip_exact f l1 l2 = Ok (map2 h l1 l2).
Proof.
  induction 1 as [|x y l1 l2 Hxy _ IH]; simpl; [reflexivity|].
  rewrite Hxy. simpl. rewrite IH. reflexivity.
Qed.

Lemma bcast_same_length {X Y Z : Type} (f : X -> Y -> result Z)
      (l1 : list X) (l2 : list Y) :
  length l1 = length l2 -> bcast f l1 l2 = zip_exact f l1 l2.
Proof.
  intros H. unfold bcast. rewrite H, Nat.eqb_refl. reflexivity.
Qed.

Lemma Forall2_same_length {X Y : Type} (P : X -> Y -> Prop)
      (l1 : list X) (l2 : list Y) :
  length l1 = length l2 ->
  (forall x y, In (x, y) (combine l1 l2) -> P x y) ->
  Forall2 P l1 l2.
Proof.
  revert l2. induction l1 as [|x l1 IH]; intros [|y l2] Hl Hp;
    simpl in *; try discriminate; constructor.
  - apply Hp. left. reflexivity.
  - apply IH; [lia | intros; apply Hp; right; assumption].
Qed.

Lemma Forall2_rows {X Y : Type} (r c : nat) (x : mat X) (y : mat Y) :
  is_mat r c x -> is_mat r c y ->
  Forall2 (fun r1 r2 => length r1 = c /\ length r2 = c) x y.
Proof.
  intros [Hx Fx] [Hy Fy]. apply Forall2_same_length; [lia|].
  intros r1 r2 Hin. rewrite Forall_forall in Fx, Fy. split.
  - apply Fx. eapply in_combine_l; eauto.
  - apply Fy. eapply in_combine_r; eauto.
Qed.

Lemma pointwise2_same_shape {X Y Z : Type} (f : X -> Y -> Z) (r c : nat)
      (x : mat X) (y : mat Y) :
  is_mat r c x -> is_mat r c y ->
  pointwise2 f x y = Ok (map2 (map2 f) x y).
Proof.
  intros Hx Hy. unfold pointwise2.
  rewrite bcast_same_length by (destruct Hx, Hy; lia).
  apply zip_exact_total.
  eapply Forall2_impl; [| apply (Forall2_rows Hx Hy)].
  intros r1 r2 [H1 H2]. simpl.
  rewrite bcast_same_length by lia.
  apply zip_exact_total.
  apply Forall2_same_length; [lia | auto].
Qed.

Lemma length_map2 {X Y Z : Type} (f : X -> Y -> Z) (l1 : list X) (l2 : list Y) :
  length l1 = length l2 -> length (map2 f l1 l2) = length l1.
Proof.
  intros H. unfold map2. rewrite length_map, length_combine. lia.
Qed.

Lemma nth_map2 {X Y Z : Type} (f : X -> Y -> Z) (l1 : list X) (l2 : list Y)
      (i : nat) (dx : X) (dy : Y) (dz : Z) :
  length l1 = length l2 -> (i < length l1)%nat ->
  nth i (map2 f l1 l2) dz = f (nth i l1 dx) (nth i l2 dy).
Proof.
  revert l2 i. induction l1 as [|x l1 IH]; intros [|y l2] i Hl Hi;
    simpl in *; try lia.
  destruct i as [|i]; [reflexivity|].
  apply IH; lia.
Qed.

Lemma is_mat_map2 {X Y Z : Type} (f : X -> Y -> Z) (r c : nat)
      (x : mat X) (y : mat Y) :
  is_mat r c x -> is_mat r c y -> is_mat r c (map2 (map2 f) x y).
Proof.
  intros Hx Hy. pose proof (Forall2_rows Hx Hy) as F.
  destruct Hx as [Hx _], Hy as [Hy _]. split.
  - rewrite length_map2; lia.
  - clear Hx Hy. induction F as [|r1 r2 x y [H1 H2] _ IH]; simpl; constructor; auto.
    change (length (map2 f r1 r2) = c). rewrite length_map2; lia.
Qed.

Lemma is_mat_nth {X : Type} (r c : nat) (m : mat X) (i : nat) :
  is_mat r c m -> (i < r)%nat -> length (nth i m []) = c.
Proof.
  intros [Hl Hf] Hi. rewrite Forall_forall in Hf. apply Hf, nth_In. lia.
Qed.

Lemma is_mat_map {X Y : Type} (f : X -> Y) (r c : nat) (m : mat X) :
  is_mat r c m -> is_mat r c (map (map f) m).
Proof.
  intros [Hl Hf]. split; [rewrite length_map; auto|].
  rewrite Forall_forall in *. intros row Hin.
  apply in_map_iff in Hin. destruct Hin as [row0 [<- Hin]].
  rewrite length_map. auto.
Qed.

Lemma is_mat_size1 {X : Type} (r c : nat) (m : mat X) :
  is_mat (S r) c m -> size1 m = c.
Proof.
  destruct m as [|row m]; intros H.
  - apply is_mat_inv_nil in H. discriminate.
  - apply is_mat_cons in H. unfold size1. simpl. tauto.
Qed.

(** ** The random generator *)

Lemma advance_0 (g : rng) : advance g 0 = g.
Proof. destruct g as [s c]. unfold advance. simpl. f_equal. lia. Qed.

Lemma advance_advance (g : rng) (n m : nat) :
  advance (advance g n) m = advance g (n + m).
Proof. unfold advance. simpl. f_equal. lia. Qed.

Lemma draws_spec (n : nat) (g : rng) :
  draws n g = (map (fun j => stream g (cursor g + j)%nat) (seq 0 n), advance g n).
Proof.
  revert g. induction n as [|n IH]; intros g.
  - simpl. rewrite advance_0. reflexivity.
  - cbn [draws next]. rewrite IH. cbn [stream cursor].
    rewrite <- cons_seq, <- seq_shift. cbn [map]. rewrite map_map.
    f_equal.
    + f_equal; [f_equal; lia|].
      apply map_ext. intros j. f_equal. lia.
    + unfold advance. simpl. f_equal. lia.
Qed.

Lemma draw_rows_spec (r c : nat) (g : rng) :
  draw_rows r c g =
  (map (fun i => map (fun j => stream g (cursor g + i * c + j)%nat) (seq 0 c))
       (seq 0 r),
   advance g (r * c)).
Proof.
  revert g. induction r as [|r IH]; intros g.
  - simpl. rewrite advance_0. reflexivity.
  - cbn [draw_rows]. rewrite draws_spec, IH.
    rewrite <- cons_seq, <- seq_shift. cbn [map]. rewrite map_map.
    f_equal.
    + f_equal.
      * apply map_ext. intros j. f_equal. lia.
      * apply map_ext. intros i. apply map_ext. intros j.
        unfold advance. simpl. f_equal. lia.
    + rewrite advance_advance. f_equal.
Qed.

Lemma nth_map_seq {X : Type} (f : nat -> X) (n i : nat) (d : X) :
  (i < n)%nat -> nth i (map f (seq 0 n)) d = f i.
Proof.
  intros H. rewrite (nth_indep _ d (f 0%nat)) by (rewrite length_map, length_seq; lia).
  rewrite map_nth. rewrite seq_nth by lia. reflexivity.
Qed.

Lemma nth_map_in {X Y : Type} (f : X -> Y) (l : list X) (dx : X) (dy : Y)
      (i : nat) :
  (i < length l)%nat -> nth i (map f l) dy = f (nth i l dx).
Proof.
  intros H. rewrite (nth_indep _ dy (f dx)) by (rewrite length_map; lia).
  apply map_nth.
Qed.

Lemma is_mat_draw_rows (r c : nat) (g : rng) : is_mat r c (fst (draw_rows r c g)).
Proof.
  rewrite draw_rows_spec. cbn [fst]. split.
  - rewrite length_map, length_seq. reflexivity.
  - rewrite Forall_forall. intros row Hin.
    apply in_map_iff in Hin. destruct Hin as [i [<- _]].
    rewrite length_map, length_seq. reflexivity.
Qed.

(** ** Sampling the latent code *)

Lemma reparameterize_spec (ext : External) (self : NMTModel.t) (g : rng)
      (mu logvar : mat Q) (B N : nat) :
  is_mat B N mu -> is_mat B N logvar ->
  exists z,
    NMTModel.reparameterize ext self g mu logvar = Ok (z, advance g (B * N)) /\
    is_mat B N z /\
    forall i j, (i < B)%nat -> (j < N)%nat ->
      entry z i j =
      (entry mu i j +
       exp ext ((1 # 2) * entry logvar i j) * stream g (cursor g + i * N + j)%nat)%Q.
Proof.
  intros Hmu Hlv. unfold NMTModel.reparameterize.
  set (std := map (map (fun x => exp ext (x * (1 # 2)))) logvar).
  assert (Hstd : is_mat B N std) by (apply is_mat_map; assumption).
  destruct B as [|B].
  - destruct Hmu as [Hmu _], Hlv as [Hlv _].
    apply length_zero_iff_nil in Hmu, Hlv. subst mu logvar. subst std.
    simpl. rewrite advance_0. exists []. repeat split; [constructor | lia].
  - assert (S0 : size0 std = S B) by (destruct Hstd; auto).
    assert (S1 : size1 std = N) by (eapply is_mat_size1; eauto).
    rewrite S0, S1.
    pose proof (is_mat_draw_rows (S B) N g) as Heps.
    rewrite draw_rows_spec in Heps |- *. cbn [fst] in Heps.
    set (eps := map _ (seq 0 (S B))) in *. cbv iota beta.
    unfold mul_float, add_float.
    rewrite (pointwise2_same_shape Qmult Heps Hstd). cbn [bind].
    pose proof (is_mat_map2 Qmult Heps Hstd) as Hes.
    rewrite (pointwise2_same_shape Qplus Hes Hmu). cbn [bind].
    eexists. split; [reflexivity|]. split.
    + apply is_mat_map2; assumption.
    + intros i j Hi Hj. unfold entry.
      rewrite (nth_map2 (map2 Qplus) _ _ [] [] [])
        by (destruct Hes, Hmu; lia).
      rewrite (nth_map2 Qplus _ _ 0%Q 0%Q 0%Q)
        by (rewrite !(is_mat_nth (i:=i) Hes), ?(is_mat_nth (i:=i) Hmu); lia).
      rewrite (nth_map2 (map2 Qmult) _ _ [] [] [])
        by (destruct Heps, Hstd; lia).
      rewrite (nth_map2 Qmult _ _ 0%Q 0%Q 0%Q)
        by (rewrite !(is_mat_nth (i:=i) Heps), ?(is_mat_nth (i:=i) Hstd); lia).
      rewrite Qplus_comm_eq, Qmult_comm_eq. f_equal. f_equal.
      * subst std.
        rewrite (nth_map_in _ _ [] []) by (destruct Hlv; lia).
        rewrite (nth_map_in _ _ 0%Q 0%Q)
          by (rewrite (is_mat_nth (i:=i) Hlv); lia).
        f_equal. apply Qmult_comm_eq.
      * subst eps. rewrite nth_map_seq by lia. rewrite nth_map_seq by lia.
        reflexivity.
Qed.

(** C4. The sampling step of [forward] returns [mu] itself, and leaves
    the generator untouched, when the model is deterministic, whatever
    [mu] and [logvar] are.  Otherwise, for [mu] and [logvar] of one shape
    [B] x [N], it draws [B * N] new variates [eps] from the generator (as
    many as [std] has entries, in row-major order) and returns
    [z = mu + exp (0.5 * logvar) * eps] entry by entry. *)
Theorem sample_contract (ext : External) (self : NMTModel.t) (g : rng)
        (mu logvar : mat Q) :
  (NMTModel.deterministic self = true ->
   NMTModel.sample ext self g mu logvar = Ok (mu, g)) /\
  (NMTModel.deterministic self = false ->
   forall B N : nat, is_mat B N mu -> is_mat B N logvar ->
   exists z,
     NMTModel.sample ext self g mu logvar = Ok (z, advance g (B * N)) /\
     is_mat B N z /\
     forall i j, (i < B)%nat -> (j < N)%nat ->
       entry z i j =
       (entry mu i j +
        exp ext ((1 # 2) * entry logvar i j) * stream g (cursor g + i * N + j)%nat)%Q).
Proof.
  unfold NMTModel.sample. split; intros Hd; rewrite Hd; simpl.
  - reflexivity.
  - intros B N Hmu Hlv. apply reparameterize_spec; assumption.
Qed.

Lemma sample_contract_witness :
  NMTModel.sample Instance.ext (Instance.model [] false true false false 1 0)
                  Instance.g0 [[1; 2]] [[0; 0]] = Ok ([[1; 2]], Instance.g0) /\
  exists z,
    NMTModel.sample Instance.ext (Instance.model [] false false false false 1 0)
                    Instance.g0 [[1; 2]] [[0; 0]]
    = Ok (z, advance Instance.g0 (1 * 2)) /\
    is_mat 1 2 z /\
    forall i j, (i < 1)%nat -> (j < 2)%nat ->
      entry z i j =
      (entry [[1; 2]] i j +
       exp Instance.ext ((1 # 2) * entry [[0; 0]] i j) *
       stream Instance.g0 (cursor Instance.g0 + i * 2 + j)%nat)%Q.
Proof.
  split.
  - apply (proj1 (sample_contract Instance.ext
                    (Instance.model [] false true false false 1 0)
                    Instance.g0 [[1; 2]] [[0; 0]])).
    reflexivity.
  - apply (proj2 (sample_contract Instance.ext
                    (Instance.model [] false false false false 1 0)
                    Instance.g0 [[1; 2]] [[0; 0]])).
    + reflexivity.
    + split; [reflexivity | repeat constructor].
    + split; [reflexivity | repeat constructor].
Defined.

(** ** The log-variance *)

Lemma neg2abs_nonpos (x : Q) : NMTModel.neg2abs x <= 0.
Proof.
  unfold NMTModel.neg2abs. pose proof (Qabs_nonneg x). nra.
Qed.

Lemma prelu_fn_nonpos (a x : Q) : 0 <= a -> x <= 0 -> prelu_fn a x <= 0.
Proof.
  intros Ha Hx. unfold prelu_fn.
  rewrite (Q.max_l 0 x) by assumption.
  rewrite (Q.min_r 0 x) by assumption.
  nra.
Qed.

Lemma Forall_map_all {X Y : Type} (P : Y -> Prop) (f : X -> Y) (m : mat X) :
  (forall x, P (f x)) -> Forall (Forall P) (map (map f) m).
Proof.
  intros H. rewrite Forall_forall. intros row Hin.
  apply in_map_iff in Hin. destruct Hin as [r [<- _]].
  rewrite Forall_forall. intros y Hy.
  apply in_map_iff in Hy. destruct Hy as [x [<- _]]. apply H.
Qed.

Lemma Forall_map_pres {X : Type} (P : X -> Prop) (f : X -> X) (m : mat X) :
  (forall x, P x -> P (f x)) -> Forall (Forall P) m ->
  Forall (Forall P) (map (map f) m).
Proof.
  intros H F. rewrite Forall_forall in *. intros row Hin.
  apply in_map_iff in Hin. destruct Hin as [r [<- Hr]].
  specialize (F r Hr). rewrite Forall_forall in *. intros y Hy.
  apply in_map_iff in Hy. destruct Hy as [x [<- Hx]]. auto.
Qed.

(** C2 (amended). Every entry of the log-variance that [encode] returns
    is at most 0, for every source batch and every weight of the three
    projections, when the [prelu] flag is off, or when it is on and the
    learned slope of [prelu_logvar] is not negative. *)
Theorem encode_logvar_nonpos (ext : External) (self : NMTModel.t) (g g' : rng)
        (x : tokens_input) (mu logvar : mat Q) :
  NMTModel.prelu self = false \/ 0 <= NMTModel.prelu_logvar self ->
  NMTModel.encode ext self g x = Ok ((mu, logvar), g') ->
  Forall (Forall (fun v => v <= 0)) logvar.
Proof.
  intros Hp. unfold NMTModel.encode.
  destruct (Encoder.forward ext (NMTModel.encoder self) g x None)
    as [[enc_hidden outputs] g1].
  intros H.
  apply bind_ok in H. destruct H as [flat [_ H]].
  apply bind_ok in H. destruct H as [[mu1 logvar1] [H Hret]].
  injection Hret as -> -> _.
  unfold NMTModel.latent in H.
  apply bind_ok in H. destruct H as [mu0 [_ H]].
  apply bind_ok in H. destruct H as [nu [_ H]].
  apply bind_ok in H. destruct H as [lv [_ H]].
  assert (F : Forall (Forall (fun v => v <= 0)) (map (map NMTModel.neg2abs) lv))
    by (apply Forall_map_all, neg2abs_nonpos).
  destruct (NMTModel.prelu self) eqn:E.
  - destruct Hp as [Hp|Hp]; [discriminate|].
    injection H as _ <-. unfold PReLU.
    apply Forall_map_pres; [|exact F].
    intros v Hv. apply prelu_fn_nonpos; assumption.
  - injection H as _ <-. exact F.
Qed.

Lemma encode_logvar_nonpos_witness :
  NMTModel.encode Instance.ext (Instance.model [] false true true false 1 (1 # 4))
                  Instance.g0 Instance.src
  = Ok (([[4 # 4]], [[-2 # 4]]), Instance.g0) /\
  Forall (Forall (fun v => v <= 0)) [[-2 # 4]].
Proof.
  assert (E : NMTModel.encode Instance.ext
                (Instance.model [] false true true false 1 (1 # 4))
                Instance.g0 Instance.src
              = Ok (([[4 # 4]], [[-2 # 4]]), Instance.g0)) by reflexivity.
  split; [exact E|].
  apply (@encode_logvar_nonpos Instance.ext
           (Instance.model [] false true true false 1 (1 # 4))
           Instance.g0 Instance.g0 Instance.src [[4 # 4]] [[-2 # 4]]).
  - right. simpl. lra.
  - exact E.
Defined.

(** C2, as stated: with the [prelu] flag on and a negative learned slope
    the log-variance that [encode] returns is positive. *)
Lemma encode_logvar_positive_with_negative_slope :
  NMTModel.encode Instance.ext (Instance.model [] false true true false 1 (-1))
                  Instance.g0 Instance.src
  = Ok (([[1]], [[2]]), Instance.g0) /\
  ~ Forall (Forall (fun v => v <= 0)) [[2]].
Proof.
  split; [reflexivity|].
  intros F. inversion F as [|? ? F1 _]; subst.
  inversion F1 as [|? ? H _]; subst. lra.
Qed.

(** ** Decoder *)

(** C10. [Decoder.forward] never reads [init_output] nor [step]: with
    the same target and initial state, any two values of either give the
    same logits, final state and generator.  [NMTModel.decode], which
    passes [step] on, is independent of it as well. *)
Theorem Decoder_forward_ignores_init_output_and_step
        (ext : External) (self : Decoder.t) (g : rng) (input : mat Z)
        (hidden : state) (init_output1 init_output2 : mat Q) (step1 step2 : Z)
        (model : NMTModel.t) (z : mat Q) :
  Decoder.forward ext self g input hidden init_output1 step1 =
  Decoder.forward ext self g input hidden init_output2 step2 /\
  NMTModel.decode ext model g z input step1 =
  NMTModel.decode ext model g z input step2.
Proof.
  split; reflexivity.
Qed.

Lemma stack_ok {X : Type} (l l' : list X) : stack l = Ok l' -> l' = l.
Proof. destruct l; simpl; intros H; [discriminate | injection H; auto]. Qed.

(** The traced loop computes what the loop computes. *)
Lemma loop_traced_erase (ext : External) (self : Decoder.t) (emb : tensor3 Q) :
  forall i input_t hidden outputs fed g,
    Decoder.loop ext self i emb input_t hidden outputs g =
    match Decoder.loop_traced ext self i emb input_t hidden outputs fed g with
    | Ok ((outs, _, h), g') => Ok ((outs, h), g')
    | Raise e => Raise e
    end.
Proof.
  induction emb as [|emb_t emb IH]; intros i input_t hidden outputs fed g.
  - reflexivity.
  - cbn [Decoder.loop Decoder.loop_traced].
    destruct (Decoder.step ext self i emb_t input_t hidden g)
      as [[[[logit input_t'] hidden'] g1]|e]; cbn [bind]; [|reflexivity].
    apply IH.
Qed.

Lemma forward_traced_erase (ext : External) (self : Decoder.t) (g : rng)
      (input : mat Z) (hidden : state) (init_output : mat Q) (step : Z) :
  Decoder.forward ext self g input hidden init_output step =
  match Decoder.forward_traced ext self g input hidden init_output step with
  | Ok ((outs, _, h), g') => Ok ((outs, h), g')
  | Raise e => Raise e
  end.
Proof.
  unfold Decoder.forward, Decoder.forward_traced.
  rewrite (loop_traced_erase ext self (Decoder.embed ext input) 0 [] hidden [] [] g).
  destruct (Decoder.loop_traced ext self 0 (Decoder.embed ext input) [] hidden [] [] g)
    as [[[[outs fed] h] g1]|e]; cbn [bind]; [|reflexivity].
  destruct (stack outs); reflexivity.
Qed.

Lemma nth_error_app_Some {X : Type} (l l' : list X) (k : nat) (x : X) :
  nth_error l k = Some x -> nth_error (l ++ l') k = Some x.
Proof.
  intros H. rewrite nth_error_app1; [assumption|].
  apply nth_error_Some. congruence.
Qed.

Lemma fed_spec_extend (ext : External) (self : Decoder.t)
      (emb emb' outs outs' : tensor3 Q) (k : nat) (x : mat Q) :
  fed_spec ext self emb outs k x ->
  fed_spec ext self (emb ++ emb') (outs ++ outs') k x.
Proof.
  unfold fed_spec.
  destruct (negb (Decoder.dynamic_decode self) || (k =? 0)%nat).
  - apply nth_error_app_Some.
  - intros [logit [idx [H1 [H2 H3]]]]. exists logit, idx.
    split; [apply nth_error_app_Some; assumption | auto].
Qed.

(** What the iteration leaves in [input_t] under dynamic decoding. *)
Lemma step_carries (ext : External) (self : Decoder.t) (i : nat)
      (emb_t input_t logit input_t' : mat Q) (hidden hidden' : state) (g g' : rng) :
  Decoder.step ext self i emb_t input_t hidden g = Ok ((logit, input_t', hidden'), g') ->
  Decoder.dynamic_decode self = true ->
  exists idx, Decoder.max_indices logit = Ok idx /\ input_t' = Decoder.embed_row ext idx.
Proof.
  unfold Decoder.step. intros H Hd.
  apply bind_ok in H. destruct H as [[[output h1] g1] [_ H]].
  destruct (dropout_fn ext g1 output) as [output' g2].
  apply bind_ok in H. destruct H as [it [Hit H]].
  injection H as <- <- _ _. rewrite Hd in Hit.
  apply bind_ok in Hit. destruct Hit as [idx [Hidx Hit]].
  injection Hit as <-. exists idx. auto.
Qed.

Lemma nth_error_snoc {X : Type} (l : list X) (x : X) :
  nth_error (l ++ [x]) (length l) = Some x.
Proof.
  rewrite nth_error_app2 by lia. rewrite Nat.sub_diag. reflexivity.
Qed.

Lemma nth_error_snoc_inv {X : Type} (l : list X) (x y : X) (k : nat) :
  nth_error (l ++ [x]) k = Some y ->
  nth_error l k = Some y \/ (k = length l /\ y = x).
Proof.
  intros H. destruct (Nat.lt_ge_cases k (length l)) as [Hk|Hk].
  - left. rewrite nth_error_app1 in H by assumption. assumption.
  - right. rewrite nth_error_app2 in H by assumption.
    destruct (k - length l)%nat as [|n] eqn:E.
    + simpl in H. injection H as <-. split; [lia | reflexivity].
    + simpl in H. destruct n; discriminate.
Qed.

(** The invariant of the loop of [Decoder.forward]: [pre] are the
    embeddings of the timesteps already done. *)
Lemma loop_traced_inv (ext : External) (self : Decoder.t) (emb : tensor3 Q) :
  forall (pre : tensor3 Q) input_t hidden outputs fed g outs fed' h' g',
    length outputs = length pre ->
    length fed = length pre ->
    (forall k x, nth_error fed k = Some x -> fed_spec ext self pre outputs k x) ->
    (Decoder.dynamic_decode self = true -> (0 < length pre)%nat ->
     exists logit idx,
       nth_error outputs (length pre - 1) = Some logit /\
       Decoder.max_indices logit = Ok idx /\
       input_t = Decoder.embed_row ext idx) ->
    Decoder.loop_traced ext self (length pre) emb input_t hidden outputs fed g
    = Ok ((outs, fed', h'), g') ->
    length outs = length (pre ++ emb) /\
    length fed' = length (pre ++ emb) /\
    (forall k x, nth_error fed' k = Some x ->
                 fed_spec ext self (pre ++ emb) outs k x).
Proof.
  induction emb as [|emb_t emb IH];
    intros pre input_t hidden outputs fed g outs fed' h' g' Lo Lf Hfed Hcar H.
  - cbn [Decoder.loop_traced] in H. injection H as <- <- _ _.
    rewrite app_nil_r. auto.
  - cbn [Decoder.loop_traced] in H.
    apply bind_ok in H. destruct H as [[[[logit input_t'] hidden1] g1] [Hstep H]].
    replace (S (length pre)) with (length (pre ++ [emb_t])) in H
      by (rewrite length_app; simpl; lia).
    replace (pre ++ emb_t :: emb) with ((pre ++ [emb_t]) ++ emb)
      by (rewrite <- app_assoc; reflexivity).
    eapply IH; [| | | | exact H].
    + rewrite !length_app. simpl. unfold tensor3, mat in *. lia.
    + rewrite !length_app. simpl. unfold tensor3, mat in *. lia.
    + intros k x Hk. apply nth_error_snoc_inv in Hk.
      destruct Hk as [Hk|[Hk ->]].
      * apply fed_spec_extend, Hfed, Hk.
      * subst k. rewrite Lf. unfold fed_spec, Decoder.rnn_input.
        destruct (negb (Decoder.dynamic_decode self) || (length pre =? 0)%nat) eqn:E.
        -- apply nth_error_snoc.
        -- apply orb_false_elim in E. destruct E as [E1 E2].
           apply negb_false_iff in E1. apply Nat.eqb_neq in E2.
           destruct (Hcar E1 ltac:(lia)) as [lg [idx [H1 [H2 H3]]]].
           exists lg, idx. split; [apply nth_error_app_Some; assumption | auto].
    + intros Hd _.
      destruct (step_carries _ _ _ _ _ _ _ Hstep Hd) as [idx [H1 H2]].
      exists logit, idx. split; [|auto].
      rewrite length_app. simpl.
      replace (length pre + 1 - 1)%nat with (length outputs) by lia.
      apply nth_error_snoc.
Qed.





(** ** Replacing target tokens by the unknown token *)

Lemma bcast_mismatch {X Y Z : Type} (f : X -> Y -> result Z)
      (l1 : list X) (l2 : list Y) :
  length l1 <> length l2 -> (2 <= length l1)%nat -> (2 <= length l2)%nat ->
  bcast f l1 l2 = Raise RuntimeError.
Proof.
  intros Hne H1 H2. unfold bcast.
  destruct (Nat.eqb_spec (length l1) (length l2)) as [E|_]; [contradiction|].
  destruct l1 as [|x1 [|x2 l1]]; simpl in H1; try lia.
  destruct l2 as [|y1 [|y2 l2]]; simpl in H2; try lia.
  reflexivity.
Qed.

Lemma wrap64_id (z : Z) : in_int64 z -> wrap64 z = z.
Proof.
  unfold in_int64, wrap64. intros H.
  rewrite Z.mod_small by lia. lia.
Qed.

Lemma Qtrunc_int (z : Z) : Qtrunc (z # 1) = z.
Proof.
  unfold Qtrunc, Qfloor, Qceiling, Qfloor, Qopp. simpl.
  destruct (Qle_bool 0 (z # 1)); rewrite ?Z.div_1_r; lia.
Qed.

Lemma keep_token (a unk : Z) :
  in_int64 a ->
  wrap64 (wrap64 (a * Qtrunc 1) + Qtrunc ((1 - 1) * inject_Z unk)) = a.
Proof.
  intros Ha.
  replace (Qtrunc 1) with 1%Z by reflexivity.
  replace (Qtrunc ((1 - 1) * inject_Z unk)) with 0%Z by reflexivity.
  rewrite Z.mul_1_r, (wrap64_id Ha), Z.add_0_r. apply wrap64_id, Ha.
Qed.

Lemma drop_token (a unk : Z) :
  in_int64 unk ->
  wrap64 (wrap64 (a * Qtrunc 0) + Qtrunc ((1 - 0) * inject_Z unk)) = unk.
Proof.
  intros Hu.
  replace (Qtrunc 0) with 0%Z by reflexivity.
  replace ((1 - 0) * inject_Z unk) with ((1 * unk)%Z # 1) by reflexivity.
  rewrite Qtrunc_int, Z.mul_0_r, Z.mul_1_l.
  replace (wrap64 0) with 0%Z by reflexivity.
  apply wrap64_id, Hu.
Qed.

Lemma uniform01_range (x : Q) : 0 <= uniform01 x /\ uniform01 x < 1.
Proof.
  unfold uniform01.
  pose proof (Qfloor_le x). pose proof (Qlt_floor x).
  assert (E : inject_Z (Qfloor x + 1) == inject_Z (Qfloor x) + 1)
    by (rewrite inject_Z_plus; reflexivity).
  rewrite E in H0. split; lra.
Qed.

Lemma bernoulli1_values (u p : Q) : bernoulli1 u p = 1 \/ bernoulli1 u p = 0.
Proof. unfold bernoulli1. destruct (Qlt_le_dec (uniform01 u) p); auto. Qed.

Lemma bernoulli1_one (u : Q) : bernoulli1 u 1 = 1.
Proof.
  unfold bernoulli1. destruct (Qlt_le_dec (uniform01 u) 1) as [H|H]; [reflexivity|].
  pose proof (uniform01_range u). lra.
Qed.

Lemma bernoulli1_zero (u : Q) : bernoulli1 u 0 = 0.
Proof.
  unfold bernoulli1. destruct (Qlt_le_dec (uniform01 u) 0) as [H|H]; [|reflexivity].
  pose proof (uniform01_range u). lra.
Qed.

Lemma full_ok (r : Z) (c : nat) (v : Q) :
  (0 <= r)%Z -> full r c v = Ok (repeat (repeat v c) (Z.to_nat r)).
Proof.
  intros H. unfold full. destruct (Z.ltb_spec r 0); [lia | reflexivity].
Qed.

Lemma is_mat_repeat {X : Type} (r c : nat) (v : X) :
  is_mat r c (repeat (repeat v c) r).
Proof.
  split; [apply repeat_length|].
  rewrite Forall_forall. intros row Hin.
  apply repeat_spec in Hin. subst row. apply repeat_length.
Qed.

Lemma bernoulli_length (g g' : rng) (probs samples : mat Q) :
  bernoulli g probs = Ok (samples, g') -> length samples = length probs.
Proof.
  unfold bernoulli. destruct (forallb (forallb valid_prob) probs); [|discriminate].
  pose proof (is_mat_draw_rows (size0 probs) (size1 probs) g) as Hu.
  destruct (draw_rows (size0 probs) (size1 probs) g) as [u g1].
  intros H. injection H as <- _.
  rewrite length_map, length_combine. destruct Hu as [Hu _]. cbn [fst] in Hu.
  unfold size0 in Hu. unfold mat in *. lia.
Qed.

Lemma bernoulli_raises (g : rng) (probs : mat Q) :
  bernoulli g probs = Raise RuntimeError \/
  exists samples g', bernoulli g probs = Ok (samples, g').
Proof.
  unfold bernoulli. destruct (forallb (forallb valid_prob) probs); [|auto].
  destruct (draw_rows (size0 probs) (size1 probs) g) as [u g1].
  right. eauto.
Qed.

(** The branch taken without a GPU builds [seq_len - 1] rows of samples
    for [seq_len] rows of tokens: from three rows on, the product of the
    two is refused. *)
Lemma replace_by_unk_cpu_mismatch (ext : External) (self : NMTModel.t)
      (g : rng) (seqs : mat Z) (prob : Q) :
  NMTModel.gpus self = [] -> (3 <= length seqs)%nat ->
  NMTModel.replace_by_unk ext self g seqs prob = Raise RuntimeError.
Proof.
  intros Hg Hl. unfold NMTModel.replace_by_unk. rewrite Hg. cbn [NMTModel.truthy].
  unfold size0. rewrite full_ok by lia. cbn [bind].
  rewrite full_ok by lia. cbn [bind].
  set (probs := cat0 _ _).
  assert (Lp : length probs = (length seqs - 1)%nat).
  { subst probs. unfold cat0. rewrite length_app, !repeat_length. lia. }
  destruct (bernoulli_raises g probs) as [E|[samples [g' E]]]; rewrite E; cbn [bind].
  - reflexivity.
  - apply bernoulli_length in E.
    unfold mul_long, pointwise2. rewrite bcast_mismatch; [reflexivity | | lia |].
    + unfold long. rewrite length_map. unfold mat in *. lia.
    + unfold long. rewrite length_map. unfold mat in *. lia.
Qed.

Lemma nth2_map2 {X Y Z : Type} (f : X -> Y -> Z) (r c : nat)
      (x : mat X) (y : mat Y) (i j : nat) (dx : X) (dy : Y) (dz : Z) :
  is_mat r c x -> is_mat r c y -> (i < r)%nat -> (j < c)%nat ->
  nth j (nth i (map2 (map2 f) x y) []) dz =
  f (nth j (nth i x []) dx) (nth j (nth i y []) dy).
Proof.
  intros Hx Hy Hi Hj.
  rewrite (nth_map2 (map2 f) _ _ [] [] []) by (destruct Hx, Hy; lia).
  apply nth_map2; rewrite (is_mat_nth (i:=i) Hx); try rewrite (is_mat_nth (i:=i) Hy); lia.
Qed.

Lemma nth2_map {X Y : Type} (f : X -> Y) (r c : nat) (m : mat X)
      (i j : nat) (dx : X) (dy : Y) :
  is_mat r c m -> (i < r)%nat -> (j < c)%nat ->
  nth j (nth i (map (map f) m) []) dy = f (nth j (nth i m []) dx).
Proof.
  intros Hm Hi Hj.
  rewrite (nth_map_in (map f) m [] []) by (destruct Hm; lia).
  apply nth_map_in. rewrite (is_mat_nth (i:=i) Hm); lia.
Qed.

Lemma nth_repeat_in {X : Type} (v d : X) (n i : nat) :
  (i < n)%nat -> nth i (repeat v n) d = v.
Proof.
  intros H. rewrite (nth_indep _ d v) by (rewrite repeat_length; lia).
  apply nth_repeat.
Qed.

Lemma forallb_repeat {X : Type} (f : X -> bool) (v : X) (n : nat) :
  f v = true -> forallb f (repeat v n) = true.
Proof. intros H. induction n; simpl; [reflexivity | rewrite H, IHn; reflexivity]. Qed.

(** The rows of probabilities that the GPU branch builds. *)
Lemma gpu_probs_spec (p : Q) (n B : nat) :
  0 <= p <= 1 ->
  let probs := cat0 (repeat (repeat 1 B) 1) (repeat (repeat p B) n) in
  is_mat (S n) B probs /\
  forallb (forallb valid_prob) probs = true /\
  forall i j, (i < S n)%nat -> (j < B)%nat ->
    nth j (nth i probs []) 0 = if (i =? 0)%nat then 1 else p.
Proof.
  intros Hp probs. subst probs. unfold cat0. cbn [repeat app]. repeat split.
  - simpl. rewrite repeat_length. reflexivity.
  - constructor; [apply repeat_length | apply (is_mat_repeat n B p)].
  - cbn [forallb]. rewrite forallb_repeat by reflexivity.
    rewrite forallb_repeat; [reflexivity|].
    apply forallb_repeat. unfold valid_prob.
    apply andb_true_intro. split; apply Qle_bool_iff; lra.
  - intros i j Hi Hj. destruct i as [|i]; cbn [nth Nat.eqb].
    + apply nth_repeat_in. assumption.
    + rewrite (nth_repeat_in (repeat p B) []) by lia.
      apply nth_repeat_in. assumption.
Qed.

Lemma bernoulli_spec (g : rng) (probs : mat Q) (n B : nat) :
  is_mat (S n) B probs ->
  forallb (forallb valid_prob) probs = true ->
  exists samples,
    bernoulli g probs = Ok (samples, advance g (S n * B)) /\
    is_mat (S n) B samples /\
    forall i j, (i < S n)%nat -> (j < B)%nat ->
      nth j (nth i samples []) 0 =
      bernoulli1 (stream g (cursor g + i * B + j)%nat) (nth j (nth i probs []) 0).
Proof.
  intros Hp Hv. unfold bernoulli. rewrite Hv.
  assert (S0 : size0 probs = S n) by (destruct Hp; auto).
  rewrite S0, (is_mat_size1 Hp).
  pose proof (is_mat_draw_rows (S n) B g) as Hu.
  rewrite draw_rows_spec in Hu |- *. cbn [fst] in Hu.
  set (u := map _ (seq 0 (S n))) in *. cbv iota beta.
  change (map (fun ur => map (fun up => bernoulli1 (fst up) (snd up))
                             (combine (fst ur) (snd ur))) (combine u probs))
    with (map2 (map2 bernoulli1) u probs).
  eexists. split; [reflexivity|]. split.
  - apply is_mat_map2; assumption.
  - intros i j Hi Hj.
    rewrite (nth2_map2 bernoulli1 (i:=i) (j:=j) 0 0 0 Hu Hp Hi Hj).
    f_equal. subst u. rewrite nth_map_seq by lia. rewrite nth_map_seq by lia.
    reflexivity.
Qed.

Lemma Forall_nth2 {X : Type} (P : X -> Prop) (r c : nat) (m : mat X)
      (i j : nat) (d : X) :
  is_mat r c m -> Forall (Forall P) m -> (i < r)%nat -> (j < c)%nat ->
  P (nth j (nth i m []) d).
Proof.
  intros Hm F Hi Hj. rewrite Forall_forall in F.
  assert (Hin : In (nth i m []) m) by (apply nth_In; destruct Hm; lia).
  specialize (F _ Hin). rewrite Forall_forall in F. apply F, nth_In.
  rewrite (is_mat_nth (i:=i) Hm); lia.
Qed.

(** The branch taken with a GPU: one sample per token, the first row
    drawn with probability 1. *)
Lemma replace_by_unk_gpu_spec (ext : External) (self : NMTModel.t) (g : rng)
      (seqs : mat Z) (prob : Q) (n B : nat) :
  NMTModel.truthy (NMTModel.gpus self) = true ->
  is_mat (S n) B seqs ->
  Forall (Forall in_int64) seqs ->
  in_int64 (UNK ext) ->
  0 <= prob <= 1 ->
  exists r,
    NMTModel.replace_by_unk ext self g seqs prob = Ok (r, advance g (S n * B)) /\
    is_mat (S n) B r /\
    forall i j, (i < S n)%nat -> (j < B)%nat ->
      nth j (nth i r []) 0%Z =
      if (i =? 0)%nat then nth j (nth i seqs []) 0%Z
      else if Qlt_le_dec (uniform01 (stream g (cursor g + i * B + j)%nat)) prob
           then nth j (nth i seqs []) 0%Z
           else UNK ext.
Proof.
  intros Hg Hs Hr Hu Hp. unfold NMTModel.replace_by_unk. rewrite Hg.
  assert (S0 : size0 seqs = S n) by (destruct Hs; auto).
  rewrite S0, (is_mat_size1 Hs).
  rewrite full_ok by lia. cbn [bind].
  rewrite full_ok by lia. cbn [bind].
  replace (Z.to_nat (Z.of_nat (S n) - 1)) with n by lia.
  change (Z.to_nat 1) with 1%nat.
  destruct (gpu_probs_spec n B Hp) as [Mp [Vp Ep]].
  set (probs := cat0 _ _) in *.
  destruct (bernoulli_spec g Mp Vp) as [samples [Eb [Ms Es]]].
  rewrite Eb. cbn [bind].
  set (added := map (map (fun s => (1 - s) * inject_Z (UNK ext))) samples).
  assert (Ml : is_mat (S n) B (long samples)) by (apply is_mat_map; assumption).
  assert (Ma : is_mat (S n) B (long added))
    by (apply is_mat_map; apply is_mat_map; assumption).
  unfold mul_long, add_long.
  rewrite (pointwise2_same_shape _ Hs Ml). cbn [bind].
  pose proof (is_mat_map2 (fun a b => wrap64 (a * b)) Hs Ml) as Mk.
  rewrite (pointwise2_same_shape _ Mk Ma). cbn [bind].
  eexists. split; [reflexivity|]. split.
  - apply is_mat_map2; assumption.
  - intros i j Hi Hj.
    rewrite (nth2_map2 _ (i:=i) (j:=j) 0%Z 0%Z 0%Z Mk Ma Hi Hj).
    rewrite (nth2_map2 _ (i:=i) (j:=j) 0%Z 0%Z 0%Z Hs Ml Hi Hj).
    unfold long at 1 2. subst added.
    rewrite (nth2_map Qtrunc (i:=i) (j:=j) 0 0%Z Ms Hi Hj).
    rewrite (nth2_map Qtrunc (m:=map _ samples) (i:=i) (j:=j) 0 0%Z
               (is_mat_map _ Ms) Hi Hj).
    rewrite (nth2_map _ (i:=i) (j:=j) 0 0 Ms Hi Hj).
    rewrite (Es i j Hi Hj), (Ep i j Hi Hj).
    pose proof (Forall_nth2 (i:=i) (j:=j) 0%Z Hs Hr Hi Hj) as Ha.
    destruct (i =? 0)%nat.
    + rewrite bernoulli1_one. apply keep_token, Ha.
    + unfold bernoulli1.
      destruct (Qlt_le_dec (uniform01 (stream g (cursor g + i * B + j)%nat)) prob).
      * apply keep_token, Ha.
      * apply drop_token, Hu.
Qed.

Lemma length_removelast_pred {X : Type} (l : list X) :
  length (removelast l) = (length l - 1)%nat.
Proof.
  rewrite removelast_firstn_len, length_firstn. lia.
Qed.

Lemma zip_exact_length {X Y Z : Type} (f : X -> Y -> result Z)
      (l1 : list X) (l2 : list Y) (r : list Z) :
  zip_exact f l1 l2 = Ok r -> length r = length l1 /\ length r = length l2.
Proof.
  revert l2 r. induction l1 as [|x l1 IH]; intros [|y l2] r H;
    simpl in H; try discriminate.
  - injection H as <-. auto.
  - apply bind_ok in H. destruct H as [z [_ H]].
    apply bind_ok in H. destruct H as [zs [Hzs H]].
    injection H as <-. destruct (IH _ _ Hzs). simpl. lia.
Qed.

Lemma bcast_length {X Y Z : Type} (f : X -> Y -> result Z)
      (l1 : list X) (l2 : list Y) (r : list Z) :
  bcast f l1 l2 = Ok r ->
  (length l1 = length l2 /\ length r = length l1) \/
  (length l1 = 1%nat /\ length r = length l2) \/
  (length l2 = 1%nat /\ length r = length l1).
Proof.
  unfold bcast. destruct (Nat.eqb_spec (length l1) (length l2)) as [E|E].
  - intros H. apply zip_exact_length in H. lia.
  - destruct l1 as [|x1 [|x2 l1]].
    + destruct l2 as [|y1 [|y2 l2]]; try discriminate.
      intros H. apply zip_exact_length in H. simpl in *. lia.
    + intros H. apply zip_exact_length in H.
      rewrite repeat_length in H. simpl in *. lia.
    + destruct l2 as [|y1 [|y2 l2]]; try discriminate.
      intros H. apply zip_exact_length in H. simpl in *. lia.
Qed.

(** When [replace_by_unk] returns, it returns as many rows as it got. *)
Lemma replace_by_unk_length (ext : External) (self : NMTModel.t) (g g' : rng)
      (seqs r : mat Z) (prob : Q) :
  NMTModel.replace_by_unk ext self g seqs prob = Ok (r, g') ->
  length r = length seqs.
Proof.
  unfold NMTModel.replace_by_unk, size0. intros H.
  apply bind_ok in H. destruct H as [probs [Hprobs H]].
  apply bind_ok in H. destruct H as [ones [Hones H]].
  apply bind_ok in H. destruct H as [[samples g1] [Hb H]].
  apply bind_ok in H. destruct H as [kept [Hk H]].
  apply bind_ok in H. destruct H as [r0 [Hr H]].
  injection H as -> _.
  apply bernoulli_length in Hb. unfold cat0 in Hb. rewrite length_app in Hb.
  rewrite full_ok in Hones by lia. injection Hones as <-.
  cbn [length] in Hb.
  apply bcast_length in Hk. apply bcast_length in Hr.
  unfold long in Hk, Hr. rewrite !length_map in Hk, Hr.
  assert (Lp : (1 + length probs <= length seqs)%nat).
  { unfold full in Hprobs.
    destruct (NMTModel.truthy (NMTModel.gpus self));
      match type of Hprobs with
      | (if ?c then _ else _) = _ => destruct c eqn:E
      end; try discriminate; injection Hprobs as <-;
      rewrite repeat_length; apply Z.ltb_ge in E; lia. }
  unfold mat in *. rewrite ?length_map in Hr. lia.
Qed.

(** One logit per target timestep. *)
Lemma Decoder_forward_length (ext : External) (self : Decoder.t) (g g' : rng)
      (input : mat Z) (hidden hidden' : state) (init_output : mat Q) (step : Z)
      (outputs : tensor3 Q) :
  Decoder.forward ext self g input hidden init_output step
  = Ok ((outputs, hidden'), g') ->
  length outputs = length input.
Proof.
  intros H. rewrite forward_traced_erase in H.
  destruct (Decoder.forward_traced ext self g input hidden init_output step)
    as [[[[outs fed] h] g1]|e] eqn:E; [|discriminate].
  injection H as -> -> ->.
  unfold Decoder.forward_traced in E.
  apply bind_ok in E. destruct E as [[[[outs0 fed0] h0] g0] [Hloop E]].
  apply bind_ok in E. destruct E as [outs1 [Hstack E]].
  injection E as -> -> -> ->. apply stack_ok in Hstack. subst outs0.
  pose proof (@loop_traced_inv ext self (Decoder.embed ext input) []
                [] hidden [] [] g outputs fed hidden' g'
                eq_refl eq_refl) as Inv.
  cbn [app length] in Inv.
  destruct Inv as [L1 _].
  - intros k x Hk. destruct k; discriminate.
  - intros _ Hlt. inversion Hlt.
  - exact Hloop.
  - unfold Decoder.embed in L1. rewrite length_map in L1. exact L1.
Qed.

(** When [forward] returns, it returns one logit for every target
    timestep but the last. *)
Lemma forward_logits_length (ext : External) (self : NMTModel.t) (g g' : rng)
      (src : tokens_input) (tgt : mat Z) (step : Z)
      (out : tensor3 Q) (mu logvar : mat Q) :
  NMTModel.forward ext self g (src, tgt) step = Ok ((out, mu, logvar), g') ->
  length out = (length tgt - 1)%nat.
Proof.
  unfold NMTModel.forward. cbn [fst snd]. intros H.
  apply bind_ok in H. destruct H as [[tgt' g1] [Ht H]].
  apply bind_ok in H. destruct H as [[[mu0 logvar0] g2] [_ H]].
  apply bind_ok in H. destruct H as [[z g3] [_ H]].
  apply bind_ok in H. destruct H as [[out0 g4] [Hd H]].
  injection H as -> _ _ _.
  assert (Lt : length tgt' = (length tgt - 1)%nat).
  { destruct (NMTModel.training self &&
              (if Qlt_le_dec (NMTModel.feed_gt_prob self) 1 then true else false)).
    - apply replace_by_unk_length in Ht. rewrite Ht. apply length_removelast_pred.
    - injection Ht as <- _. apply length_removelast_pred. }
  unfold NMTModel.decode in Hd.
  apply bind_ok in Hd. destruct Hd as [ds [_ Hd]].
  apply bind_ok in Hd. destruct Hd as [io [_ Hd]].
  apply bind_ok in Hd. destruct Hd as [[[x dh] g5] [Hf Hd]].
  injection Hd as -> _.
  apply Decoder_forward_length in Hf. unfold mat, tensor3 in *. lia.
Qed.

(** C3. What [replace_by_unk] does on each of its two branches.  Without
    a GPU it raises for every target of three rows or more, because it
    builds one row of samples too few.  With a GPU, for every [S n] x [B]
    target and every probability [prob], it keeps the first row, and it
    keeps a later token when the variate drawn for that position is
    below [prob] and puts the unknown token there otherwise; so
    [prob = 0] replaces every later token and [prob = 1] replaces none. *)
Theorem replace_by_unk_branches (ext : External) (self : NMTModel.t) (g : rng)
        (seqs : mat Z) (prob : Q) :
  (NMTModel.gpus self = [] -> (3 <= length seqs)%nat ->
   NMTModel.replace_by_unk ext self g seqs prob = Raise RuntimeError) /\
  (NMTModel.truthy (NMTModel.gpus self) = true ->
   forall n B : nat,
     is_mat (S n) B seqs -> Forall (Forall in_int64) seqs ->
     in_int64 (UNK ext) -> 0 <= prob <= 1 ->
     exists r,
       NMTModel.replace_by_unk ext self g seqs prob = Ok (r, advance g (S n * B)) /\
       is_mat (S n) B r /\
       (forall j, (j < B)%nat -> token r 0 j = token seqs 0 j) /\
       (forall i j, (0 < i < S n)%nat -> (j < B)%nat ->
          token r i j =
          if Qlt_le_dec (uniform01 (stream g (cursor g + i * B + j)%nat)) prob
          then token seqs i j else UNK ext) /\
       (prob == 0 -> forall i j, (0 < i < S n)%nat -> (j < B)%nat ->
          token r i j = UNK ext) /\
       (prob == 1 -> forall i j, (i < S n)%nat -> (j < B)%nat ->
          token r i j = token seqs i j)).
Proof.
  split.
  - apply replace_by_unk_cpu_mismatch.
  - intros Hg n B Hs Hr Hu Hp.
    destruct (replace_by_unk_gpu_spec ext self g Hg Hs Hr Hu Hp) as [r [E [Mr Er]]].
    exists r. split; [exact E|]. split; [exact Mr|]. unfold token.
    assert (Late : forall i j, (0 < i < S n)%nat -> (j < B)%nat ->
              nth j (nth i r []) 0%Z =
              if Qlt_le_dec (uniform01 (stream g (cursor g + i * B + j)%nat)) prob
              then nth j (nth i seqs []) 0%Z else UNK ext).
    { intros i j Hi Hj. rewrite (Er i j) by lia.
      destruct i; [lia | reflexivity]. }
    repeat split.
    + intros j Hj. rewrite (Er 0%nat j) by lia. reflexivity.
    + exact Late.
    + intros H0 i j Hi Hj. rewrite (Late i j Hi Hj).
      destruct (Qlt_le_dec _ prob) as [Hlt|_]; [|reflexivity].
      pose proof (uniform01_range (stream g (cursor g + i * B + j)%nat)). lra.
    + intros H1 i j Hi Hj. destruct i as [|i].
      * rewrite (Er 0%nat j) by lia. reflexivity.
      * rewrite (Late (S i) j) by lia.
        destruct (Qlt_le_dec _ prob) as [_|Hle]; [reflexivity|].
        pose proof (uniform01_range (stream g (cursor g + S i * B + j)%nat)). lra.
Qed.

Lemma replace_by_unk_branches_witness :
  NMTModel.replace_by_unk Instance.ext (Instance.model [] true true false false 0 0)
                          Instance.g0 [[2]; [7]; [3]]%Z 0
  = Raise RuntimeError /\
  exists r,
    NMTModel.replace_by_unk Instance.ext
                            (Instance.model [0%nat] true true false false 0 0)
                            Instance.g0 [[2]; [7]; [3]]%Z 0
    = Ok (r, advance Instance.g0 (3 * 1)) /\
    is_mat 3 1 r /\
    (forall j, (j < 1)%nat -> token r 0 j = token [[2]; [7]; [3]]%Z 0 j) /\
    (forall i j, (0 < i < 3)%nat -> (j < 1)%nat ->
       token r i j =
       if Qlt_le_dec (uniform01 (stream Instance.g0
                                        (cursor Instance.g0 + i * 1 + j)%nat)) 0
       then token [[2]; [7]; [3]]%Z i j else UNK Instance.ext) /\
    (0 == 0 -> forall i j, (0 < i < 3)%nat -> (j < 1)%nat ->
       token r i j = UNK Instance.ext) /\
    (0 == 1 -> forall i j, (i < 3)%nat -> (j < 1)%nat ->
       token r i j = token [[2]; [7]; [3]]%Z i j).
Proof.
  split.
  - apply (proj1 (replace_by_unk_branches Instance.ext
                    (Instance.model [] true true false false 0 0)
                    Instance.g0 [[2]; [7]; [3]]%Z 0)).
    + reflexivity.
    + simpl. lia.
  - apply (proj2 (replace_by_unk_branches Instance.ext
                    (Instance.model [0%nat] true true false false 0 0)
                    Instance.g0 [[2]; [7]; [3]]%Z 0)).
    + reflexivity.
    + split; [reflexivity | repeat constructor].
    + repeat constructor; unfold in_int64; lia.
    + unfold in_int64. simpl. lia.
    + lra.
Defined.

(** ** Flattening the encoder state *)

Lemma repeat_map_seq {X : Type} (v : X) (n s : nat) :
  repeat v n = map (fun _ => v) (seq s n).
Proof.
  revert s. induction n as [|n IH]; intros s; simpl; [reflexivity|].
  f_equal. apply IH.
Qed.

Lemma zip_cons_spec {X : Type} (d : X) (f : nat -> list X) (row : list X) :
  forall n s, length row = n ->
    zip_cons row (map f (seq s n)) =
    map (fun b => nth (b - s) row d :: f b) (seq s n).
Proof.
  induction row as [|x row IH]; intros n s Hl; simpl in Hl; subst n.
  - reflexivity.
  - cbn [length seq map zip_cons]. rewrite Nat.sub_diag. cbn [nth]. f_equal.
    rewrite (IH (length row) (S s) eq_refl).
    apply map_ext_in. intros b Hb. apply in_seq in Hb.
    replace (b - s)%nat with (S (b - S s)) by lia. reflexivity.
Qed.

(** Entry [b] of the transposed tensor collects entry [b] of every row. *)
Lemma transpose_n_spec {X : Type} (d : X) (n : nat) (t : list (list X)) :
  Forall (fun row => length row = n) t ->
  transpose_n n t = map (fun b => map (fun row => nth b row d) t) (seq 0 n).
Proof.
  induction 1 as [|row t Hrow _ IH]; cbn [transpose_n map].
  - apply repeat_map_seq.
  - rewrite IH. rewrite (zip_cons_spec d _ row 0 Hrow).
    apply map_ext. intros b. rewrite Nat.sub_0_r. reflexivity.
Qed.

Lemma is_tensor3_cons {X : Type} (a b c : nat) (m : mat X) (t : tensor3 X) :
  is_tensor3 (S a) b c (m :: t) <-> is_mat b c m /\ is_tensor3 a b c t.
Proof.
  unfold is_tensor3. simpl. split.
  - intros [Hl Hf]. inversion Hf; subst.
    split; [assumption | split; [lia | assumption]].
  - intros [Hm [Hl Hf]]. split; [lia | constructor; auto].
Qed.

Lemma Forall2_slices {X Y : Type} (a b c1 c2 : nat) (x : tensor3 X) (y : tensor3 Y) :
  is_tensor3 a b c1 x -> is_tensor3 a b c2 y ->
  Forall2 (fun m1 m2 => is_mat b c1 m1 /\ is_mat b c2 m2) x y.
Proof.
  intros [Hx Fx] [Hy Fy]. apply Forall2_same_length; [len|].
  intros m1 m2 Hin. rewrite Forall_forall in Fx, Fy. split.
  - apply Fx. eapply in_combine_l; eauto.
  - apply Fy. eapply in_combine_r; eauto.
Qed.

Lemma is_mat_length {X : Type} (r c : nat) (m : mat X) :
  is_mat r c m -> length m = r.
Proof. intros [H _]. exact H. Qed.

Lemma Forall2_row_lengths {X Y : Type} (b c1 c2 : nat) (m1 : mat X) (m2 : mat Y) :
  is_mat b c1 m1 -> is_mat b c2 m2 ->
  Forall2 (fun r1 r2 => length r1 = c1 /\ length r2 = c2) m1 m2.
Proof.
  intros [H1 F1] [H2 F2]. apply Forall2_same_length; [len|].
  intros r1 r2 Hin. rewrite Forall_forall in F1, F2. split.
  - apply F1. eapply in_combine_l; eauto.
  - apply F2. eapply in_combine_r; eauto.
Qed.

Lemma is_mat_map2_app {X : Type} (b c1 c2 : nat) (m1 m2 : mat X) :
  is_mat b c1 m1 -> is_mat b c2 m2 ->
  is_mat b (c1 + c2) (map2 (@app X) m1 m2).
Proof.
  intros H1 H2. pose proof (Forall2_row_lengths H1 H2) as F.
  split.
  - rewrite length_map2; destruct H1, H2; len.
  - clear H1 H2. induction F as [|r1 r2 m1 m2 [L1 L2] _ IH]; constructor.
    + cbn [fst snd]. rewrite length_app. lia.
    + exact IH.
Qed.

(** [torch.cat((x, y), 2)] of two tensors that agree on their first two
    sizes. *)
Lemma cat2_spec {X : Type} (a b c1 c2 : nat) (x y : tensor3 X) :
  is_tensor3 a b c1 x -> is_tensor3 a b c2 y ->
  cat2 x y = Ok (map2 (map2 (@app X)) x y) /\
  is_tensor3 a b (c1 + c2) (map2 (map2 (@app X)) x y).
Proof.
  intros Hx Hy. pose proof (Forall2_slices Hx Hy) as F. split.
  - unfold cat2. apply zip_exact_total.
    eapply Forall2_impl; [|exact F].
    intros m1 m2 [H1 H2]. cbn beta. apply zip_exact_total.
    apply Forall2_same_length; [destruct H1, H2; len | auto].
  - split.
    + rewrite length_map2; destruct Hx, Hy; len.
    + clear Hx Hy. induction F as [|m1 m2 x y [H1 H2] _ IH]; constructor.
      * apply is_mat_map2_app; assumption.
      * exact IH.
Qed.

Lemma length_concat_const {X : Type} (c : nat) (ls : list (list X)) :
  Forall (fun l => length l = c) ls -> length (concat ls) = (length ls * c)%nat.
Proof.
  induction 1 as [|l ls Hl _ IH]; simpl; [reflexivity|].
  rewrite length_app, IH, Hl. reflexivity.
Qed.

Lemma is_tensor3_slice_lengths {X : Type} (a b c : nat) (t : tensor3 X) :
  is_tensor3 a b c t -> Forall (fun m => length m = b) t.
Proof.
  intros [_ F]. eapply Forall_impl; [|exact F]. intros m [H _]. exact H.
Qed.

Lemma is_tensor3_nth {X : Type} (a b c : nat) (t : tensor3 X) (i : nat) :
  is_tensor3 a b c t -> (i < b)%nat ->
  Forall (fun l => length l = c) (map (fun m => nth i m []) t).
Proof.
  intros [_ F] Hi. rewrite Forall_forall in *. intros l Hin.
  apply in_map_iff in Hin. destruct Hin as [m [<- Hm]].
  apply (is_mat_nth (i:=i) (F m Hm) Hi).
Qed.

(** [encode_flatten] on a state of [S a] slices and batch size [S b]:
    row [i] of the result is what the concatenated tensor holds for
    batch element [i], slice after slice. *)
Lemma encode_flatten_spec {X : Type} (a b c1 c2 : nat) (x y : tensor3 X) :
  is_tensor3 (S a) (S b) c1 x -> is_tensor3 (S a) (S b) c2 y ->
  (0 < c1 + c2)%nat ->
  let flat := map (fun i => column i (map2 (map2 (@app X)) x y)) (seq 0 (S b)) in
  NMTModel.encode_flatten (x, y) = Ok flat /\
  is_mat (S b) (S a * (c1 + c2)) flat.
Proof.
  intros Hx Hy Hpos flat. destruct (cat2_spec Hx Hy) as [Ec Ht].
  set (t := map2 (map2 (@app X)) x y) in *.
  assert (Mf : is_mat (S b) (S a * (c1 + c2)) flat).
  { subst flat. split.
    - rewrite length_map, length_seq. reflexivity.
    - rewrite Forall_forall. intros row Hin.
      apply in_map_iff in Hin. destruct Hin as [i [<- Hi]]. apply in_seq in Hi.
      unfold column.
      rewrite (length_concat_const (is_tensor3_nth (i:=i) Ht ltac:(lia))).
      rewrite length_map. destruct Ht as [Lt _]. rewrite Lt. reflexivity. }
  split; [|exact Mf].
  unfold NMTModel.encode_flatten. cbn [fst snd]. rewrite Ec. cbn [bind].
  unfold transpose01.
  assert (S1 : size1 t = S b).
  { destruct t as [|m t']; [destruct Ht; discriminate|].
    apply is_tensor3_cons in Ht. unfold size1. cbn [hd]. apply Ht. }
  rewrite S1.
  rewrite (transpose_n_spec [] (is_tensor3_slice_lengths Ht)).
  unfold view_rows. rewrite map_map.
  change (map (fun i => concat (map (fun row => nth i row []) t)) (seq 0 (S b)))
    with flat.
  destruct flat as [|row rest]; [destruct Mf; discriminate|].
  apply is_mat_cons in Mf. destruct Mf as [Lr _]. rewrite Lr.
  destruct (Nat.eqb_spec (S a * (c1 + c2)) 0) as [E|_]; [nia | reflexivity].
Qed.

(** Row by row, the flattened state is a rearrangement of the entries of
    [x] followed by the entries of [y]. *)
Lemma column_cat2_perm {X : Type} (i : nat) (x y : tensor3 X) :
  length x = length y ->
  Forall (fun m => (i < length m)%nat) x ->
  Forall (fun m => (i < length m)%nat) y ->
  Forall2 (fun m1 m2 => length m1 = length m2) x y ->
  Permutation (column i (map2 (map2 (@app X)) x y)) (column i x ++ column i y).
Proof.
  intros _ Fx Fy F. unfold column.
  induction F as [|m1 m2 x y Hm _ IH]; [constructor|].
  inversion Fx as [|? ? H1 Fx']; subst. inversion Fy as [|? ? H2 Fy']; subst.
  cbn [map2 combine map concat fst snd].
  change (map (fun p => map2 (@app X) (fst p) (snd p)) (combine x y))
    with (map2 (map2 (@app X)) x y).
  rewrite (nth_map2 (@app X) m1 m2 [] [] []) by lia.
  specialize (IH Fx' Fy').
  rewrite <- !app_assoc. apply Permutation_app_head.
  rewrite IH.
  rewrite !app_assoc. apply Permutation_app_tail. apply Permutation_app_comm.
Qed.

(** The three steps of [_fix_enc_hidden] on [2 * L] slices: the result
    has [L] slices, twice as wide, and holds for every batch element the
    same entries in the same order. *)
Lemma merge_pairs_spec {X : Type} (B c : nat) :
  forall (L : nat) (h : tensor3 X),
    is_tensor3 (2 * L) B c h ->
    is_tensor3 L B (2 * c)
               (map (map (@concat X)) (map (transpose_n B) (group L 2 h))) /\
    forall i, (i < B)%nat ->
      column i (map (map (@concat X)) (map (transpose_n B) (group L 2 h))) =
      column i h.
Proof.
  induction L as [|L IH]; intros h Hh.
  - destruct Hh as [Hl _]. apply length_zero_iff_nil in Hl. subst h.
    split; [split; [reflexivity | constructor] | reflexivity].
  - replace (2 * S L)%nat with (S (S (2 * L))) in Hh by lia.
    destruct h as [|f [|bk rest]]; try (destruct Hh; discriminate).
    apply is_tensor3_cons in Hh. destruct Hh as [Hf Hh].
    apply is_tensor3_cons in Hh. destruct Hh as [Hb Hr].
    destruct (IH rest Hr) as [IH1 IH2].
    cbn [group firstn skipn map].
    assert (E : transpose_n B [f; bk] =
                map (fun i => [nth i f []; nth i bk []]) (seq 0 B)).
    { rewrite (transpose_n_spec (X:=list X) [] (n:=B) (t:=[f; bk])).
      - reflexivity.
      - constructor; [apply Hf | constructor; [apply Hb | constructor]]. }
    rewrite E, map_map. cbn [concat]. split.
    + apply is_tensor3_cons. split; [|exact IH1]. split.
      * rewrite length_map, length_seq. reflexivity.
      * rewrite Forall_forall. intros row Hin.
        apply in_map_iff in Hin. destruct Hin as [i [<- Hi]]. apply in_seq in Hi.
        rewrite !length_app, (is_mat_nth (i:=i) Hf), (is_mat_nth (i:=i) Hb) by lia.
        simpl. lia.
    + intros i Hi. unfold column in *. cbn [map concat].
      rewrite (IH2 i Hi). rewrite nth_map_seq by lia.
      rewrite app_nil_r, <- app_assoc. reflexivity.
Qed.

Lemma fix_enc_hidden_spec {X : Type} (self : NMTModel.t) (l b c : nat)
      (h : tensor3 X) :
  Encoder.num_directions (NMTModel.encoder self) = 2%Z ->
  is_tensor3 (2 * S l) (S b) c h ->
  exists m,
    NMTModel._fix_enc_hidden self h = Ok m /\
    is_tensor3 (S l) (S b) (2 * c) m /\
    forall i, (i < S b)%nat -> column i m = column i h.
Proof.
  intros Hd Hh. unfold NMTModel._fix_enc_hidden. rewrite Hd. cbn [Z.eqb Pos.eqb].
  assert (S0 : size0 h = (2 * S l)%nat) by (destruct Hh; assumption).
  assert (S1 : size1 h = S b).
  { destruct h as [|m h']; [destruct Hh; discriminate|].
    replace (2 * S l)%nat with (S (S (2 * l))) in Hh by lia.
    apply is_tensor3_cons in Hh. unfold size1. cbn [hd]. apply Hh. }
  rewrite S0, S1.
  replace ((2 * S l) mod 2)%nat with 0%nat
    by (rewrite Nat.mul_comm; symmetry; apply Nat.Div0.mod_mul).
  replace ((2 * S l) / 2)%nat with (S l)
    by (rewrite Nat.mul_comm; symmetry; apply Nat.div_mul; lia).
  cbn [Nat.eqb orb].
  destruct (merge_pairs_spec (S l) Hh) as [M1 M2].
  eexists. split; [reflexivity|]. split; assumption.
Qed.

Lemma Forall2_map_seq {X Y : Type} (P : X -> Y -> Prop) (f : nat -> X)
      (k : nat -> Y) (n : nat) :
  (forall i, (i < n)%nat -> P (f i) (k i)) ->
  Forall2 P (map f (seq 0 n)) (map k (seq 0 n)).
Proof.
  intros H.
  assert (G : forall l : list nat, (forall i, In i l -> (i < n)%nat) ->
                Forall2 P (map f l) (map k l)).
  { induction l as [|i l IH]; intros Hl; simpl; constructor.
    - apply H, Hl. left. reflexivity.
    - apply IH. intros j Hj. apply Hl. right. exact Hj. }
  apply G. intros i Hi. apply in_seq in Hi. lia.
Qed.

Lemma slices_cover {X : Type} (a b c : nat) (t : tensor3 X) (i : nat) :
  is_tensor3 a b c t -> (i < b)%nat -> Forall (fun m => (i < length m)%nat) t.
Proof.
  intros Ht Hi. apply is_tensor3_slice_lengths in Ht.
  eapply Forall_impl; [|exact Ht]. intros m Hm. cbn beta in Hm. lia.
Qed.

Lemma slices_same_length {X : Type} (a b c1 c2 : nat) (x y : tensor3 X) :
  is_tensor3 a b c1 x -> is_tensor3 a b c2 y ->
  Forall2 (fun m1 m2 => length m1 = length m2) x y.
Proof.
  intros Hx Hy. eapply Forall2_impl; [|exact (Forall2_slices Hx Hy)].
  intros m1 m2 [[H1 _] [H2 _]]. cbn beta. len.
Qed.

(** C1 (amended). In a bidirectional model [encode] flattens the states
    exactly as the encoder returns them, [2 * layers] slices of width
    [H > 0]: [_fix_enc_hidden] is not applied.  For every such state and
    batch size the flattening succeeds, row [i] of the result is the
    content of batch element [i] slice after slice, and it holds the same
    entries as the row that merging the directions first would give, in
    another order of columns. *)
Theorem encode_flattens_raw_states (self : NMTModel.t) (l b H : nat)
        (h c : tensor3 Q) :
  Encoder.num_directions (NMTModel.encoder self) = 2%Z ->
  (0 < H)%nat ->
  is_tensor3 (2 * S l) (S b) H h ->
  is_tensor3 (2 * S l) (S b) H c ->
  exists flat merged,
    NMTModel.encode_flatten (h, c) = Ok flat /\
    flat = map (fun i => column i (map2 (map2 (@app Q)) h c)) (seq 0 (S b)) /\
    is_mat (S b) (2 * S l * (H + H)) flat /\
    NMTModel.flatten_merged self (h, c) = Ok merged /\
    is_mat (S b) (S l * (2 * H + 2 * H)) merged /\
    Forall2 (@Permutation Q) flat merged /\
    (forall ext g x outputs g1,
        Encoder.forward ext (NMTModel.encoder self) g x None
        = (((h, c), outputs), g1) ->
        NMTModel.encode ext self g x =
        bind (NMTModel.latent self flat) (fun ml => Ok (ml, g1))).
Proof.
  intros Hd HH Hh Hc.
  replace (2 * S l)%nat with (S (S (2 * l))) in Hh, Hc by lia.
  destruct (encode_flatten_spec Hh Hc ltac:(lia)) as [Ef Mf].
  replace (S (S (2 * l))) with (2 * S l)%nat in * by lia.
  destruct (fix_enc_hidden_spec self Hd Hh) as [mh [Eh [Mh Ch]]].
  destruct (fix_enc_hidden_spec self Hd Hc) as [mc [Ec [Mc Cc]]].
  destruct (encode_flatten_spec Mh Mc ltac:(lia)) as [Em Mm].
  eexists. eexists.
  split; [exact Ef|]. split; [reflexivity|]. split; [exact Mf|].
  split.
  { unfold NMTModel.flatten_merged. cbn [fst snd].
    rewrite Eh. cbn [bind]. rewrite Ec. cbn [bind]. exact Em. }
  split; [exact Mm|]. split.
  - apply Forall2_map_seq. intros i Hi.
    rewrite (column_cat2_perm (i:=i) (x:=h) (y:=c)).
    + rewrite (column_cat2_perm (i:=i) (x:=mh) (y:=mc)).
      * rewrite (Ch i Hi), (Cc i Hi). reflexivity.
      * destruct Mh, Mc. len.
      * apply (slices_cover Mh Hi).
      * apply (slices_cover Mc Hi).
      * apply (slices_same_length Mh Mc).
    + destruct Hh, Hc. len.
    + apply (slices_cover Hh Hi).
    + apply (slices_cover Hc Hi).
    + apply (slices_same_length Hh Hc).
  - intros ext g x outputs g1 E. unfold NMTModel.encode. rewrite E.
    rewrite Ef. reflexivity.
Qed.

Lemma encode_flattens_raw_states_witness :
  exists flat merged,
    NMTModel.encode_flatten (Bidirectional.h, Bidirectional.c) = Ok flat /\
    flat = map (fun i => column i (map2 (map2 (@app Q))
                                        Bidirectional.h Bidirectional.c))
               (seq 0 1) /\
    is_mat 1 (2 * 1 * (1 + 1)) flat /\
    NMTModel.flatten_merged Bidirectional.model (Bidirectional.h, Bidirectional.c)
    = Ok merged /\
    is_mat 1 (1 * (2 * 1 + 2 * 1)) merged /\
    Forall2 (@Permutation Q) flat merged /\
    (forall ext g x outputs g1,
        Encoder.forward ext (NMTModel.encoder Bidirectional.model) g x None
        = (((Bidirectional.h, Bidirectional.c), outputs), g1) ->
        NMTModel.encode ext Bidirectional.model g x =
        bind (NMTModel.latent Bidirectional.model flat) (fun ml => Ok (ml, g1))).
Proof.
  apply (@encode_flattens_raw_states Bidirectional.model 0 0 1
           Bidirectional.h Bidirectional.c).
  - reflexivity.
  - lia.
  - split; [reflexivity | repeat constructor].
  - split; [reflexivity | repeat constructor].
Defined.

(** C1, as stated: in the bidirectional model the row that [encode]
    flattens is not the row of the merged states, and the mean that
    [encode] returns is read from the unmerged row. *)
Lemma encode_flatten_is_not_merged :
  NMTModel.encode_flatten (Bidirectional.h, Bidirectional.c) = Ok [[1; 3; 2; 4]] /\
  NMTModel.flatten_merged Bidirectional.model (Bidirectional.h, Bidirectional.c)
  = Ok [[1; 2; 3; 4]] /\
  NMTModel.encode_flatten (Bidirectional.h, Bidirectional.c) <>
  NMTModel.flatten_merged Bidirectional.model (Bidirectional.h, Bidirectional.c) /\
  NMTModel.encode Bidirectional.ext Bidirectional.model Instance.g0 Instance.src
  = Ok (([[3]], [[-6]]), Instance.g0) /\
  Linear_forward (NMTModel.encoder_to_mu Bidirectional.model) [[1; 2; 3; 4]]
  = Ok [[2]].
Proof.
  repeat split; try reflexivity.
  intros E. discriminate E.
Qed.

(** ** Shapes through the bottleneck *)

Lemma dot_total (x w : list Q) :
  length x = length w ->
  dot x w = Ok (fold_right Qplus 0 (map2 Qmult x w)).
Proof.
  intros Hl. unfold dot.
  rewrite (zip_exact_total (fun a b => Ok (a * b)) Qmult (l1:=x) (l2:=w)).
  - reflexivity.
  - apply Forall2_same_length; auto.
Qed.

Lemma Linear_row_shape (i o : nat) (l : Linear) (x : list Q) :
  NMTModel.Linear_shape i o l -> length x = i ->
  exists y, Linear_row l x = Ok y /\ length y = o.
Proof.
  intros [[Hw Fw] Hb] Hx. unfold Linear_row.
  rewrite (zip_exact_total _
             (fun w b => fold_right Qplus 0 (map2 Qmult x w) + b)
             (l1:=weight l) (l2:=bias l)).
  - eexists. split; [reflexivity|]. rewrite length_map2; len.
  - apply Forall2_same_length; [len|].
    intros w b Hin. rewrite Forall_forall in Fw.
    rewrite dot_total; [reflexivity|].
    rewrite (Fw w); [assumption | eapply in_combine_l; eauto].
Qed.

Lemma Linear_forward_shape (i o B : nat) (l : Linear) (x : mat Q) :
  NMTModel.Linear_shape i o l -> is_mat B i x ->
  exists y, Linear_forward l x = Ok y /\ is_mat B o y.
Proof.
  intros Hl [Hx Fx]. unfold Linear_forward. subst B.
  induction x as [|row x IH]; cbn [length repeat zip_exact].
  - exists []. split; [reflexivity | apply is_mat_nil].
  - pose proof (Forall_inv Fx) as Hrow. pose proof (Forall_inv_tail Fx) as Fx'.
    cbn beta in Hrow.
    destruct (@Linear_row_shape i o l row Hl Hrow) as [y [Ey Ly]].
    destruct (IH Fx') as [ys [Eys Mys]].
    rewrite Ey. cbn [bind]. rewrite Eys. cbn [bind].
    exists (y :: ys). split; [reflexivity|].
    apply is_mat_cons. auto.
Qed.

Lemma group_shape {X : Type} (size : nat) :
  forall (count : nat) (l : list X),
    length l = (count * size)%nat ->
    length (group count size l) = count /\
    Forall (fun g => length g = size) (group count size l) /\
    concat (group count size l) = l.
Proof.
  induction count as [|count IH]; intros l Hl; cbn [group].
  - simpl in Hl. apply length_zero_iff_nil in Hl. subst l.
    repeat split; constructor.
  - destruct (IH (skipn size l)) as [H1 [H2 H3]].
    { rewrite length_skipn. lia. }
    repeat split.
    + simpl. rewrite H1. reflexivity.
    + constructor; [rewrite length_firstn; lia | exact H2].
    + cbn [concat]. rewrite H3. apply firstn_skipn.
Qed.

(** [view3 a b] of a matrix with [a * b * k] entries. *)
Lemma view3_shape {X : Type} (a b k r w : nat) (m : mat X) :
  is_mat r w m -> (r * w = S a * S b * k)%nat -> (0 < k)%nat ->
  exists t, view3 (S a) (S b) m = Ok t /\ is_tensor3 (S a) (S b) k t /\
            concat (concat t) = concat m.
Proof.
  intros [Hr Fw] Hn Hk. unfold view3.
  assert (Hpos : (S a * S b <> 0)%nat) by lia.
  remember (S a * S b)%nat as n eqn:En.
  assert (Ln : length (concat m) = (k * n)%nat).
  { rewrite (length_concat_const Fw). len. }
  rewrite Ln.
  destruct (Nat.eqb_spec (k * n) 0) as [E|_]; [nia|].
  destruct (Nat.eqb_spec n 0) as [E|_]; [contradiction|]. cbn [orb].
  rewrite Nat.Div0.mod_mul. cbn [Nat.eqb negb].
  rewrite Nat.div_mul by assumption.
  destruct (group_shape k n (concat m)) as [G1 [G2 G3]]; [lia|].
  destruct (group_shape (S b) (S a) (group n k (concat m)))
    as [T1 [T2 T3]]; [rewrite G1; lia|].
  eexists. split; [reflexivity|]. split; [split|].
  - exact T1.
  - rewrite Forall_forall in *. intros s Hs. split; [apply T2, Hs|].
    rewrite Forall_forall. intros row Hrow. apply G2.
    rewrite <- T3. apply in_concat. exists s. auto.
  - rewrite T3. exact G3.
Qed.

(** [chunk2] of a tensor whose last size is [2 * k]. *)
Lemma chunk2_shape {X : Type} (a b k : nat) (t : tensor3 X) :
  is_tensor3 (S a) (S b) (2 * S k) t ->
  exists hd cl, chunk2 t = Ok (hd, cl) /\
                is_tensor3 (S a) (S b) (S k) hd /\
                is_tensor3 (S a) (S b) (S k) cl.
Proof.
  intros Ht. unfold chunk2.
  assert (S2 : size2 t = (2 * S k)%nat).
  { destruct t as [|m t']; [destruct Ht; discriminate|].
    apply is_tensor3_cons in Ht. destruct Ht as [Hm _].
    destruct m as [|row m']; [destruct Hm; discriminate|].
    apply is_mat_cons in Hm. unfold size2. cbn [hd]. apply Hm. }
  rewrite S2. destruct (Nat.ltb_spec (2 * S k) 2) as [E|_]; [lia|].
  replace ((2 * S k + 1) / 2)%nat with (S k)
    by (apply Nat.div_unique with (r:=1%nat); lia).
  eexists. eexists. split; [reflexivity|].
  destruct Ht as [La Fa].
  split; (split; [rewrite length_map; exact La|]);
    rewrite Forall_forall in *; intros s Hs;
    apply in_map_iff in Hs; destruct Hs as [s0 [<- Hs0]];
    destruct (Fa s0 Hs0) as [Lb Fb];
    (split; [rewrite length_map; exact Lb|]);
    rewrite Forall_forall in *; intros row Hrow;
    apply in_map_iff in Hrow; destruct Hrow as [r0 [<- Hr0]];
    specialize (Fb r0 Hr0).
  - rewrite length_firstn. lia.
  - rewrite length_skipn. lia.
Qed.

Lemma latent_shape (self : NMTModel.t) (W N B : nat) (flat : mat Q) :
  NMTModel.Linear_shape W N (NMTModel.encoder_to_mu self) ->
  NMTModel.Linear_shape W N (NMTModel.encoder_to_nu self) ->
  NMTModel.Linear_shape N N (NMTModel.nu_to_logvar self) ->
  is_mat B W flat ->
  exists mu logvar,
    NMTModel.latent self flat = Ok (mu, logvar) /\
    is_mat B N mu /\ is_mat B N logvar.
Proof.
  intros Hmu Hnu Hlv Hf. unfold NMTModel.latent.
  destruct (Linear_forward_shape Hmu Hf) as [mu [Emu Mmu]].
  destruct (Linear_forward_shape Hnu Hf) as [nu [Enu Mnu]].
  assert (Mr : is_mat B N (ReLU nu)) by (apply is_mat_map; assumption).
  destruct (Linear_forward_shape Hlv Mr) as [lv [Elv Mlv]].
  rewrite Emu. cbn [bind]. rewrite Enu. cbn [bind]. rewrite Elv. cbn [bind].
  destruct (NMTModel.prelu self).
  - eexists. eexists. split; [reflexivity|].
    split; unfold PReLU; repeat apply is_mat_map; assumption.
  - eexists. eexists. split; [reflexivity|].
    split; [assumption | apply is_mat_map; assumption].
Qed.

Lemma decoder_state_shape (self : NMTModel.t) (l b r N : nat) (z : mat Q) :
  NMTModel.layers self = S l ->
  NMTModel.Linear_shape N (S l * S r * 2) (NMTModel.latent_to_decoder self) ->
  is_mat (S b) N z ->
  exists hd cl,
    NMTModel.decoder_state self z = Ok (hd, cl) /\
    is_tensor3 (S l) (S b) (S r) hd /\ is_tensor3 (S l) (S b) (S r) cl.
Proof.
  intros HL Hd Hz. unfold NMTModel.decoder_state.
  destruct (Linear_forward_shape Hd Hz) as [ds [Eds Mds]].
  rewrite Eds. cbn [bind].
  set (ds' := if NMTModel.prelu self then _ else ds).
  assert (Mds' : is_mat (S b) (S l * S r * 2) ds').
  { subst ds'. destruct (NMTModel.prelu self); [apply is_mat_map|]; assumption. }
  unfold NMTModel.decode_unflatten. rewrite HL.
  replace (size0 z) with (S b) by (destruct Hz; auto).
  destruct (@view3_shape Q l b (2 * S r) (S b) (S l * S r * 2) ds' Mds')
    as [t [Et [Mt _]]]; [lia | lia |].
  rewrite Et. cbn [bind].
  apply chunk2_shape. exact Mt.
Qed.

Lemma group_concat {X : Type} (w : nat) (rows : list (list X)) :
  Forall (fun row => length row = w) rows ->
  group (length rows) w (concat rows) = rows.
Proof.
  induction 1 as [|row rows Hrow _ IH]; [reflexivity|].
  cbn [length group concat].
  rewrite firstn_app, skipn_app, Hrow, Nat.sub_diag.
  rewrite <- Hrow at 1 3. rewrite firstn_all, skipn_all. cbn [firstn skipn app].
  rewrite app_nil_r, IH. reflexivity.
Qed.

Lemma map_nth_all {X : Type} (l : list X) (d : X) :
  map (fun i => nth i l d) (seq 0 (length l)) = l.
Proof.
  apply (nth_ext _ _ d d).
  - rewrite length_map, length_seq. reflexivity.
  - intros i Hi. rewrite length_map, length_seq in Hi.
    rewrite (nth_map_seq (fun j => nth j l d)) by exact Hi. reflexivity.
Qed.

Lemma split_rows {X : Type} (b k1 k2 : nat) (m1 m2 : mat X) :
  is_mat b k1 m1 -> is_mat b k2 m2 ->
  map (firstn k1) (map2 (@app X) m1 m2) = m1 /\
  map (skipn k1) (map2 (@app X) m1 m2) = m2.
Proof.
  intros H1 H2. pose proof (Forall2_row_lengths H1 H2) as F. clear H1 H2.
  induction F as [|r1 r2 m1 m2 [L1 L2] _ [IH1 IH2]]; [split; reflexivity|].
  unfold map2 in *. cbn [combine map fst snd].
  rewrite IH1, IH2. subst k1.
  rewrite firstn_app, skipn_app, Nat.sub_diag, firstn_all, skipn_all.
  cbn [firstn skipn app]. rewrite app_nil_r. split; reflexivity.
Qed.

(** With one layer and one direction, the reshaping of [decode] undoes
    the flattening of [encode]. *)
Lemma unflatten_flatten_one_layer {X : Type} (b k : nat) (h c : tensor3 X) :
  is_tensor3 1 (S b) (S k) h -> is_tensor3 1 (S b) (S k) c ->
  exists flat,
    NMTModel.encode_flatten (h, c) = Ok flat /\
    NMTModel.decode_unflatten 1 (S b) flat = Ok (h, c).
Proof.
  intros Hh Hc.
  destruct (encode_flatten_spec Hh Hc ltac:(lia)) as [Ef Mf].
  destruct h as [|mh [|? ?]]; try (destruct Hh as [Hl _]; discriminate Hl).
  destruct c as [|mc [|? ?]]; try (destruct Hc as [Hl _]; discriminate Hl).
  apply is_tensor3_cons in Hh. destruct Hh as [Mh _].
  apply is_tensor3_cons in Hc. destruct Hc as [Mc _].
  set (m := map2 (@app X) mh mc).
  assert (Mm : is_mat (S b) (S k + S k) m) by (apply is_mat_map2_app; assumption).
  assert (Eflat : map (fun i => column i (map2 (map2 (@app X)) [mh] [mc]))
                      (seq 0 (S b)) = m).
  { change (map2 (map2 (@app X)) [mh] [mc]) with [m].
    unfold column. cbn [map concat].
    transitivity (map (fun i => nth i m []) (seq 0 (S b))).
    - apply map_ext. intros i. apply app_nil_r.
    - replace (S b) with (length m) by (destruct Mm; auto).
      apply map_nth_all. }
  rewrite Eflat in Ef, Mf. exists m. split; [exact Ef|].
  unfold NMTModel.decode_unflatten, view3.
  destruct Mm as [Lm Fm].
  rewrite (length_concat_const Fm), Lm.
  replace (1 * S b)%nat with (S b) by lia.
  destruct (Nat.eqb_spec (S b * (S k + S k)) 0) as [E|_]; [lia|].
  cbn [Nat.eqb orb].
  rewrite (Nat.mul_comm (S b) (S k + S k)), Nat.Div0.mod_mul.
  cbn [Nat.eqb negb]. rewrite Nat.div_mul by lia.
  replace (group (S b) (S k + S k) (concat m)) with m
    by (rewrite <- Lm; symmetry; apply (group_concat Fm)).
  cbn [group]. rewrite <- Lm, firstn_all. cbn [bind].
  unfold chunk2.
  assert (S2 : size2 [m] = (S k + S k)%nat).
  { unfold size2. cbn [hd]. destruct m as [|row m']; [discriminate Lm|].
    cbn [hd]. apply (Forall_inv Fm). }
  rewrite S2. destruct (Nat.ltb_spec (S k + S k) 2) as [E|_]; [lia|].
  replace ((S k + S k + 1) / 2)%nat with (S k)
    by (apply Nat.div_unique with (r:=1%nat); lia).
  cbn [map].
  destruct (split_rows Mh Mc) as [E1 E2]. fold m in E1, E2.
  rewrite E1, E2. reflexivity.
Qed.

(** What [Encoder.__init__] fixes: the number of directions, and the
    hidden size of each as their share of [rnn_size]. *)
Lemma init_directions (opt : Opt.t) (enc : Encoder.t) :
  Encoder.init opt = Ok enc -> (0 < Opt.rnn_size opt)%Z ->
  (if Opt.brnn opt then Z.to_nat (Encoder.num_directions enc) = 2%nat
   else Z.to_nat (Encoder.num_directions enc) = 1%nat) /\
  (Z.to_nat (Encoder.num_directions enc) * Z.to_nat (Encoder.hidden_size enc)
   = Z.to_nat (Opt.rnn_size opt))%nat.
Proof.
  intros Hinit Hr. unfold Encoder.init in Hinit.
  destruct (Opt.brnn opt);
    match type of Hinit with
    | (if negb (?x =? 0)%Z then _ else _) = _ =>
        destruct (Z.eqb_spec x 0) as [E|E]; cbn [negb] in Hinit;
        [|discriminate]
    end; injection Hinit as <-; cbn [Encoder.num_directions Encoder.hidden_size].
  - split; [reflexivity|].
    pose proof (Z.div_mod (Opt.rnn_size opt) 2 ltac:(lia)).
    assert (0 <= Opt.rnn_size opt / 2)%Z by (apply Z.div_pos; lia). lia.
  - split; [reflexivity|]. rewrite Z.div_1_r. change (Z.to_nat 1) with 1%nat. lia.
Qed.

(** The flattening and the projections of [encode] on states of the
    shape the encoder is configured for. *)
Lemma flatten_latent_shape (opt : Opt.t) (enc : Encoder.t) (self : NMTModel.t)
      (l b : nat) (h c : tensor3 Q) :
  Encoder.init opt = Ok enc ->
  NMTModel.built_from opt enc self ->
  Opt.layers opt = S l ->
  (0 < Opt.rnn_size opt)%Z ->
  is_tensor3 (S l * Z.to_nat (Encoder.num_directions enc)) (S b)
             (Z.to_nat (Encoder.hidden_size enc)) h ->
  is_tensor3 (S l * Z.to_nat (Encoder.num_directions enc)) (S b)
             (Z.to_nat (Encoder.hidden_size enc)) c ->
  exists flat mu logvar,
    NMTModel.encode_flatten (h, c) = Ok flat /\
    is_mat (S b) (2 * S l * Z.to_nat (Opt.rnn_size opt)) flat /\
    NMTModel.latent self flat = Ok (mu, logvar) /\
    is_mat (S b) (Opt.latent_size opt) mu /\
    is_mat (S b) (Opt.latent_size opt) logvar.
Proof.
  intros Hinit Hb HL Hr Hh Hc.
  destruct (init_directions opt Hinit Hr) as [HD HDH].
  set (D := Z.to_nat (Encoder.num_directions enc)) in *.
  set (H := Z.to_nat (Encoder.hidden_size enc)) in *.
  set (R := Z.to_nat (Opt.rnn_size opt)) in *.
  assert (HW : Z.to_nat (NMTModel.concat_hidden_size opt) = (S l * R * 2)%nat).
  { unfold NMTModel.concat_hidden_size. rewrite HL. subst R. lia. }
  destruct Hb as [_ _ _ _ _ _ _ _ _ Bmu Bnu Blv _].
  rewrite HW in Bmu, Bnu.
  assert (HDpos : (0 < D)%nat) by (destruct (Opt.brnn opt); lia).
  assert (HHpos : (0 < H + H)%nat) by (subst R; nia).
  destruct (S l * D)%nat as [|a] eqn:Ea; [lia|].
  destruct (encode_flatten_spec Hh Hc HHpos) as [Ef Mf].
  replace (S a * (H + H))%nat with (S l * R * 2)%nat in Mf by nia.
  destruct (latent_shape self Bmu Bnu Blv Mf) as [mu [lv [El [Mmu Mlv]]]].
  eexists. exists mu, lv. split; [exact Ef|].
  split; [replace (2 * S l * R)%nat with (S l * R * 2)%nat by lia; exact Mf|].
  auto.
Qed.

(** C5 (amended). For every configuration accepted by the encoder, with
    at least one layer and a positive [rnn_size], and every batch size:
    the flattening of [encode] takes states of [layers * directions]
    slices of width [hidden_size] to a matrix of width
    [2 * layers * rnn_size], from which [encode] computes a mean and a
    log-variance of width [latent_size]; and from every latent code of
    that width [decode] builds a hidden and a cell state of [layers]
    slices of width [rnn_size = directions * hidden_size] each.  That is
    the shape of the states that were flattened when the encoder has one
    direction; with two directions those had twice as many slices, half
    as wide.  With one direction and one layer the reshaping of [decode]
    is the inverse of the flattening of [encode]. *)
Theorem bottleneck_shapes (opt : Opt.t) (enc : Encoder.t) (self : NMTModel.t)
        (l b : nat) :
  Encoder.init opt = Ok enc ->
  NMTModel.built_from opt enc self ->
  Opt.layers opt = S l ->
  (0 < Opt.rnn_size opt)%Z ->
  let D := Z.to_nat (Encoder.num_directions enc) in
  let H := Z.to_nat (Encoder.hidden_size enc) in
  let R := Z.to_nat (Opt.rnn_size opt) in
  let N := Opt.latent_size opt in
  (D * H = R)%nat /\
  (if Opt.brnn opt then D = 2%nat else D = 1%nat) /\
  (forall h c : tensor3 Q,
      is_tensor3 (S l * D) (S b) H h -> is_tensor3 (S l * D) (S b) H c ->
      exists flat mu logvar,
        NMTModel.encode_flatten (h, c) = Ok flat /\
        is_mat (S b) (2 * S l * R) flat /\
        NMTModel.latent self flat = Ok (mu, logvar) /\
        is_mat (S b) N mu /\ is_mat (S b) N logvar) /\
  (forall z : mat Q,
      is_mat (S b) N z ->
      exists hd cl,
        NMTModel.decoder_state self z = Ok (hd, cl) /\
        is_tensor3 (S l) (S b) R hd /\ is_tensor3 (S l) (S b) R cl) /\
  (Opt.brnn opt = false -> l = 0%nat ->
   forall h c : tensor3 Q,
     is_tensor3 1 (S b) H h -> is_tensor3 1 (S b) H c ->
     exists flat,
       NMTModel.encode_flatten (h, c) = Ok flat /\
       NMTModel.decode_unflatten (NMTModel.layers self) (S b) flat = Ok (h, c)).
Proof.
  intros Hinit Hb HL Hr D H R N.
  destruct (init_directions opt Hinit Hr) as [HD HDH]. fold D H R in HD, HDH.
  assert (HW : Z.to_nat (NMTModel.concat_hidden_size opt) = (S l * R * 2)%nat).
  { unfold NMTModel.concat_hidden_size. rewrite HL. subst R. lia. }
  pose proof Hb as [_ _ BL _ _ _ _ _ _ _ _ _ Bdec].
  rewrite HW in Bdec.
  split; [exact HDH|]. split; [exact HD|]. split; [|split].
  - intros h c Hh Hc.
    apply (@flatten_latent_shape opt enc self l b h c); assumption.
  - intros z Hz.
    assert (HR : exists r, R = S r) by (exists (pred R); subst R; lia).
    destruct HR as [r HR]. rewrite HR in *.
    apply (@decoder_state_shape self l b r N z); [congruence | exact Bdec | exact Hz].
  - intros Hbr Hl0 h c Hh Hc. rewrite Hbr in HD.
    assert (HH : exists k, H = S k) by (exists (pred H); subst R; lia).
    destruct HH as [k HH]. rewrite HH in Hh, Hc.
    rewrite BL, HL, Hl0.
    apply (unflatten_flatten_one_layer Hh Hc).
Qed.

Lemma Bidirectional_built :
  NMTModel.built_from Bidirectional.opt Bidirectional.enc Bidirectional.model.
Proof.
  constructor; try reflexivity;
    repeat split; try reflexivity; repeat constructor.
Qed.

Lemma Instance_built (gp : list nat) (train det pre dyn : bool) (p a : Q) :
  NMTModel.built_from (Instance.opt gp det pre dyn p) Instance.enc
                      (Instance.model gp train det pre dyn p a).
Proof.
  constructor; try reflexivity;
    repeat split; try reflexivity; repeat constructor.
Qed.

Lemma bottleneck_shapes_witness :
  let opt := Instance.opt [] true false false 1 in
  let self := Instance.model [] false true false false 1 0 in
  let D := Z.to_nat (Encoder.num_directions Instance.enc) in
  let H := Z.to_nat (Encoder.hidden_size Instance.enc) in
  let R := Z.to_nat (Opt.rnn_size opt) in
  let N := Opt.latent_size opt in
  (D * H = R)%nat /\
  (if Opt.brnn opt then D = 2%nat else D = 1%nat) /\
  (forall h c : tensor3 Q,
      is_tensor3 (1 * D) 2 H h -> is_tensor3 (1 * D) 2 H c ->
      exists flat mu logvar,
        NMTModel.encode_flatten (h, c) = Ok flat /\
        is_mat 2 (2 * 1 * R) flat /\
        NMTModel.latent self flat = Ok (mu, logvar) /\
        is_mat 2 N mu /\ is_mat 2 N logvar) /\
  (forall z : mat Q,
      is_mat 2 N z ->
      exists hd cl,
        NMTModel.decoder_state self z = Ok (hd, cl) /\
        is_tensor3 1 2 R hd /\ is_tensor3 1 2 R cl) /\
  (Opt.brnn opt = false -> 0%nat = 0%nat ->
   forall h c : tensor3 Q,
     is_tensor3 1 2 H h -> is_tensor3 1 2 H c ->
     exists flat,
       NMTModel.encode_flatten (h, c) = Ok flat /\
       NMTModel.decode_unflatten (NMTModel.layers self) 2 flat = Ok (h, c)).
Proof.
  intros opt self.
  apply (@bottleneck_shapes opt Instance.enc self 0 1).
  - reflexivity.
  - apply Instance_built.
  - reflexivity.
  - reflexivity.
Defined.

(** C5, as stated: in the bidirectional model the state that [decode]
    rebuilds from the flattened encoder state has one slice of width 2,
    the flattened state had two slices of width 1, and what is rebuilt
    is not what was flattened. *)
Lemma decode_state_is_not_encoder_state :
  is_tensor3 2 1 1 Bidirectional.h /\
  NMTModel.encode_flatten (Bidirectional.h, Bidirectional.c) = Ok [[1; 3; 2; 4]] /\
  NMTModel.decode_unflatten 1 1 [[1; 3; 2; 4]] = Ok ([[[1; 3]]], [[[2; 4]]]) /\
  is_tensor3 1 1 2 [[[1; 3]]] /\
  ~ is_tensor3 1 1 2 Bidirectional.h /\
  ([[[1; 3]]], [[[2; 4]]]) <> (Bidirectional.h, Bidirectional.c).
Proof.
  split; [split; [reflexivity | repeat constructor]|].
  split; [reflexivity|]. split; [reflexivity|].
  split; [split; [reflexivity | repeat constructor]|].
  split.
  - intros [Hl _]. discriminate Hl.
  - intros E. discriminate E.
Qed.

(** With one direction, two layers and a batch of two, the shapes agree
    but [decode] regroups the rows of the batch-major matrix as if they
    were layer-major: the state of layer 0 for the second example is
    taken from the first example. *)
Lemma decode_unflatten_regroups_batch :
  let h : tensor3 Q := [[[1]; [2]]; [[3]; [4]]] in
  let c : tensor3 Q := [[[5]; [6]]; [[7]; [8]]] in
  NMTModel.encode_flatten (h, c) = Ok [[1; 5; 3; 7]; [2; 6; 4; 8]] /\
  NMTModel.decode_unflatten 2 2 [[1; 5; 3; 7]; [2; 6; 4; 8]]
  = Ok ([[[1]; [3]]; [[2]; [4]]], [[[5]; [7]]; [[6]; [8]]]).
Proof.
  split; reflexivity.
Qed.

(** ** The store: what [forward] leaves untouched *)

Section Frame.
Import Store.
Variable n : nat.

Lemma keeps_ret {A : Type} (a : A) (post : A -> Prop) :
  post a -> keeps n (ret a) post.
Proof.
  intros Hp s a' s' Hn H. unfold ret in H. injection H as <- <-. auto.
Qed.

Lemma keeps_bind {A B : Type} (c : M A) (k : A -> M B)
      (P : A -> Prop) (Q : B -> Prop) :
  keeps n c P -> (forall a, P a -> keeps n (k a) Q) -> keeps n (mbind c k) Q.
Proof.
  intros Hc Hk s b s' Hn H. unfold mbind in H.
  destruct (c s) as [[a s1]|e] eqn:E; [|discriminate].
  destruct (Hc _ _ _ Hn E) as [F1 [L1 Pa]].
  destruct (Hk a Pa _ _ _ L1 H) as [F2 [L2 Qb]].
  split; [congruence | auto].
Qed.

Lemma keeps_weaken {A : Type} (c : M A) (P Q : A -> Prop) :
  (forall a, P a -> Q a) -> keeps n c P -> keeps n c Q.
Proof.
  intros HPQ Hc s a s' Hn H. destruct (Hc _ _ _ Hn H) as [F [L Pa]]. auto.
Qed.

Lemma keeps_lift {A : Type} (r : result A) : keeps n (lift r) (fun _ => True).
Proof.
  intros s a s' Hn H. unfold lift in H. destruct r; [|discriminate].
  injection H as <- <-. auto.
Qed.

Lemma keeps_with_gen {A : Type} (f : rng -> result (A * rng)) :
  keeps n (with_gen f) (fun _ => True).
Proof.
  intros s a s' Hn H. unfold with_gen in H.
  destruct (f (gen s)) as [[a0 g']|e]; [|discriminate].
  injection H as <- <-. auto.
Qed.

Lemma keeps_alloc (d : storage) : keeps n (alloc d) (beyond n).
Proof.
  intros s t s' Hn H. unfold alloc in H. injection H as <- <-. cbn [mem base].
  split; [|split].
  - rewrite firstn_app. replace (n - length (mem s))%nat with 0%nat by lia.
    cbn [firstn]. apply app_nil_r.
  - rewrite length_app. lia.
  - exact Hn.
Qed.

Lemma keeps_read_long (t : tensor) : keeps n (read_long t) (fun _ => True).
Proof.
  intros s a s' Hn H. unfold read_long in H.
  destruct (nth_error (mem s) (base t)) as [[m|m]|]; try discriminate.
  injection H as <- <-. auto.
Qed.

Lemma keeps_read_float (t : tensor) : keeps n (read_float t) (fun _ => True).
Proof.
  intros s a s' Hn H. unfold read_float in H.
  destruct (nth_error (mem s) (base t)) as [[m|m]|]; try discriminate.
  injection H as <- <-. auto.
Qed.

Lemma length_update {X : Type} (l : list X) (i : nat) (x : X) :
  length (update l i x) = length l.
Proof.
  revert i. induction l as [|y l IH]; intros [|i]; simpl; auto.
Qed.

Lemma firstn_update {X : Type} (l : list X) (i k : nat) (x : X) :
  (k <= i)%nat -> firstn k (update l i x) = firstn k l.
Proof.
  revert i k. induction l as [|y l IH]; intros i k Hk.
  - destruct i; reflexivity.
  - destruct i as [|i].
    + replace k with 0%nat by lia. reflexivity.
    + destruct k as [|k]; [reflexivity|]. cbn [update firstn].
      f_equal. apply IH. lia.
Qed.

(** A write into a storage beyond the first [n] keeps them. *)
Lemma keeps_overwrite (t : tensor) (f : mat Q -> rng -> mat Q * rng) :
  beyond n t -> keeps n (overwrite t f) (fun _ => True).
Proof.
  intros Hb s a s' Hn H. unfold overwrite in H.
  destruct (nth_error (mem s) (base t)) as [[m|m]|]; try discriminate.
  destruct (f (firstn (nrows t) m) (gen s)) as [rows' g'].
  injection H as <- <-. cbn [mem].
  split; [apply firstn_update; exact Hb|].
  split; [rewrite length_update; exact Hn | exact I].
Qed.

Lemma keeps_new_float (r c : Z) : keeps n (new_float r c) (beyond n).
Proof.
  unfold new_float. destruct ((r <? 0) || (c <? 0))%Z.
  - intros s a s' _ H. discriminate H.
  - apply keeps_alloc.
Qed.

Lemma keeps_unary_float (f : mat Q -> storage) (a : tensor) :
  keeps n (unary_float f a) (beyond n).
Proof.
  unfold unary_float. eapply keeps_bind; [apply keeps_read_float|].
  intros x _. apply keeps_alloc.
Qed.

Lemma keeps_binary_long (f : mat Z -> mat Z -> result (mat Z)) (a b : tensor) :
  keeps n (binary_long f a b) (beyond n).
Proof.
  unfold binary_long. eapply keeps_bind; [apply keeps_read_long|]. intros x _.
  eapply keeps_bind; [apply keeps_read_long|]. intros y _.
  eapply keeps_bind; [apply keeps_lift|]. intros r _.
  apply keeps_alloc.
Qed.

Lemma keeps_cat0_float (a b : tensor) : keeps n (cat0_float a b) (beyond n).
Proof.
  unfold cat0_float. eapply keeps_bind; [apply keeps_read_float|]. intros x _.
  eapply keeps_bind; [apply keeps_read_float|]. intros y _.
  apply keeps_alloc.
Qed.

Lemma keeps_bernoulli_st (probs : tensor) : keeps n (bernoulli_st probs) (beyond n).
Proof.
  unfold bernoulli_st. eapply keeps_bind; [apply keeps_read_float|]. intros p _.
  eapply keeps_bind; [apply keeps_with_gen|]. intros s _.
  apply keeps_alloc.
Qed.

Lemma keeps_read_tokens (x : tokens_ref) : keeps n (read_tokens x) (fun _ => True).
Proof.
  destruct x as [t|t lens]; cbn [read_tokens];
    (eapply keeps_bind; [apply keeps_read_long|]); intros v _;
    apply keeps_ret; exact I.
Qed.

End Frame.

Section FrameModel.
Import Store.
Variable ext : External.
Variable self : NMTModel.t.
Variable n : nat.

(** [replace_by_unk] fills only tensors it has created, and its result
    is a tensor of its own. *)
Lemma keeps_replace_by_unk (seqs : tensor) (prob : Q) :
  keeps n (Stateful.replace_by_unk ext self seqs prob) (beyond n).
Proof.
  unfold Stateful.replace_by_unk.
  eapply keeps_bind; [apply keeps_read_long|]. intros sv _.
  eapply keeps_bind; [apply keeps_new_float|]. intros probs Hprobs.
  eapply keeps_bind; [apply keeps_overwrite; exact Hprobs|]. intros _ _.
  eapply keeps_bind; [apply keeps_new_float|]. intros ones Hones.
  eapply keeps_bind; [apply keeps_overwrite; exact Hones|]. intros _ _.
  eapply keeps_bind; [apply keeps_cat0_float|]. intros probs' _.
  eapply keeps_bind; [apply keeps_bernoulli_st|]. intros samples _.
  eapply keeps_bind; [apply keeps_unary_float|]. intros added _.
  eapply keeps_bind; [apply keeps_unary_float|]. intros samples_long _.
  eapply keeps_bind; [apply keeps_binary_long|]. intros kept _.
  eapply keeps_bind; [apply keeps_unary_float|]. intros added_long _.
  apply keeps_binary_long.
Qed.

Lemma keeps_encode (x : tokens_ref) :
  keeps n (Stateful.encode ext self x) (fun _ => True).
Proof.
  unfold Stateful.encode.
  eapply keeps_bind; [apply keeps_read_tokens|]. intros xv _.
  apply keeps_with_gen.
Qed.

Lemma keeps_reparameterize (mu logvar : mat Q) :
  keeps n (Stateful.reparameterize ext self mu logvar) (fun _ => True).
Proof.
  unfold Stateful.reparameterize.
  eapply keeps_bind; [apply keeps_new_float|]. intros eps Heps.
  eapply keeps_bind; [apply keeps_overwrite; exact Heps|]. intros _ _.
  eapply keeps_bind; [apply keeps_read_float|]. intros ev _.
  eapply keeps_bind; [apply keeps_lift|]. intros es _.
  apply keeps_lift.
Qed.

Lemma keeps_sample (mu logvar : mat Q) :
  keeps n (Stateful.sample ext self mu logvar) (fun _ => True).
Proof.
  unfold Stateful.sample. destruct (negb (NMTModel.deterministic self)).
  - apply keeps_reparameterize.
  - apply keeps_ret. exact I.
Qed.

Lemma keeps_make_init_decoder_output (z : mat Q) :
  keeps n (Stateful.make_init_decoder_output self z) (beyond n).
Proof.
  unfold Stateful.make_init_decoder_output.
  eapply keeps_bind; [apply keeps_new_float|]. intros t Ht.
  eapply keeps_bind; [apply keeps_overwrite; exact Ht|]. intros _ _.
  apply keeps_ret. exact Ht.
Qed.

Lemma keeps_decode (z : mat Q) (tgt : tensor) (step : Z) :
  keeps n (Stateful.decode ext self z tgt step) (fun _ => True).
Proof.
  unfold Stateful.decode.
  eapply keeps_bind; [apply keeps_lift|]. intros ds _.
  eapply keeps_bind; [apply keeps_make_init_decoder_output|]. intros io _.
  eapply keeps_bind; [apply keeps_read_long|]. intros tv _.
  eapply keeps_bind; [apply keeps_read_float|]. intros iv _.
  eapply keeps_bind; [apply keeps_with_gen|]. intros [x dh] _.
  apply keeps_ret. exact I.
Qed.

Lemma keeps_forward (input : tokens_ref * tensor) (step : Z) :
  keeps n (Stateful.forward ext self input step) (fun _ => True).
Proof.
  unfold Stateful.forward.
  eapply keeps_bind with (P := fun _ => True).
  { destruct (NMTModel.training self &&
              (if Qlt_le_dec (NMTModel.feed_gt_prob self) 1 then true else false)).
    - eapply keeps_weaken; [|apply keeps_replace_by_unk]. auto.
    - apply keeps_ret. exact I. }
  intros tgt _.
  eapply keeps_bind; [apply keeps_encode|]. intros [mu logvar] _.
  eapply keeps_bind; [apply keeps_sample|]. intros z _.
  eapply keeps_bind; [apply keeps_decode|]. intros out _.
  apply keeps_ret. exact I.
Qed.

End FrameModel.

Lemma firstn_all_prefix {X : Type} (l l' : list X) :
  firstn (length l) l' = firstn (length l) l ->
  forall i x, nth_error l i = Some x -> nth_error l' i = Some x.
Proof.
  rewrite firstn_all. intros E i x H.
  assert (Hi : (i < length l)%nat) by (apply nth_error_Some; congruence).
  rewrite <- (firstn_skipn (length l) l'), E.
  rewrite nth_error_app1 by assumption. exact H.
Qed.

(** ** [forward] returns on a well-formed model *)

Lemma index_ok {X : Type} (t : list X) (i : nat) :
  (i < length t)%nat -> exists x, StackedLSTM.index t i = Ok x.
Proof.
  intros H. unfold StackedLSTM.index.
  destruct (nth_error t i) as [x|] eqn:E; [eauto|].
  apply nth_error_None in E. lia.
Qed.

Lemma layers_loop_returns (ext : External) (L : nat) (h_0 c_0 : tensor3 Q) :
  (L <= length h_0)%nat -> (L <= length c_0)%nat ->
  forall (idx : list nat) input h_1 c_1 g,
    Forall (fun i => (i < L)%nat) idx ->
    exists out h_1' c_1' g',
      StackedLSTM.layers_loop ext L idx input h_0 c_0 h_1 c_1 g
      = Ok ((out, (h_1', c_1')), g') /\
      length h_1' = (length h_1 + length idx)%nat /\
      length c_1' = (length c_1 + length idx)%nat.
Proof.
  intros Hh Hc. induction idx as [|i idx IH]; intros input h_1 c_1 g Hidx.
  - cbn [StackedLSTM.layers_loop length]. do 4 eexists.
    split; [reflexivity | split; lia].
  - pose proof (Forall_inv Hidx) as Hi. cbn beta in Hi.
    pose proof (Forall_inv_tail Hidx) as Hidx'.
    cbn [StackedLSTM.layers_loop].
    destruct (@index_ok _ h_0 i ltac:(lia)) as [h0i Eh].
    destruct (@index_ok _ c_0 i ltac:(lia)) as [c0i Ec].
    rewrite Eh. cbn [bind]. rewrite Ec. cbn [bind].
    destruct (lstm_cell ext i input (h0i, c0i)) as [h_1_i c_1_i].
    destruct (if negb (i + 1 =? L)%nat then dropout_fn ext g h_1_i else (h_1_i, g))
      as [input' g1].
    destruct (IH input' (h_1 ++ [h_1_i]) (c_1 ++ [c_1_i]) g1 Hidx')
      as [out [h' [c' [g' [E [L1 L2]]]]]].
    exists out, h', c', g'. split; [exact E|].
    rewrite length_app in L1, L2. cbn [length] in *. split; lia.
Qed.

Lemma StackedLSTM_forward_returns (ext : External) (l : nat) (g : rng)
      (input : mat Q) (h_0 c_0 : tensor3 Q) :
  length h_0 = S l -> length c_0 = S l ->
  exists out h_1 c_1 g',
    StackedLSTM.forward ext (S l) g input (h_0, c_0) = Ok ((out, (h_1, c_1)), g') /\
    length h_1 = S l /\ length c_1 = S l.
Proof.
  intros Hh Hc. unfold StackedLSTM.forward.
  destruct (@layers_loop_returns ext (S l) h_0 c_0 ltac:(lia) ltac:(lia)
              (seq 0 (S l)) input [] [] g)
    as [out [h_1 [c_1 [g' [E [L1 L2]]]]]].
  { rewrite Forall_forall. intros i Hi. apply in_seq in Hi. lia. }
  rewrite length_seq in L1, L2. cbn [length] in L1, L2.
  destruct h_1 as [|x h_1]; [discriminate|].
  destruct c_1 as [|y c_1]; [discriminate|].
  do 4 eexists. rewrite E. cbn [stack bind]. split; [reflexivity | auto].
Qed.

Lemma map_result_total {X Y : Type} (f : X -> result Y) (l : list X) :
  Forall (fun x => exists y, f x = Ok y) l ->
  exists ys, Decoder.map_result f l = Ok ys.
Proof.
  induction 1 as [|x l [y Hy] _ [ys IH]]; cbn [Decoder.map_result].
  - eauto.
  - rewrite Hy. cbn [bind]. rewrite IH. cbn [bind]. eauto.
Qed.

Lemma max_indices_total (logit : mat Q) :
  Forall (fun row => row <> []) logit ->
  exists idx, Decoder.max_indices logit = Ok idx.
Proof.
  intros H. apply map_result_total.
  eapply Forall_impl; [|exact H].
  intros row Hrow. destruct row; [contradiction|]. cbn [Decoder.argmax_row]. eauto.
Qed.

Lemma step_returns (ext : External) (self : Decoder.t) (l i : nat)
      (emb_t input_t : mat Q) (h c : tensor3 Q) (g : rng) :
  Decoder.layers self = S l ->
  (Decoder.dynamic_decode self = true -> generator_nonempty ext) ->
  length h = S l -> length c = S l ->
  exists logit input_t' h' c' g',
    Decoder.step ext self i emb_t input_t (h, c) g
    = Ok ((logit, input_t', (h', c')), g') /\
    length h' = S l /\ length c' = S l.
Proof.
  intros HL Hgen Hh Hc. unfold Decoder.step. rewrite HL.
  destruct (@StackedLSTM_forward_returns ext l g
              (Decoder.rnn_input self i emb_t input_t) h c Hh Hc)
    as [out [h' [c' [g1 [E [L1 L2]]]]]].
  destruct (dropout_fn ext g1 out) as [out' g2] eqn:Edrop.
  destruct (Decoder.dynamic_decode self) eqn:Ed.
  - destruct (@max_indices_total (generator ext out') (Hgen eq_refl out'))
      as [idx Ei].
    do 5 eexists. rewrite E. cbn [bind]. rewrite Edrop, Ei. cbn [bind].
    split; [reflexivity | auto].
  - do 5 eexists. rewrite E. cbn [bind]. rewrite Edrop. cbn [bind].
    split; [reflexivity | auto].
Qed.

Lemma loop_returns (ext : External) (self : Decoder.t) (l : nat) :
  Decoder.layers self = S l ->
  (Decoder.dynamic_decode self = true -> generator_nonempty ext) ->
  forall (emb : tensor3 Q) i input_t (h c : tensor3 Q) outputs g,
    length h = S l -> length c = S l ->
    exists outs hidden' g',
      Decoder.loop ext self i emb input_t (h, c) outputs g
      = Ok ((outs, hidden'), g') /\
      length outs = (length outputs + length emb)%nat.
Proof.
  intros HL Hgen. induction emb as [|emb_t emb IH];
    intros i input_t h c outputs g Hh Hc.
  - cbn [Decoder.loop length]. do 3 eexists. split; [reflexivity | lia].
  - cbn [Decoder.loop].
    destruct (@step_returns ext self l i emb_t input_t h c g HL Hgen Hh Hc)
      as [logit [input_t' [h' [c' [g1 [E [L1 L2]]]]]]].
    destruct (IH (S i) input_t' h' c' (outputs ++ [logit]) g1 L1 L2)
      as [outs [hidden' [g' [E' Lo]]]].
    exists outs, hidden', g'. rewrite E. cbn [bind]. split; [exact E'|].
    rewrite length_app in Lo. cbn [length] in *. lia.
Qed.

(** [Decoder.forward] returns for every target of at least one timestep
    and every state with one slice per layer. *)
Lemma Decoder_forward_returns (ext : External) (self : Decoder.t) (l : nat)
      (g : rng) (input : mat Z) (h c : tensor3 Q) (init_output : mat Q) (step : Z) :
  Decoder.layers self = S l ->
  (Decoder.dynamic_decode self = true -> generator_nonempty ext) ->
  length h = S l -> length c = S l ->
  (0 < length input)%nat ->
  exists outputs hidden' g',
    Decoder.forward ext self g input (h, c) init_output step
    = Ok ((outputs, hidden'), g') /\
    length outputs = length input.
Proof.
  intros HL Hgen Hh Hc Hin. unfold Decoder.forward.
  destruct (@loop_returns ext self l HL Hgen (Decoder.embed ext input)
              0 [] h c [] g Hh Hc) as [outs [hidden' [g' [E Lo]]]].
  unfold Decoder.embed in Lo. rewrite length_map in Lo. cbn [length] in Lo.
  destruct outs as [|o outs]; [cbn [length] in Lo; lia|].
  do 3 eexists. rewrite E. cbn [stack bind]. split; [reflexivity | exact Lo].
Qed.

Lemma make_init_decoder_output_returns (self : NMTModel.t) (z : mat Q) :
  (0 <= Decoder.hidden_size (NMTModel.decoder self))%Z ->
  exists io, NMTModel.make_init_decoder_output self z = Ok io.
Proof.
  intros H. unfold NMTModel.make_init_decoder_output.
  destruct (Z.ltb_spec (Decoder.hidden_size (NMTModel.decoder self)) 0); [lia|].
  eauto.
Qed.

Lemma sample_returns (ext : External) (self : NMTModel.t) (g : rng)
      (mu logvar : mat Q) (B N : nat) :
  is_mat B N mu -> is_mat B N logvar ->
  exists z g', NMTModel.sample ext self g mu logvar = Ok (z, g') /\ is_mat B N z.
Proof.
  intros Hmu Hlv. unfold NMTModel.sample.
  destruct (negb (NMTModel.deterministic self)).
  - destruct (reparameterize_spec ext self g Hmu Hlv) as [z [E [Mz _]]]. eauto.
  - eauto.
Qed.

Lemma decode_returns (ext : External) (opt : Opt.t) (enc : Encoder.t)
      (self : NMTModel.t) (l b : nat) (g : rng) (z : mat Q) (tgt : mat Z) (step : Z) :
  NMTModel.built_from opt enc self ->
  Opt.layers opt = S l ->
  (0 < Opt.rnn_size opt)%Z ->
  (Opt.dynamic_decode opt = true -> generator_nonempty ext) ->
  is_mat (S b) (Opt.latent_size opt) z ->
  (0 < length tgt)%nat ->
  exists out g',
    NMTModel.decode ext self g z tgt step = Ok (out, g') /\
    length out = length tgt.
Proof.
  intros Hb HL Hr Hgen Hz Ht.
  destruct Hb as [_ Bdec BL _ _ _ _ _ _ _ _ _ Bd].
  assert (HR : exists r, Z.to_nat (Opt.rnn_size opt) = S r)
    by (exists (pred (Z.to_nat (Opt.rnn_size opt))); lia).
  destruct HR as [r HR].
  assert (HW : Z.to_nat (NMTModel.concat_hidden_size opt) = (S l * S r * 2)%nat).
  { unfold NMTModel.concat_hidden_size. rewrite HL. lia. }
  rewrite HW in Bd.
  destruct (@decoder_state_shape self l b r (Opt.latent_size opt) z
              ltac:(congruence) Bd Hz) as [hd [cl [Es [[Lh _] [Lc _]]]]].
  destruct (@make_init_decoder_output_returns self z) as [io Eio].
  { rewrite Bdec. cbn [Decoder.init Decoder.hidden_size]. lia. }
  destruct (@Decoder_forward_returns ext (NMTModel.decoder self) l g tgt hd cl
              io step) as [out [hidden' [g' [Ef Lo]]]];
    try assumption.
  { rewrite Bdec. cbn [Decoder.init Decoder.layers]. exact HL. }
  { rewrite Bdec. cbn [Decoder.init Decoder.dynamic_decode]. exact Hgen. }
  exists out, g'. unfold NMTModel.decode.
  rewrite Es. cbn [bind]. rewrite Eio. cbn [bind]. rewrite Ef. cbn [bind].
  split; [reflexivity | exact Lo].
Qed.

Lemma encode_returns (ext : External) (opt : Opt.t) (enc : Encoder.t)
      (self : NMTModel.t) (l b : nat) (g : rng) (src : tokens_input) :
  Encoder.init opt = Ok enc ->
  NMTModel.built_from opt enc self ->
  Opt.layers opt = S l ->
  (0 < Opt.rnn_size opt)%Z ->
  encoder_shapes ext enc src
                 (S l * Z.to_nat (Encoder.num_directions enc)) (S b)
                 (Z.to_nat (Encoder.hidden_size enc)) ->
  exists mu logvar g',
    NMTModel.encode ext self g src = Ok ((mu, logvar), g') /\
    is_mat (S b) (Opt.latent_size opt) mu /\
    is_mat (S b) (Opt.latent_size opt) logvar.
Proof.
  intros Hinit Hb HL Hr Henc. unfold NMTModel.encode.
  rewrite (NMTModel.built_encoder Hb).
  specialize (Henc g). cbv zeta in Henc.
  destruct (Encoder.forward ext enc g src None) as [[[h c] outs] g1].
  cbn [fst snd] in Henc. destruct Henc as [Hh Hc].
  destruct (@flatten_latent_shape opt enc self l b h c Hinit Hb HL Hr Hh Hc)
    as [flat [mu [lv [Ef [_ [El [Mmu Mlv]]]]]]].
  exists mu, lv, g1. rewrite Ef. cbn [bind]. rewrite El. cbn [bind]. auto.
Qed.

(** On a model built from an accepted configuration, with an encoder
    network that returns states of the configured shape, [forward]
    returns as soon as its token-replacement step does. *)
Lemma forward_returns (ext : External) (opt : Opt.t) (enc : Encoder.t)
      (self : NMTModel.t) (l b : nat) (g : rng)
      (src : tokens_input) (tgt : mat Z) (step : Z) :
  Encoder.init opt = Ok enc ->
  NMTModel.built_from opt enc self ->
  Opt.layers opt = S l ->
  (0 < Opt.rnn_size opt)%Z ->
  (Opt.dynamic_decode opt = true -> generator_nonempty ext) ->
  encoder_shapes ext enc src
                 (S l * Z.to_nat (Encoder.num_directions enc)) (S b)
                 (Z.to_nat (Encoder.hidden_size enc)) ->
  (2 <= length tgt)%nat ->
  (exists tgt' g1,
      (if NMTModel.training self &&
          (if Qlt_le_dec (NMTModel.feed_gt_prob self) 1 then true else false)
       then NMTModel.replace_by_unk ext self g (removelast tgt)
                                    (NMTModel.feed_gt_prob self)
       else Ok (removelast tgt, g)) = Ok (tgt', g1)) ->
  exists out mu logvar g',
    NMTModel.forward ext self g (src, tgt) step = Ok ((out, mu, logvar), g') /\
    length out = (length tgt - 1)%nat /\
    is_mat (S b) (Opt.latent_size opt) mu /\
    is_mat (S b) (Opt.latent_size opt) logvar.
Proof.
  intros Hinit Hb HL Hr Hgen Henc Ht [tgt' [g1 Hrep]].
  assert (Lt : length tgt' = (length tgt - 1)%nat).
  { destruct (NMTModel.training self &&
              (if Qlt_le_dec (NMTModel.feed_gt_prob self) 1 then true else false)).
    - apply replace_by_unk_length in Hrep. rewrite Hrep.
      apply length_removelast_pred.
    - injection Hrep as <- _. apply length_removelast_pred. }
  destruct (@encode_returns ext opt enc self l b g1 src Hinit Hb HL Hr Henc)
    as [mu [lv [g2 [Ee [Mmu Mlv]]]]].
  destruct (@sample_returns ext self g2 mu lv _ _ Mmu Mlv) as [z [g3 [Es Mz]]].
  destruct (@decode_returns ext opt enc self l b g3 z tgt' step Hb HL Hr Hgen Mz)
    as [out [g4 [Ed Lo]]]; [unfold mat in *; lia|].
  exists out, mu, lv, g4. unfold NMTModel.forward. cbn [fst snd].
  rewrite Hrep. cbn [bind]. rewrite Ee. cbn [bind]. rewrite Es. cbn [bind].
  rewrite Ed. cbn [bind]. split; [reflexivity|].
  split; [unfold mat, tensor3 in *; lia | auto].
Qed.

(** C7. When [forward] returns, its logits have one timestep for every
    target timestep but the last: the last target token is dropped and
    the decoder loop runs once per remaining timestep.  On a model built
    from an accepted configuration it does return, for every target of
    two timesteps or more, when no token is replaced (evaluation mode, or
    [feed_gt_prob >= 1]) and when tokens are replaced on the GPU branch.
    But in training mode, without a GPU and with [feed_gt_prob < 1], a
    target of four timesteps or more makes [replace_by_unk] raise, and
    [forward] with it. *)
Theorem forward_logits_timesteps (ext : External) (opt : Opt.t) (enc : Encoder.t)
        (self : NMTModel.t) (l b : nat) (g : rng)
        (src : tokens_input) (tgt : mat Z) (step : Z) :
  (forall out mu logvar g',
     NMTModel.forward ext self g (src, tgt) step = Ok ((out, mu, logvar), g') ->
     length out = (length tgt - 1)%nat) /\
  (Encoder.init opt = Ok enc ->
   NMTModel.built_from opt enc self ->
   Opt.layers opt = S l ->
   (0 < Opt.rnn_size opt)%Z ->
   (Opt.dynamic_decode opt = true -> generator_nonempty ext) ->
   encoder_shapes ext enc src
                  (S l * Z.to_nat (Encoder.num_directions enc)) (S b)
                  (Z.to_nat (Encoder.hidden_size enc)) ->
   (2 <= length tgt)%nat ->
   NMTModel.training self = false \/
   1 <= NMTModel.feed_gt_prob self \/
   (NMTModel.truthy (NMTModel.gpus self) = true /\
    0 <= NMTModel.feed_gt_prob self /\
    in_int64 (UNK ext) /\
    Forall (Forall in_int64) (removelast tgt) /\
    exists B, is_mat (length tgt - 1) B (removelast tgt)) ->
   exists out mu logvar g',
     NMTModel.forward ext self g (src, tgt) step = Ok ((out, mu, logvar), g') /\
     length out = (length tgt - 1)%nat) /\
  (NMTModel.training self = true -> NMTModel.feed_gt_prob self < 1 ->
   NMTModel.gpus self = [] -> (4 <= length tgt)%nat ->
   NMTModel.forward ext self g (src, tgt) step = Raise RuntimeError).
Proof.
  split; [|split].
  - intros out mu logvar g'. apply forward_logits_length.
  - intros Hinit Hb HL Hr Hgen Henc Ht Hcase.
    destruct (@forward_returns ext opt enc self l b g src tgt step
                Hinit Hb HL Hr Hgen Henc Ht)
      as [out [mu [lv [g' [E [Lo _]]]]]]; [|exists out, mu, lv, g'; auto].
    destruct (NMTModel.training self) eqn:Etr; cbn [andb]; [|eauto].
    destruct (Qlt_le_dec (NMTModel.feed_gt_prob self) 1) as [Hlt|Hge]; [|eauto].
    destruct Hcase as [Hc|[Hc|[Hg [Hp [Hu [Hi [B HB]]]]]]];
      [discriminate | lra |].
    destruct (length tgt - 1)%nat as [|n] eqn:En; [lia|].
    destruct (@replace_by_unk_gpu_spec ext self g (removelast tgt)
                (NMTModel.feed_gt_prob self) n B Hg HB Hi Hu)
      as [r [Er _]]; [lra | eauto].
  - intros Htr Hp Hg Hl. unfold NMTModel.forward. cbn [fst snd]. rewrite Htr.
    destruct (Qlt_le_dec (NMTModel.feed_gt_prob self) 1) as [_|Hge]; [|lra].
    cbn [andb].
    rewrite replace_by_unk_cpu_mismatch; [reflexivity | assumption |].
    rewrite length_removelast_pred. lia.
Qed.

Lemma Instance_generator_nonempty : generator_nonempty Instance.ext.
Proof.
  intros x. cbn [generator Instance.ext]. rewrite Forall_forall.
  intros row Hin. apply in_map_iff in Hin. destruct Hin as [r [<- _]].
  intros E. apply app_eq_nil in E. destruct E as [_ E]. discriminate E.
Qed.

Lemma Instance_encoder_shapes :
  encoder_shapes Instance.ext Instance.enc Instance.src 1 1 1.
Proof.
  intros g. cbv zeta. cbn.
  split; (split; [reflexivity | repeat constructor]).
Qed.

Lemma forward_logits_timesteps_witness :
  (exists out mu logvar g',
     NMTModel.forward Instance.ext (Instance.model [] false true false false 0 0)
                      Instance.g0 (Instance.src, Instance.tgt) 0
     = Ok ((out, mu, logvar), g') /\
     length out = (length Instance.tgt - 1)%nat) /\
  (exists out mu logvar g',
     NMTModel.forward Instance.ext
                      (Instance.model [0%nat] true true false false 0 0)
                      Instance.g0 (Instance.src, Instance.tgt) 0
     = Ok ((out, mu, logvar), g') /\
     length out = (length Instance.tgt - 1)%nat) /\
  NMTModel.forward Instance.ext (Instance.model [] true true false false 0 0)
                   Instance.g0 (Instance.src, Instance.tgt) 0
  = Raise RuntimeError.
Proof.
  split; [|split].
  - apply (proj1 (proj2 (@forward_logits_timesteps Instance.ext
             (Instance.opt [] true false false 0) Instance.enc
             (Instance.model [] false true false false 0 0) 0 0
             Instance.g0 Instance.src Instance.tgt 0))).
    + reflexivity.
    + apply Instance_built.
    + reflexivity.
    + reflexivity.
    + intros _. apply Instance_generator_nonempty.
    + apply Instance_encoder_shapes.
    + simpl. lia.
    + left. reflexivity.
  - apply (proj1 (proj2 (@forward_logits_timesteps Instance.ext
             (Instance.opt [0%nat] true false false 0) Instance.enc
             (Instance.model [0%nat] true true false false 0 0) 0 0
             Instance.g0 Instance.src Instance.tgt 0))).
    + reflexivity.
    + apply Instance_built.
    + reflexivity.
    + reflexivity.
    + intros _. apply Instance_generator_nonempty.
    + apply Instance_encoder_shapes.
    + simpl. lia.
    + right. right. split; [reflexivity|]. split; [simpl; lra|].
      split; [unfold in_int64; simpl; lia|].
      split; [repeat constructor; unfold in_int64; lia|].
      exists 1%nat. split; [reflexivity | repeat constructor].
  - apply (proj2 (proj2 (@forward_logits_timesteps Instance.ext
             (Instance.opt [] true false false 0) Instance.enc
             (Instance.model [] true true false false 0 0) 0 0
             Instance.g0 Instance.src Instance.tgt 0))).
    + reflexivity.
    + simpl. lra.
    + reflexivity.
    + simpl. lia.
Defined.

(** ** The store-passing functions compute what the pure ones compute *)

Section Run.
Import Store.

Lemma extends_refl (s : st) : extends s s.
Proof. split; auto. Qed.

Lemma extends_trans (s1 s2 s3 : st) :
  extends s1 s2 -> extends s2 s3 -> extends s1 s3.
Proof. intros [A1 B1] [A2 B2]. split; auto. Qed.

Lemma extends_push (s : st) (d : storage) : extends s (push s d).
Proof.
  split; intros t v [m [Hm [Hn Hv]]]; exists m; (split; [|auto]);
    cbn [push mem]; apply nth_error_app_Some; exact Hm.
Qed.

Lemma extends_gen (s : st) (g : rng) : extends s {| mem := mem s; gen := g |}.
Proof. split; intros t v H; exact H. Qed.

Lemma reads_newest_float (s : st) (m : mat Q) :
  reads_float (push s (FloatData m)) (newest s (FloatData m)) m.
Proof.
  exists m. cbn [push newest mem base nrows storage_rows].
  split; [apply nth_error_snoc|]. split; [lia | apply firstn_all].
Qed.

Lemma reads_newest_long (s : st) (m : mat Z) :
  reads_long (push s (LongData m)) (newest s (LongData m)) m.
Proof.
  exists m. cbn [push newest mem base nrows storage_rows].
  split; [apply nth_error_snoc|]. split; [lia | apply firstn_all].
Qed.

Lemma run_alloc {A : Type} (d : storage) (k : tensor -> M A) (s : st) :
  mbind (alloc d) k s = k (newest s d) (push s d).
Proof. reflexivity. Qed.

Lemma run_read_long {A : Type} (t : tensor) (v : mat Z) (k : mat Z -> M A) (s : st) :
  reads_long s t v -> mbind (read_long t) k s = k v s.
Proof.
  intros [m [Hm [_ Hv]]]. unfold mbind, read_long. rewrite Hm, Hv. reflexivity.
Qed.

Lemma run_read_float {A : Type} (t : tensor) (v : mat Q) (k : mat Q -> M A) (s : st) :
  reads_float s t v -> mbind (read_float t) k s = k v s.
Proof.
  intros [m [Hm [_ Hv]]]. unfold mbind, read_float. rewrite Hm, Hv. reflexivity.
Qed.

Lemma run_lift {A B : Type} (r : result A) (k : A -> M B) (s : st) :
  mbind (lift r) k s = match r with Ok a => k a s | Raise e => Raise e end.
Proof. unfold mbind, lift. destruct r; reflexivity. Qed.

Lemma run_with_gen {A B : Type} (f : rng -> result (A * rng)) (k : A -> M B) (s : st) :
  mbind (with_gen f) k s =
  match f (gen s) with
  | Ok (a, g') => k a {| mem := mem s; gen := g' |}
  | Raise e => Raise e
  end.
Proof.
  unfold mbind, with_gen. destruct (f (gen s)) as [[a g']|e]; reflexivity.
Qed.

Lemma update_snoc {X : Type} (l : list X) (x y : X) :
  update (l ++ [x]) (length l) y = l ++ [y].
Proof. induction l as [|z l IH]; simpl; [reflexivity | rewrite IH; reflexivity]. Qed.

(** A new tensor that is filled at once: a storage holding the filling. *)
Lemma run_new_overwrite {A : Type} (r c : nat)
      (f : mat Q -> rng -> mat Q * rng) (k : tensor -> M A) (s : st) :
  let zeros := repeat (repeat 0 c) r in
  let d := FloatData (fst (f zeros (gen s))) in
  length (fst (f zeros (gen s))) = r ->
  mbind (new_float (Z.of_nat r) (Z.of_nat c))
        (fun t => mbind (overwrite t f) (fun _ => k t)) s =
  k (newest s d) {| mem := mem s ++ [d]; gen := snd (f zeros (gen s)) |}.
Proof.
  intros zeros d Hl. unfold new_float.
  destruct (Z.ltb_spec (Z.of_nat r) 0) as [E|_]; [lia|].
  destruct (Z.ltb_spec (Z.of_nat c) 0) as [E|_]; [lia|]. cbn [orb].
  rewrite run_alloc. rewrite !Nat2Z.id. fold zeros.
  unfold mbind at 1. unfold overwrite.
  cbn [push newest mem base nrows gen storage_rows].
  rewrite nth_error_snoc.
  assert (Lz : length zeros = r) by apply repeat_length.
  rewrite firstn_all, skipn_all.
  subst d. destruct (f zeros (gen s)) as [rows' g'] eqn:Ef. cbn [fst snd] in *.
  rewrite update_snoc, app_nil_r.
  unfold newest. cbn [storage_rows]. rewrite Hl, Lz. reflexivity.
Qed.

Lemma new_float_negative {A : Type} (r c : Z) (k : tensor -> M A) (s : st) :
  (r < 0)%Z -> mbind (new_float r c) k s = Raise RuntimeError.
Proof.
  intros H. unfold new_float. destruct (Z.ltb_spec r 0); [reflexivity | lia].
Qed.

End Run.

Section RunOps.
Import Store.

Lemma run_new_fill {A : Type} (r : Z) (c : nat) (v : Q)
      (k : tensor -> M A) (s : st) :
  (0 <= r)%Z ->
  let d := FloatData (repeat (repeat v c) (Z.to_nat r)) in
  mbind (new_float r (Z.of_nat c)) (fun t => mbind (fill_ t v) (fun _ => k t)) s =
  k (newest s d) (push s d).
Proof.
  intros Hr d. rewrite <- (Z2Nat.id r Hr) at 1. unfold fill_.
  rewrite run_new_overwrite.
  - cbn [fst snd]. unfold push. subst d.
    rewrite !map_repeat. reflexivity.
  - cbn [fst]. rewrite length_map, repeat_length. reflexivity.
Qed.

Lemma run_unary_float {A : Type} (f : mat Q -> storage) (a : tensor) (x : mat Q)
      (k : tensor -> M A) (s : st) :
  reads_float s a x ->
  mbind (unary_float f a) k s = k (newest s (f x)) (push s (f x)).
Proof.
  intros Ha. unfold unary_float, mbind at 1.
  rewrite (@run_read_float _ a x _ s Ha). reflexivity.
Qed.

Lemma run_cat0_float {A : Type} (a b : tensor) (x y : mat Q)
      (k : tensor -> M A) (s : st) :
  reads_float s a x -> reads_float s b y ->
  mbind (cat0_float a b) k s =
  k (newest s (FloatData (cat0 x y))) (push s (FloatData (cat0 x y))).
Proof.
  intros Ha Hb. unfold cat0_float, mbind at 1.
  rewrite (@run_read_float _ a x _ s Ha), (@run_read_float _ b y _ s Hb).
  reflexivity.
Qed.

Lemma run_bernoulli_st {A : Type} (p : tensor) (pv : mat Q)
      (k : tensor -> M A) (s : st) :
  reads_float s p pv ->
  mbind (bernoulli_st p) k s =
  match bernoulli (gen s) pv with
  | Ok (smp, g') =>
      k (newest s (FloatData smp))
        (push {| mem := mem s; gen := g' |} (FloatData smp))
  | Raise e => Raise e
  end.
Proof.
  intros Hp. unfold bernoulli_st, mbind at 1.
  rewrite (@run_read_float _ p pv _ s Hp). rewrite run_with_gen.
  destruct (bernoulli (gen s) pv) as [[smp g']|e]; reflexivity.
Qed.

Lemma binary_long_run (f : mat Z -> mat Z -> result (mat Z)) (a b : tensor)
      (x y : mat Z) (s : st) :
  reads_long s a x -> reads_long s b y ->
  binary_long f a b s =
  match f x y with
  | Ok r => Ok (newest s (LongData r), push s (LongData r))
  | Raise e => Raise e
  end.
Proof.
  intros Ha Hb. unfold binary_long.
  rewrite (@run_read_long _ a x _ s Ha), (@run_read_long _ b y _ s Hb), run_lift.
  destruct (f x y); reflexivity.
Qed.

Lemma run_binary_long {A : Type} (f : mat Z -> mat Z -> result (mat Z))
      (a b : tensor) (x y : mat Z) (k : tensor -> M A) (s : st) :
  reads_long s a x -> reads_long s b y ->
  mbind (binary_long f a b) k s =
  match f x y with
  | Ok r => k (newest s (LongData r)) (push s (LongData r))
  | Raise e => Raise e
  end.
Proof.
  intros Ha Hb. unfold mbind at 1. rewrite (@binary_long_run f a b x y s Ha Hb).
  destruct (f x y); reflexivity.
Qed.

End RunOps.

Section Refinement.
Import Store.
Variable ext : External.
Variable self : NMTModel.t.

(** [replace_by_unk] over the store returns a tensor that reads as the
    value of the pure [replace_by_unk], and raises when it raises. *)
Lemma replace_by_unk_refines (seqs : tensor) (sv : mat Z) (prob : Q) (s : st) :
  reads_long s seqs sv ->
  match NMTModel.replace_by_unk ext self (gen s) sv prob with
  | Ok (r, g') =>
      exists t s',
        Stateful.replace_by_unk ext self seqs prob s = Ok (t, s') /\
        reads_long s' t r /\ gen s' = g' /\ extends s s'
  | Raise e => Stateful.replace_by_unk ext self seqs prob s = Raise e
  end.
Proof.
  intros Hs. unfold NMTModel.replace_by_unk, Stateful.replace_by_unk.
  rewrite (@run_read_long _ seqs sv _ s Hs).
  set (B := size1 sv).
  set (R := (if NMTModel.truthy (NMTModel.gpus self)
             then Z.of_nat (size0 sv) - 1 else Z.of_nat (size0 sv) - 2)%Z).
  replace (if NMTModel.truthy (NMTModel.gpus self)
           then full (Z.of_nat (size0 sv) - 1) B prob
           else full (Z.of_nat (size0 sv) - 2) B prob)
    with (full R B prob)
    by (subst R; destruct (NMTModel.truthy (NMTModel.gpus self)); reflexivity).
  unfold full at 1. destruct (Z.ltb_spec R 0) as [Hneg|Hpos].
  { cbn [bind]. apply new_float_negative. exact Hneg. }
  cbn [bind]. rewrite (run_new_fill B prob _ s Hpos).
  set (d1 := FloatData (repeat (repeat prob B) (Z.to_nat R))).
  pose proof (reads_newest_float s (repeat (repeat prob B) (Z.to_nat R))) as R1.
  fold d1 in R1. set (t1 := newest s d1) in *. set (s1 := push s d1) in *.
  assert (E1 : extends s s1) by apply extends_push.
  rewrite (@full_ok 1 B 1) by lia. cbn [bind].
  rewrite (@run_new_fill _ 1 B 1 _ s1 ltac:(lia)).
  set (d2 := FloatData (repeat (repeat 1 B) (Z.to_nat 1))).
  pose proof (reads_newest_float s1 (repeat (repeat 1 B) (Z.to_nat 1))) as R2.
  fold d2 in R2. set (t2 := newest s1 d2) in *. set (s2 := push s1 d2) in *.
  assert (E2 : extends s1 s2) by apply extends_push.
  rewrite (@run_cat0_float _ t2 t1 _ _ _ s2 R2 (proj2 E2 _ _ R1)).
  set (probs := cat0 _ _).
  pose proof (reads_newest_float s2 probs) as R3.
  set (t3 := newest s2 (FloatData probs)) in *.
  set (s3 := push s2 (FloatData probs)) in *.
  assert (E3 : extends s2 s3) by apply extends_push.
  rewrite (@run_bernoulli_st _ t3 probs _ s3 R3).
  change (gen s3) with (gen s).
  destruct (bernoulli (gen s) probs) as [[samples g']|e]; [|reflexivity].
  cbn [bind].
  set (s4 := {| mem := mem s3; gen := g' |}).
  assert (E4 : extends s3 s4) by apply extends_gen.
  pose proof (reads_newest_float s4 samples) as R5.
  change (newest s3 (FloatData samples)) with (newest s4 (FloatData samples)).
  set (t5 := newest s4 (FloatData samples)) in *.
  set (s5 := push s4 (FloatData samples)) in *.
  assert (E5 : extends s4 s5) by apply extends_push.
  rewrite (@run_unary_float _ _ t5 samples _ s5 R5).
  set (added := map (map (fun x => (1 - x) * inject_Z (UNK ext))) samples).
  pose proof (reads_newest_float s5 added) as R6.
  set (t6 := newest s5 (FloatData added)) in *.
  set (s6 := push s5 (FloatData added)) in *.
  assert (E6 : extends s5 s6) by apply extends_push.
  rewrite (@run_unary_float _ _ t5 samples _ s6 (proj2 E6 _ _ R5)).
  pose proof (reads_newest_long s6 (long samples)) as R7.
  set (t7 := newest s6 (LongData (long samples))) in *.
  set (s7 := push s6 (LongData (long samples))) in *.
  assert (E7 : extends s6 s7) by apply extends_push.
  assert (E07 : extends s s7)
    by (repeat (eapply extends_trans; [eassumption|]); apply extends_refl).
  rewrite (@run_binary_long _ mul_long seqs t7 sv (long samples) _ s7
             (proj1 E07 _ _ Hs) R7).
  destruct (mul_long sv (long samples)) as [kept|e]; [|reflexivity].
  cbn [bind].
  pose proof (reads_newest_long s7 kept) as R8.
  set (t8 := newest s7 (LongData kept)) in *.
  set (s8 := push s7 (LongData kept)) in *.
  assert (E8 : extends s7 s8) by apply extends_push.
  rewrite (@run_unary_float _ _ t6 added _ s8
             (proj2 E8 _ _ (proj2 E7 _ _ R6))).
  pose proof (reads_newest_long s8 (long added)) as R9.
  set (t9 := newest s8 (LongData (long added))) in *.
  set (s9 := push s8 (LongData (long added))) in *.
  assert (E9 : extends s8 s9) by apply extends_push.
  rewrite (@binary_long_run add_long t8 t9 kept (long added) s9
             (proj1 E9 _ _ R8) R9).
  destruct (add_long kept (long added)) as [r|e]; [|reflexivity].
  cbn [bind].
  exists (newest s9 (LongData r)), (push s9 (LongData r)).
  split; [reflexivity|]. split; [apply reads_newest_long|]. split; [reflexivity|].
  eapply extends_trans; [exact E07|].
  eapply extends_trans; [exact E8|].
  eapply extends_trans; [exact E9|]. apply extends_push.
Qed.

End Refinement.

Section RefinementForward.
Import Store.
Variable ext : External.
Variable self : NMTModel.t.

Lemma reads_slice_init (s : st) (t : tensor) (v : mat Z) :
  reads_long s t v -> reads_long s (slice_init t) (removelast v).
Proof.
  intros [m [Hm [Hn Hv]]]. exists m. cbn [slice_init base nrows].
  split; [exact Hm|]. split; [lia|]. subst v.
  destruct (nrows t) as [|k]; [reflexivity|].
  rewrite removelast_firstn by lia. cbn. rewrite Nat.sub_0_r. reflexivity.
Qed.

Lemma reads_tokens_extends (s s' : st) (x : tokens_ref) (v : tokens_input) :
  extends s s' -> reads_tokens s x v -> reads_tokens s' x v.
Proof.
  intros [E _]. destruct x, v; cbn [reads_tokens]; try tauto.
  - apply E.
  - intros [H1 H2]. split; [apply E; exact H1 | exact H2].
Qed.

Lemma run_read_tokens {A : Type} (x : tokens_ref) (v : tokens_input)
      (k : tokens_input -> M A) (s : st) :
  reads_tokens s x v -> mbind (read_tokens x) k s = k v s.
Proof.
  destruct x as [t|t lens], v as [m|m lens']; cbn [reads_tokens read_tokens];
    try contradiction.
  - intros H. unfold mbind at 1. rewrite (@run_read_long _ t m _ s H). reflexivity.
  - intros [H ->]. unfold mbind at 1. rewrite (@run_read_long _ t m _ s H).
    reflexivity.
Qed.

Lemma encode_refines (src : tokens_ref) (sv : tokens_input) (s : st) :
  reads_tokens s src sv ->
  Stateful.encode ext self src s =
  match NMTModel.encode ext self (gen s) sv with
  | Ok (ml, g') => Ok (ml, {| mem := mem s; gen := g' |})
  | Raise e => Raise e
  end.
Proof.
  intros H. unfold Stateful.encode. rewrite (@run_read_tokens _ src sv _ s H).
  unfold with_gen. reflexivity.
Qed.

Lemma size1_repeat {X : Type} (x : list X) (r : nat) :
  size1 (repeat x r) = match r with O => O | S _ => length x end.
Proof. destruct r; reflexivity. Qed.

Lemma reparameterize_refines (mu logvar : mat Q) (s : st) :
  match NMTModel.reparameterize ext self (gen s) mu logvar with
  | Ok (z, g') =>
      exists s', Stateful.reparameterize ext self mu logvar s = Ok (z, s') /\
                 gen s' = g' /\ extends s s'
  | Raise e => Stateful.reparameterize ext self mu logvar s = Raise e
  end.
Proof.
  unfold NMTModel.reparameterize, Stateful.reparameterize.
  set (std := map (map (fun x => exp ext (x * (1 # 2)))) logvar).
  unfold normal_.
  set (f := fun (m : mat Q) (g : rng) => draw_rows (size0 m) (size1 m) g).
  assert (Ef : f (repeat (repeat 0 (size1 std)) (size0 std)) (gen s) =
               draw_rows (size0 std) (size1 std) (gen s)).
  { unfold f. unfold size0 at 1. rewrite repeat_length, size1_repeat.
    destruct (size0 std) eqn:E0; [|rewrite repeat_length; reflexivity].
    reflexivity. }
  rewrite (@run_new_overwrite _ (size0 std) (size1 std) f _ s).
  - rewrite Ef.
    destruct (draw_rows (size0 std) (size1 std) (gen s)) as [eps g'] eqn:Ed.
    cbn [fst snd].
    set (s1 := {| mem := mem s ++ [FloatData eps]; gen := g' |}).
    assert (R1 : reads_float s1 (newest s (FloatData eps)) eps).
    { exact (reads_newest_float s eps). }
    rewrite (@run_read_float _ _ eps _ s1 R1). rewrite run_lift.
    destruct (mul_float eps std) as [es|e]; [|reflexivity]. cbn [bind].
    unfold lift. destruct (add_float es mu) as [z|e]; [|reflexivity]. cbn [bind].
    exists s1. split; [reflexivity|]. split; [reflexivity|].
    eapply extends_trans; [apply (extends_push s (FloatData eps))|].
    apply (extends_gen (push s (FloatData eps)) g').
  - rewrite Ef. pose proof (is_mat_draw_rows (size0 std) (size1 std) (gen s)) as H.
    destruct H as [H _]. exact H.
Qed.

Lemma sample_refines (mu logvar : mat Q) (s : st) :
  match NMTModel.sample ext self (gen s) mu logvar with
  | Ok (z, g') =>
      exists s', Stateful.sample ext self mu logvar s = Ok (z, s') /\
                 gen s' = g' /\ extends s s'
  | Raise e => Stateful.sample ext self mu logvar s = Raise e
  end.
Proof.
  unfold NMTModel.sample, Stateful.sample.
  destruct (negb (NMTModel.deterministic self)).
  - apply reparameterize_refines.
  - exists s. split; [reflexivity|]. split; [reflexivity | apply extends_refl].
Qed.

Lemma run_make_init_decoder_output {A : Type} (z : mat Q) (n : nat)
      (k : tensor -> M A) (s : st) :
  Decoder.hidden_size (NMTModel.decoder self) = Z.of_nat n ->
  let d := FloatData (repeat (repeat 0 n) (size0 z)) in
  mbind (Stateful.make_init_decoder_output self z) k s = k (newest s d) (push s d).
Proof.
  intros Hh d. unfold mbind at 1. unfold Stateful.make_init_decoder_output.
  rewrite Hh. unfold zero_, fill_.
  rewrite (@run_new_overwrite _ (size0 z) n
             (fun m g => (map (map (fun _ => 0)) m, g)) _ s).
  - cbn [fst snd ret]. rewrite !map_repeat. reflexivity.
  - cbn [fst]. rewrite length_map, repeat_length. reflexivity.
Qed.

Lemma decode_refines (z : mat Q) (tgt : tensor) (tv : mat Z) (step : Z) (s : st) :
  reads_long s tgt tv ->
  match NMTModel.decode ext self (gen s) z tv step with
  | Ok (x, g') =>
      exists s', Stateful.decode ext self z tgt step s = Ok (x, s') /\
                 gen s' = g' /\ extends s s'
  | Raise e => Stateful.decode ext self z tgt step s = Raise e
  end.
Proof.
  intros Ht. unfold NMTModel.decode, Stateful.decode.
  rewrite run_lift.
  destruct (NMTModel.decoder_state self z) as [ds|e]; [|reflexivity]. cbn [bind].
  unfold NMTModel.make_init_decoder_output.
  destruct (Z.ltb_spec (Decoder.hidden_size (NMTModel.decoder self)) 0)
    as [Hneg|Hpos].
  { cbn [bind]. unfold mbind at 1. unfold Stateful.make_init_decoder_output.
    unfold mbind at 1. unfold new_float.
    destruct (Z.ltb_spec (Z.of_nat (size0 z)) 0); [lia|].
    destruct (Z.ltb_spec (Decoder.hidden_size (NMTModel.decoder self)) 0);
      [reflexivity | lia]. }
  cbn [bind].
  destruct (Z_of_nat_complete _ Hpos) as [n Hn].
  rewrite (@run_make_init_decoder_output _ z n _ s Hn).
  rewrite Hn, Nat2Z.id.
  set (io := repeat (repeat 0 n) (size0 z)).
  assert (E1 : extends s (push s (FloatData io))) by apply extends_push.
  rewrite (@run_read_long _ tgt tv _ _ (proj1 E1 _ _ Ht)).
  rewrite (@run_read_float _ _ io _ _ (reads_newest_float s io)).
  rewrite run_with_gen. cbn [gen push].
  destruct (Decoder.forward ext (NMTModel.decoder self) (gen s) tv ds io step)
    as [[[x dh] g']|e]; [|reflexivity].
  cbn [bind ret]. eexists. split; [reflexivity|]. split; [reflexivity|].
  eapply extends_trans; [exact E1 | apply extends_gen].
Qed.

End RefinementForward.

(** [forward] over the store returns what the pure [forward] returns on
    the matrices that the caller's source and target tensors read as,
    and raises when it raises. *)
Lemma forward_refines (ext : External) (self : NMTModel.t)
      (src : Store.tokens_ref) (tgt : Store.tensor)
      (sv : tokens_input) (tv : mat Z) (step : Z) (s : Store.st) :
  reads_tokens s src sv -> reads_long s tgt tv ->
  match NMTModel.forward ext self (Store.gen s) (sv, tv) step with
  | Ok (r, g') =>
      exists s', Stateful.forward ext self (src, tgt) step s = Ok (r, s') /\
                 Store.gen s' = g' /\ extends s s'
  | Raise e => Stateful.forward ext self (src, tgt) step s = Raise e
  end.
Proof.
  intros Hsrc Htgt.
  unfold NMTModel.forward, Stateful.forward. cbn [fst snd].
  pose proof (reads_slice_init Htgt) as Hslice.
  (* the token-replacement step *)
  assert (Step1 :
    match (if NMTModel.training self &&
              (if Qlt_le_dec (NMTModel.feed_gt_prob self) 1 then true else false)
           then NMTModel.replace_by_unk ext self (Store.gen s) (removelast tv)
                                        (NMTModel.feed_gt_prob self)
           else Ok (removelast tv, Store.gen s)) with
    | Ok (r, g') =>
        exists t s',
          (if NMTModel.training self &&
              (if Qlt_le_dec (NMTModel.feed_gt_prob self) 1 then true else false)
           then Stateful.replace_by_unk ext self (Store.slice_init tgt)
                                        (NMTModel.feed_gt_prob self)
           else Store.ret (Store.slice_init tgt)) s = Ok (t, s') /\
          reads_long s' t r /\ Store.gen s' = g' /\ extends s s'
    | Raise e =>
        (if NMTModel.training self &&
            (if Qlt_le_dec (NMTModel.feed_gt_prob self) 1 then true else false)
         then Stateful.replace_by_unk ext self (Store.slice_init tgt)
                                      (NMTModel.feed_gt_prob self)
         else Store.ret (Store.slice_init tgt)) s = Raise e
    end).
  { destruct (NMTModel.training self &&
              (if Qlt_le_dec (NMTModel.feed_gt_prob self) 1 then true else false)).
    - apply replace_by_unk_refines. exact Hslice.
    - exists (Store.slice_init tgt), s.
      split; [reflexivity|]. split; [exact Hslice|].
      split; [reflexivity | apply extends_refl]. }
  destruct (if NMTModel.training self &&
               (if Qlt_le_dec (NMTModel.feed_gt_prob self) 1 then true else false)
            then NMTModel.replace_by_unk ext self (Store.gen s) (removelast tv)
                                         (NMTModel.feed_gt_prob self)
            else Ok (removelast tv, Store.gen s)) as [[tv1 g1]|e];
    [|cbn [bind]; unfold Store.mbind at 1; rewrite Step1; reflexivity].
  destruct Step1 as [t1 [s1 [E1 [R1 [G1 X1]]]]]. cbn [bind]. subst g1.
  (* encode *)
  pose proof (@encode_refines ext self src sv s1
                (@reads_tokens_extends s s1 src sv X1 Hsrc))
    as Step2.
  destruct (NMTModel.encode ext self (Store.gen s1) sv) as [[[mu lv] g2]|e];
    [|cbn [bind]; unfold Store.mbind at 1; rewrite E1;
      unfold Store.mbind at 1; rewrite Step2; reflexivity].
  cbn [bind].
  set (s2 := {| Store.mem := Store.mem s1; Store.gen := g2 |}) in *.
  assert (X2 : extends s1 s2) by apply extends_gen.
  (* sample *)
  pose proof (@sample_refines ext self mu lv s2) as Step3.
  cbn [Store.gen s2] in Step3.
  destruct (NMTModel.sample ext self g2 mu lv) as [[z g3]|e];
    [|cbn [bind]; unfold Store.mbind at 1; rewrite E1;
      unfold Store.mbind at 1; rewrite Step2;
      unfold Store.mbind at 1; rewrite Step3; reflexivity].
  destruct Step3 as [s3 [E3 [G3 X3]]]. cbn [bind]. subst g3.
  (* decode *)
  pose proof (@decode_refines ext self z t1 tv1 step s3
                (proj1 X3 _ _ (proj1 X2 _ _ R1))) as Step4.
  destruct (NMTModel.decode ext self (Store.gen s3) z tv1 step) as [[out g4]|e];
    [|cbn [bind]; unfold Store.mbind at 1; rewrite E1;
      unfold Store.mbind at 1; rewrite Step2;
      unfold Store.mbind at 1; rewrite E3;
      unfold Store.mbind at 1; rewrite Step4; reflexivity].
  destruct Step4 as [s4 [E4 [G4 X4]]]. cbn [bind].
  exists s4. split.
  - unfold Store.mbind at 1. rewrite E1.
    unfold Store.mbind at 1. rewrite Step2.
    unfold Store.mbind at 1. rewrite E3.
    unfold Store.mbind at 1. rewrite E4. reflexivity.
  - split; [exact G4|].
    eapply extends_trans; [exact X1|].
    eapply extends_trans; [exact X2|].
    eapply extends_trans; [exact X3 | exact X4].
Qed.

(** C9. When [forward] returns, every storage that existed before the
    call holds what it held: the storages of the caller's source and
    target tensors among them, so both read as before, also in training
    mode with token replacement; and what [forward] returns is the value
    of the pure [forward] on the matrices they read as.  The tensor that
    [replace_by_unk] returns lies over a storage created during the
    call, not over the storage of the target it was given. *)
Theorem forward_reads_only (ext : External) (self : NMTModel.t)
        (src : Store.tokens_ref) (tgt : Store.tensor) (step : Z)
        (s s' : Store.st) (r : tensor3 Q * mat Q * mat Q) :
  Stateful.forward ext self (src, tgt) step s = Ok (r, s') ->
  (forall loc d, nth_error (Store.mem s) loc = Some d ->
                 nth_error (Store.mem s') loc = Some d) /\
  (forall v, Store.read_tokens src s = Ok (v, s) ->
             Store.read_tokens src s' = Ok (v, s')) /\
  (forall v, Store.read_long tgt s = Ok (v, s) ->
             Store.read_long tgt s' = Ok (v, s')) /\
  (forall sv tv, reads_tokens s src sv -> reads_long s tgt tv ->
     reads_tokens s' src sv /\ reads_long s' tgt tv /\
     NMTModel.forward ext self (Store.gen s) (sv, tv) step
     = Ok (r, Store.gen s')) /\
  (forall seqs prob s0 t s1,
      Stateful.replace_by_unk ext self seqs prob s0 = Ok (t, s1) ->
      (length (Store.mem s0) <= Store.base t)%nat /\
      forall loc d, nth_error (Store.mem s0) loc = Some d ->
                    nth_error (Store.mem s1) loc = Some d).
Proof.
  intros H.
  destruct (@keeps_forward ext self (length (Store.mem s)) (src, tgt) step
              s r s' (le_n _) H) as [F _].
  pose proof (firstn_all_prefix _ _ F) as Old.
  assert (Rd : forall t v, Store.read_long t s = Ok (v, s) ->
                           Store.read_long t s' = Ok (v, s')).
  { intros t v. unfold Store.read_long.
    destruct (nth_error (Store.mem s) (Store.base t)) as [d|] eqn:E; [|discriminate].
    rewrite (Old _ _ E). destruct d; [|discriminate].
    intros Hv. injection Hv as <-. reflexivity. }
  split; [exact Old|]. split; [|split; [apply Rd|split]].
  - intros v. destruct src as [t|t lens]; cbn [Store.read_tokens]; unfold Store.mbind;
      destruct (Store.read_long t s) as [[w s0]|e] eqn:E; try discriminate;
      intros Hv; unfold Store.ret in Hv; injection Hv as <- <-;
      rewrite (Rd t w E); reflexivity.
  - intros sv tv Hsrc Htgt.
    pose proof (@forward_refines ext self src tgt sv tv step s Hsrc Htgt) as Ref.
    destruct (NMTModel.forward ext self (Store.gen s) (sv, tv) step)
      as [[r0 g0]|e]; [|rewrite H in Ref; discriminate Ref].
    destruct Ref as [s0 [E0 [G0 X0]]]. rewrite H in E0. injection E0 as <- <-.
    split; [exact (@reads_tokens_extends s s' src sv X0 Hsrc)|].
    split; [exact (proj1 X0 _ _ Htgt)|]. rewrite G0. reflexivity.
  - intros seqs prob s0 t s1 Hr.
    destruct (@keeps_replace_by_unk ext self (length (Store.mem s0)) seqs prob
                s0 t s1 (le_n _) Hr) as [F0 [_ B0]].
    split; [exact B0 | apply firstn_all_prefix; exact F0].
Qed.

Lemma forward_reads_only_witness :
  let self := Instance.model [0%nat] true false false false 0 0 in
  exists r s',
    Stateful.forward Instance.ext self (Instance.src_ref, Instance.tgt_ref) 0
                     Instance.store0 = Ok (r, s') /\
    (forall loc d, nth_error (Store.mem Instance.store0) loc = Some d ->
                   nth_error (Store.mem s') loc = Some d) /\
    (forall v, Store.read_tokens Instance.src_ref Instance.store0
               = Ok (v, Instance.store0) ->
               Store.read_tokens Instance.src_ref s' = Ok (v, s')) /\
    (forall v, Store.read_long Instance.tgt_ref Instance.store0
               = Ok (v, Instance.store0) ->
               Store.read_long Instance.tgt_ref s' = Ok (v, s')) /\
    (forall sv tv,
        reads_tokens Instance.store0 Instance.src_ref sv ->
        reads_long Instance.store0 Instance.tgt_ref tv ->
        reads_tokens s' Instance.src_ref sv /\
        reads_long s' Instance.tgt_ref tv /\
        NMTModel.forward Instance.ext self (Store.gen Instance.store0) (sv, tv) 0
        = Ok (r, Store.gen s')) /\
    (forall seqs prob s0 t s1,
        Stateful.replace_by_unk Instance.ext self seqs prob s0 = Ok (t, s1) ->
        (length (Store.mem s0) <= Store.base t)%nat /\
        forall loc d, nth_error (Store.mem s0) loc = Some d ->
                      nth_error (Store.mem s1) loc = Some d).
Proof.
  intros self.
  assert (E : exists r s',
             Stateful.forward Instance.ext self
               (Instance.src_ref, Instance.tgt_ref) 0 Instance.store0
             = Ok (r, s')) by (do 2 eexists; vm_compute; reflexivity).
  destruct E as [r [s' E]].
  exists r, s'. split; [exact E|].
  exact (@forward_reads_only Instance.ext self Instance.src_ref
           Instance.tgt_ref 0 Instance.store0 s' r E).
Defined.

(** * Further properties of the code *)

(** ** [StackedLSTM.forward] *)





Lemma layers_loop_top (ext : External) (L : nat) (h_0 c_0 : tensor3 Q) :
  forall (idx : list nat) input h_1 c_1 g out h_1' c_1' g',
    StackedLSTM.layers_loop ext L idx input h_0 c_0 h_1 c_1 g
    = Ok ((out, (h_1', c_1')), g') ->
    idx <> [] -> (last idx 0 + 1)%nat = L ->
    out = last h_1' [].
Proof.
  induction idx as [|i idx IH]; intros input h_1 c_1 g out h_1' c_1' g' H Hne Hl.
  - contradiction.
  - cbn [StackedLSTM.layers_loop] in H.
    apply bind_ok in H. destruct H as [h0i [_ H]].
    apply bind_ok in H. destruct H as [c0i [_ H]].
    destruct (lstm_cell ext i input (h0i, c0i)) as [h_1_i c_1_i].
    destruct idx as [|j idx].
    + cbn [last] in Hl. apply Nat.eqb_eq in Hl. rewrite Hl in H.
      cbn [negb StackedLSTM.layers_loop] in H.
      injection H as <- <- _ _. rewrite last_last. reflexivity.
    + destruct (if negb (i + 1 =? L)%nat then dropout_fn ext g h_1_i
                else (h_1_i, g)) as [input' g1].
      eapply IH; [exact H | discriminate | exact Hl].
Qed.

Lemma last_seq (s n : nat) : last (seq s (S n)) 0%nat = (s + n)%nat.
Proof.
  rewrite seq_S, last_last. reflexivity.
Qed.

(** X2.  The vector [StackedLSTM.forward] returns as its output is the new
    hidden state of the top layer, as it is: dropout sits between the
    layers and is not applied after the last one.  With a single layer no
    dropout is applied at all, so the generator is left where it was. *)
Theorem StackedLSTM_forward_output_is_top_layer (ext : External) (L : nat)
        (g g' : rng) (input out : mat Q) (hidden : state)
        (h_1 c_1 : tensor3 Q) :
  StackedLSTM.forward ext L g input hidden = Ok ((out, (h_1, c_1)), g') ->
  out = last h_1 [] /\ (L = 1%nat -> g' = g).
Proof.
  unfold StackedLSTM.forward. destruct hidden as [h_0 c_0]. intros H.
  apply bind_ok in H. destruct H as [[[out0 [h c]] g0] [Hloop H]].
  apply bind_ok in H. destruct H as [h' [Hs1 H]].
  apply bind_ok in H. destruct H as [c' [Hs2 H]].
  injection H as -> -> -> ->.
  split.
  - destruct L as [|l].
    + cbn [seq StackedLSTM.layers_loop] in Hloop.
      injection Hloop as _ <- _ _. discriminate Hs1.
    + apply stack_ok in Hs1. subst h.
      eapply layers_loop_top; [exact Hloop | rewrite seq_S; intros E;
        apply app_eq_nil in E; destruct E; discriminate |].
      rewrite last_seq. lia.
  - intros ->. cbn [seq StackedLSTM.layers_loop] in Hloop.
    apply bind_ok in Hloop. destruct Hloop as [h0i [_ Hloop]].
    apply bind_ok in Hloop. destruct Hloop as [c0i [_ Hloop]].
    destruct (lstm_cell ext 0 input (h0i, c0i)) as [h_1_i c_1_i].
    cbn in Hloop. injection Hloop as _ _ _ <-. reflexivity.
Qed.

Lemma StackedLSTM_forward_output_is_top_layer_witness :
  [[1]] = last [[[1]]] ([] : mat Q) /\ (1%nat = 1%nat -> Instance.g0 = Instance.g0).
Proof.
  apply (@StackedLSTM_forward_output_is_top_layer Instance.ext 1
           Instance.g0 Instance.g0 [[1]] [[1]] ([[[0]]], [[[0]]])
           [[[1]]] [[[0]]]).
  reflexivity.
Defined.

(** ** [Decoder.forward] *)

Lemma stack_nonempty {X : Type} (l l' : list X) : stack l = Ok l' -> l' <> [].
Proof.
  destruct l; simpl; intros H; [discriminate|].
  injection H as <-. discriminate.
Qed.

Lemma loop_outputs_prefix (ext : External) (self : Decoder.t)
      (emb : tensor3 Q) :
  forall i input_t hidden (outputs : tensor3 Q) g,
    Decoder.loop ext self i emb input_t hidden outputs g =
    match Decoder.loop ext self i emb input_t hidden [] g with
    | Ok ((o, h), g') => Ok ((outputs ++ o, h), g')
    | Raise e => Raise e
    end.
Proof.
  induction emb as [|emb_t emb IH]; intros i input_t hidden outputs g.
  - cbn [Decoder.loop]. rewrite app_nil_r. reflexivity.
  - cbn [Decoder.loop].
    destruct (Decoder.step ext self i emb_t input_t hidden g)
      as [[[[logit it] h] g1]|e]; cbn [bind]; [|reflexivity].
    rewrite (IH (S i) it h (outputs ++ [logit]) g1).
    cbn [app]. rewrite (IH (S i) it h [logit] g1).
    destruct (Decoder.loop ext self (S i) emb it h [] g1)
      as [[[o h'] g']|e]; [|reflexivity].
    rewrite <- app_assoc. reflexivity.
Qed.

Lemma step_static (ext : External) (self : Decoder.t) (i i' : nat)
      (emb_t input_t input_t' : mat Q) (hidden : state) (g : rng) :
  Decoder.dynamic_decode self = false ->
  Decoder.step ext self i emb_t input_t hidden g =
  Decoder.step ext self i' emb_t input_t' hidden g.
Proof.
  intros Hd. unfold Decoder.step, Decoder.rnn_input. rewrite Hd. reflexivity.
Qed.

Lemma step_static_carries (ext : External) (self : Decoder.t) (i : nat)
      (emb_t input_t it : mat Q) (hidden h : state) (g g' : rng)
      (logit : mat Q) :
  Decoder.dynamic_decode self = false ->
  Decoder.step ext self i emb_t input_t hidden g = Ok ((logit, it, h), g') ->
  it = emb_t.
Proof.
  intros Hd. unfold Decoder.step, Decoder.rnn_input. rewrite Hd.
  cbn [negb orb]. intros H.
  apply bind_ok in H. destruct H as [[[out h1] g1] [_ H]].
  destruct (dropout_fn ext g1 out) as [out' g2].
  cbn [bind] in H. injection H as _ <- _ _. reflexivity.
Qed.

Lemma loop_static (ext : External) (self : Decoder.t) (emb : tensor3 Q) :
  Decoder.dynamic_decode self = false ->
  forall i i' input_t input_t' hidden outputs g,
    Decoder.loop ext self i emb input_t hidden outputs g =
    Decoder.loop ext self i' emb input_t' hidden outputs g.
Proof.
  intros Hd. induction emb as [|emb_t emb IH];
    intros i i' input_t input_t' hidden outputs g; [reflexivity|].
  cbn [Decoder.loop].
  rewrite (@step_static ext self i i' emb_t input_t input_t' hidden g Hd).
  destruct (Decoder.step ext self i' emb_t input_t' hidden g)
    as [[[[logit it] h] g1]|e]; cbn [bind]; [|reflexivity].
  apply IH.
Qed.

Lemma loop_app (ext : External) (self : Decoder.t) (e2 : tensor3 Q) :
  Decoder.dynamic_decode self = false ->
  forall (e1 : tensor3 Q) i input_t hidden outputs g,
    Decoder.loop ext self i (e1 ++ e2) input_t hidden outputs g =
    match Decoder.loop ext self i e1 input_t hidden outputs g with
    | Ok ((o1, h1), g1) => Decoder.loop ext self 0 e2 [] h1 o1 g1
    | Raise e => Raise e
    end.
Proof.
  intros Hd. induction e1 as [|emb_t e1 IH];
    intros i input_t hidden outputs g.
  - cbn [app Decoder.loop]. apply loop_static, Hd.
  - cbn [app Decoder.loop].
    destruct (Decoder.step ext self i emb_t input_t hidden g)
      as [[[[logit it] h] g1]|e]; cbn [bind]; [|reflexivity].
    apply IH.
Qed.

(** X3.  With dynamic decoding off, [Decoder.forward] can be run piecewise:
    decoding a first stretch of target rows, and then the following rows
    from the state and the generator the first run returned, gives the
    logits of the two runs one after the other, and the final state, of
    decoding all the rows at once. *)
Theorem Decoder_forward_app (ext : External) (self : Decoder.t)
        (g g1 g2 : rng) (t1 t2 : mat Z) (hidden h1 h2 : state)
        (o1 o2 : tensor3 Q) (io io1 io2 : mat Q) (step step1 step2 : Z) :
  Decoder.dynamic_decode self = false ->
  Decoder.forward ext self g t1 hidden io1 step1 = Ok ((o1, h1), g1) ->
  Decoder.forward ext self g1 t2 h1 io2 step2 = Ok ((o2, h2), g2) ->
  Decoder.forward ext self g (t1 ++ t2) hidden io step
  = Ok ((o1 ++ o2, h2), g2).
Proof.
  intros Hd H1 H2. unfold Decoder.forward in *.
  apply bind_ok in H1. destruct H1 as [[[o1' h1'] g1'] [L1 H1]].
  apply bind_ok in H1. destruct H1 as [o1'' [S1 H1]].
  injection H1 as -> -> ->.
  pose proof (stack_nonempty _ S1) as Hne. apply stack_ok in S1. subst o1'.
  apply bind_ok in H2. destruct H2 as [[[o2' h2'] g2'] [L2 H2]].
  apply bind_ok in H2. destruct H2 as [o2'' [S2 H2]].
  injection H2 as -> -> ->. apply stack_ok in S2. subst o2'.
  unfold Decoder.embed in *. rewrite map_app.
  rewrite (@loop_app ext self _ Hd), L1.
  rewrite loop_outputs_prefix, L2. cbn [bind].
  destruct o1 as [|x o1]; [contradiction | reflexivity].
Qed.

Lemma Decoder_forward_app_witness :
  Decoder.forward Instance.ext
    (Decoder.init (Instance.opt [] false false false 0)) Instance.g0
    ([[2%Z]] ++ [[7%Z]; [3%Z]]) ([[[0]]], [[[0]]]) [] 0%Z
  = Ok (([[[2; 0]]] ++ [[[9; 0]]; [[12; 0]]], ([[[12]]], [[[0]]])),
        Instance.g0).
Proof.
  apply (@Decoder_forward_app Instance.ext
           (Decoder.init (Instance.opt [] false false false 0))
           Instance.g0 Instance.g0 Instance.g0 [[2%Z]] [[7%Z]; [3%Z]]
           ([[[0]]], [[[0]]]) ([[[2]]], [[[0]]]) ([[[12]]], [[[0]]])
           [[[2; 0]]] [[[9; 0]]; [[12; 0]]] [] [] [] 0%Z 0%Z 0%Z).
  - reflexivity.
  - reflexivity.
  - reflexivity.
Defined.




(** ** The index fed back under dynamic decoding *)

Lemma argmax_from_spec :
  forall (l pre : list Q) (best : Q) (bi : nat),
    (bi < length pre)%nat ->
    nth bi pre 0 = best ->
    (forall j, (j < length pre)%nat -> nth j pre 0 <= best) ->
    (forall j, (j < bi)%nat -> nth j pre 0 < best) ->
    let r := Decoder.argmax_from best bi (length pre) l in
    (r < length (pre ++ l))%nat /\
    (forall j, (j < length (pre ++ l))%nat ->
       nth j (pre ++ l) 0 <= nth r (pre ++ l) 0) /\
    (forall j, (j < r)%nat -> nth j (pre ++ l) 0 < nth r (pre ++ l) 0).
Proof.
  induction l as [|x l IH]; intros pre best bi Hbi Hbest Hle Hlt.
  - cbn [Decoder.argmax_from]. rewrite app_nil_r, Hbest. auto.
  - cbn [Decoder.argmax_from].
    replace (pre ++ x :: l) with ((pre ++ [x]) ++ l)
      by (rewrite <- app_assoc; reflexivity).
    replace (S (length pre)) with (length (pre ++ [x]))
      by (rewrite length_app; cbn [length]; lia).
    destruct (Qlt_le_dec best x) as [Hx|Hx].
    + apply IH.
      * rewrite length_app. cbn [length]. lia.
      * apply nth_middle.
      * intros j Hj. rewrite length_app in Hj. cbn [length] in Hj.
        destruct (Nat.eq_dec j (length pre)) as [->|Hne].
        -- rewrite nth_middle. apply Qle_refl.
        -- rewrite app_nth1 by lia.
           apply Qle_trans with best; [apply Hle; lia | apply Qlt_le_weak, Hx].
      * intros j Hj. rewrite app_nth1 by lia.
        apply Qle_lt_trans with best; [apply Hle; lia | exact Hx].
    + apply IH.
      * rewrite length_app. cbn [length]. lia.
      * rewrite app_nth1 by lia. exact Hbest.
      * intros j Hj. rewrite length_app in Hj. cbn [length] in Hj.
        destruct (Nat.eq_dec j (length pre)) as [->|Hne].
        -- rewrite nth_middle. exact Hx.
        -- rewrite app_nth1 by lia. apply Hle. lia.
      * intros j Hj. rewrite app_nth1 by lia. apply Hlt, Hj.
Qed.

Lemma argmax_row_spec (row : list Q) (i : Z) :
  Decoder.argmax_row row = Ok i -> is_argmax row i.
Proof.
  destruct row as [|x l]; [discriminate|].
  cbn [Decoder.argmax_row]. intros H. injection H as <-.
  destruct (@argmax_from_spec l [x] x 0%nat) as [H1 [H2 H3]].
  - cbn [length]. lia.
  - reflexivity.
  - intros j Hj. cbn [length] in Hj. replace j with 0%nat by lia. apply Qle_refl.
  - intros j Hj. lia.
  - cbn [length app] in *. unfold is_argmax. rewrite Nat2Z.id.
    cbn [length]. split; [lia | split; assumption].
Qed.

Lemma map_result_Forall2 {X Y : Type} (f : X -> result Y) (l : list X) :
  forall ys, Decoder.map_result f l = Ok ys ->
             Forall2 (fun x y => f x = Ok y) l ys.
Proof.
  induction l as [|x l IH]; intros ys H; cbn [Decoder.map_result] in H.
  - injection H as <-. constructor.
  - apply bind_ok in H. destruct H as [y [Hy H]].
    apply bind_ok in H. destruct H as [ys' [Hys H]].
    injection H as <-. constructor; [exact Hy | apply IH, Hys].
Qed.

(** X5.  Under dynamic decoding, the vector a timestep leaves for the next
    one is the embedding of one token per example: the index of the
    largest entry of that example's logit row, the first such index if
    several entries are largest, and so a valid index into the row. *)
Theorem step_feeds_back_argmax (ext : External) (self : Decoder.t) (i : nat)
        (emb_t input_t input_t' logit : mat Q) (hidden hidden' : state)
        (g g' : rng) :
  Decoder.dynamic_decode self = true ->
  Decoder.step ext self i emb_t input_t hidden g
  = Ok ((logit, input_t', hidden'), g') ->
  exists indices,
    input_t' = Decoder.embed_row ext indices /\
    Forall2 is_argmax logit indices.
Proof.
  intros Hd H. unfold Decoder.step in H. rewrite Hd in H.
  apply bind_ok in H. destruct H as [[[out h1] g1] [_ H]].
  destruct (dropout_fn ext g1 out) as [out' g2].
  apply bind_ok in H. destruct H as [it [Hit H]].
  injection H as <- <- _ _.
  apply bind_ok in Hit. destruct Hit as [idx [Hidx Hit]].
  injection Hit as <-. exists idx. split; [reflexivity|].
  apply map_result_Forall2 in Hidx.
  eapply Forall2_impl; [|exact Hidx].
  intros row k. apply argmax_row_spec.
Qed.

Lemma step_feeds_back_argmax_witness :
  exists indices,
    [[1]] = Decoder.embed_row Instance.ext indices /\
    Forall2 is_argmax [[-2; 0]] indices.
Proof.
  apply (@step_feeds_back_argmax Instance.ext
           (Decoder.init (Instance.opt [] false false true 0)) 0
           [[-2]] [] [[1]] [[-2; 0]] ([[[0]]], [[[0]]]) ([[[-2]]], [[[0]]])
           Instance.g0 Instance.g0).
  - reflexivity.
  - reflexivity.
Defined.

(** ** [_fix_enc_hidden] *)

Lemma merge_pairs_entries {X : Type} (B c : nat) :
  forall (L : nat) (h : tensor3 X),
    is_tensor3 (2 * L) B c h ->
    forall k i, (k < L)%nat -> (i < B)%nat ->
      nth i (nth k (map (map (@concat X))
                        (map (transpose_n B) (group L 2 h))) []) [] =
      nth i (nth (2 * k) h []) [] ++ nth i (nth (2 * k + 1) h []) [].
Proof.
  induction L as [|L IH]; intros h Hh k i Hk Hi; [lia|].
  replace (2 * S L)%nat with (S (S (2 * L))) in Hh by lia.
  destruct h as [|f [|bk rest]]; try (destruct Hh; discriminate).
  apply is_tensor3_cons in Hh. destruct Hh as [Hf Hh].
  apply is_tensor3_cons in Hh. destruct Hh as [Hb Hr].
  cbn [group firstn skipn map].
  destruct k as [|k].
  - cbn [nth Nat.mul Nat.add].
    rewrite (transpose_n_spec (X:=list X) [] (n:=B) (t:=[f; bk]))
      by (constructor; [apply Hf | constructor; [apply Hb | constructor]]).
    rewrite map_map. rewrite nth_map_seq by lia.
    cbn [map concat]. rewrite app_nil_r. reflexivity.
  - replace (2 * S k)%nat with (S (S (2 * k))) by lia.
    cbn [nth Nat.add].
    rewrite (@IH rest Hr k i ltac:(lia) Hi). reflexivity.
Qed.

(** X6.  What [_fix_enc_hidden] computes.  With an encoder that is not
    bidirectional it returns its argument.  With a bidirectional one, from
    a state of [2 * L] slices (at least two) it makes [L] slices twice as
    wide: slice [k] holds, for every batch element, that element's vector
    in slice [2 * k] followed by its vector in slice [2 * k + 1].  A state
    with an odd number of non-empty slices is refused. *)
Theorem fix_enc_hidden_pairs {X : Type} (self : NMTModel.t) (l b c : nat)
        (h : tensor3 X) :
  (Encoder.num_directions (NMTModel.encoder self) <> 2%Z ->
   NMTModel._fix_enc_hidden self h = Ok h) /\
  (Encoder.num_directions (NMTModel.encoder self) = 2%Z ->
   is_tensor3 (2 * S l) (S b) c h ->
   exists m,
     NMTModel._fix_enc_hidden self h = Ok m /\
     is_tensor3 (S l) (S b) (2 * c) m /\
     forall k i, (k < S l)%nat -> (i < S b)%nat ->
       nth i (nth k m []) [] =
       nth i (nth (2 * k) h []) [] ++ nth i (nth (2 * k + 1) h []) []) /\
  (Encoder.num_directions (NMTModel.encoder self) = 2%Z ->
   is_tensor3 (2 * l + 1) (S b) (S c) h ->
   NMTModel._fix_enc_hidden self h = Raise RuntimeError).
Proof.
  split; [|split].
  - intros Hd. unfold NMTModel._fix_enc_hidden.
    destruct (Z.eqb_spec (Encoder.num_directions (NMTModel.encoder self)) 2);
      [contradiction | reflexivity].
  - intros Hd Hh. unfold NMTModel._fix_enc_hidden.
    rewrite Hd. cbn [Z.eqb Pos.eqb].
    assert (S0 : size0 h = (2 * S l)%nat) by (destruct Hh; assumption).
    assert (S1 : size1 h = S b).
    { destruct h as [|m h']; [destruct Hh; discriminate|].
      replace (2 * S l)%nat with (S (S (2 * l))) in Hh by lia.
      apply is_tensor3_cons in Hh. unfold size1. cbn [hd]. apply Hh. }
    rewrite S0, S1.
    replace ((2 * S l) mod 2)%nat with 0%nat
      by (rewrite Nat.mul_comm; symmetry; apply Nat.Div0.mod_mul).
    replace ((2 * S l) / 2)%nat with (S l)
      by (rewrite Nat.mul_comm; symmetry; apply Nat.div_mul; lia).
    cbn [Nat.eqb orb].
    eexists. split; [reflexivity|]. split.
    + apply (merge_pairs_spec (S l) Hh).
    + apply (@merge_pairs_entries X (S b) c (S l) h Hh).
  - intros Hd Hh. unfold NMTModel._fix_enc_hidden.
    rewrite Hd. cbn [Z.eqb Pos.eqb].
    assert (S0 : size0 h = (2 * l + 1)%nat) by (destruct Hh; assumption).
    replace (2 * l + 1)%nat with (S (2 * l)) in Hh by lia.
    destruct h as [|m h']; [destruct Hh; discriminate|].
    apply is_tensor3_cons in Hh. destruct Hh as [[Lm Fm] _].
    destruct m as [|row m']; [discriminate|].
    apply Forall_inv in Fm.
    rewrite S0. unfold size1, size2. cbn [hd]. rewrite Fm. cbn [length] in *.
    replace ((2 * l + 1) mod 2)%nat with 1%nat
      by (rewrite Nat.add_comm, Nat.mul_comm, Nat.Div0.mod_add; reflexivity).
    injection Lm as ->.
    destruct (Nat.eqb_spec ((2 * l + 1) * S b * S c) 0) as [E|_]; [nia|].
    reflexivity.
Qed.

Lemma fix_enc_hidden_pairs_witness :
  exists m,
    NMTModel._fix_enc_hidden Bidirectional.model Bidirectional.h = Ok m /\
    is_tensor3 1 1 2 m /\
    forall k i, (k < 1)%nat -> (i < 1)%nat ->
      nth i (nth k m []) [] =
      nth i (nth (2 * k) Bidirectional.h []) [] ++
      nth i (nth (2 * k + 1) Bidirectional.h []) [].
Proof.
  apply (proj1 (proj2 (@fix_enc_hidden_pairs Q Bidirectional.model 0 0 1
                         Bidirectional.h))).
  - reflexivity.
  - split; [reflexivity|].
    repeat constructor.
Defined.

(** ** Targets and probabilities [forward] refuses *)




(** ** [replace_by_unk] without a GPU *)

Lemma map2_repeat_r {X Y Z : Type} (f : X -> Y -> Z) (l : list X) (v : Y) :
  map2 f l (repeat v (length l)) = map (fun x => f x v) l.
Proof.
  unfold map2. induction l as [|x l IH]; [reflexivity|].
  cbn [length repeat combine map fst snd]. rewrite IH. reflexivity.
Qed.

Lemma map_id_on {X : Type} (f : X -> X) (l : list X) :
  Forall (fun x => f x = x) l -> map f l = l.
Proof.
  induction 1 as [|x l Hx _ IH]; [reflexivity|].
  cbn [map]. rewrite Hx, IH. reflexivity.
Qed.

(** An operand of one row is broadcast over the rows of the other. *)
Lemma pointwise2_row {X Y Z : Type} (f : X -> Y -> Z) (n c : nat)
      (x : mat X) (row : list Y) :
  is_mat (S (S n)) c x -> length row = c ->
  pointwise2 f x [row] = Ok (map (fun r => map (fun a => f (fst a) (snd a))
                                              (combine r row)) x).
Proof.
  intros Hx Hr.
  assert (E : pointwise2 f x [row] = pointwise2 f x (repeat row (length x))).
  { unfold pointwise2 at 1. unfold bcast at 1.
    destruct Hx as [Lx _]. rewrite Lx. cbn [length Nat.eqb].
    destruct x as [|a [|b x']]; try discriminate.
    unfold pointwise2. rewrite bcast_same_length by (rewrite repeat_length; lia).
    reflexivity. }
  rewrite E.
  rewrite (@pointwise2_same_shape X Y Z f (S (S n)) c x (repeat row (length x)) Hx).
  - rewrite map2_repeat_r. reflexivity.
  - destruct Hx as [Lx _]. rewrite Lx. split; [apply repeat_length|].
    rewrite Forall_forall. intros r Hin. apply repeat_spec in Hin.
    subst r. exact Hr.
Qed.

Lemma map_combine_repeat {X Y Z : Type} (f : X * Y -> Z) (l : list X)
      (v : Y) (n : nat) :
  length l = n ->
  map f (combine l (repeat v n)) = map (fun x => f (x, v)) l.
Proof.
  intros <-. induction l as [|x l IH]; [reflexivity|].
  cbn [length repeat combine map]. rewrite IH. reflexivity.
Qed.

(** A row of tokens combined with a row that holds one value [v]. *)
Lemma rows_combine_const (f : Z * Z -> Z) (v : Z) (n B : nat) (seqs : mat Z) :
  is_mat n B seqs -> Forall (Forall (fun x => f (x, v) = x)) seqs ->
  map (fun row => map f (combine row (repeat v B))) seqs = seqs.
Proof.
  intros [_ Hm] Hf. apply map_id_on.
  rewrite Forall_forall in *. intros row Hin.
  rewrite map_combine_repeat by (apply Hm, Hin).
  apply map_id_on. apply Hf, Hin.
Qed.

Lemma bernoulli_ones (g : rng) (B : nat) :
  bernoulli g [repeat 1 B] = Ok ([repeat 1 B], advance g B).
Proof.
  assert (Hp : is_mat 1 B [repeat 1 B]).
  { split; [reflexivity|]. constructor; [apply repeat_length | constructor]. }
  destruct (@bernoulli_spec g [repeat 1 B] 0 B Hp) as [samples [E [Hs Hn]]].
  { cbn [forallb]. rewrite forallb_repeat by reflexivity. reflexivity. }
  rewrite E. rewrite Nat.mul_1_l. f_equal. f_equal.
  destruct samples as [|row [|row' rest]]; try (destruct Hs; discriminate).
  f_equal. destruct Hs as [_ Fs]. apply Forall_inv in Fs.
  apply (nth_ext _ _ 0 0).
  - rewrite repeat_length. exact Fs.
  - intros j Hj. rewrite Fs in Hj.
    specialize (Hn 0%nat j ltac:(lia) Hj). cbn [nth] in Hn. rewrite Hn.
    rewrite !nth_repeat_in by assumption. apply bernoulli1_one.
Qed.

(** X8.  Without a GPU [replace_by_unk] never replaces a token.  It builds
    [seq_len - 2] rows of [prob] under the row of ones, so on a target of
    two rows it samples from the row of ones alone and, whatever [prob]
    is, returns the target as it was, after drawing one variate per batch
    element; on a target of any other number of rows it does not return. *)
Theorem replace_by_unk_cpu_never_replaces (ext : External) (self : NMTModel.t)
        (g g' : rng) (n B : nat) (seqs r : mat Z) (prob : Q) :
  NMTModel.gpus self = [] ->
  is_mat n B seqs -> Forall (Forall in_int64) seqs ->
  (n = 2%nat ->
   NMTModel.replace_by_unk ext self g seqs prob = Ok (seqs, advance g B)) /\
  (NMTModel.replace_by_unk ext self g seqs prob = Ok (r, g') ->
   n = 2%nat /\ r = seqs /\ g' = advance g B).
Proof.
  intros Hg Hm Hi.
  assert (Two : n = 2%nat ->
    NMTModel.replace_by_unk ext self g seqs prob = Ok (seqs, advance g B)).
  { intros ->. unfold NMTModel.replace_by_unk. rewrite Hg.
    cbn [NMTModel.truthy].
    assert (S0 : size0 seqs = 2%nat) by (destruct Hm; assumption).
    rewrite S0, (is_mat_size1 Hm).
    rewrite !full_ok by lia. cbn [bind].
    change (cat0 _ _) with [repeat 1 B].
    rewrite bernoulli_ones. cbn [bind].
    unfold long. cbn [map]. rewrite !map_repeat.
    unfold mul_long, add_long.
    rewrite (@pointwise2_row _ _ _ _ 0 B seqs (repeat (Qtrunc 1) B) Hm)
      by apply repeat_length.
    cbn [bind].
    rewrite (@rows_combine_const _ (Qtrunc 1) 2 B seqs Hm).
    2:{ eapply Forall_impl; [|exact Hi]. intros row Hrow.
        eapply Forall_impl; [|exact Hrow]. intros x Hx. cbn [fst snd].
        change (Qtrunc 1) with 1%Z. rewrite Z.mul_1_r. apply wrap64_id, Hx. }
    rewrite (@pointwise2_row _ _ _ _ 0 B seqs
               (repeat (Qtrunc ((1 - 1) * inject_Z (UNK ext))) B) Hm)
      by apply repeat_length.
    cbn [bind].
    rewrite (@rows_combine_const _ (Qtrunc ((1 - 1) * inject_Z (UNK ext)))
               2 B seqs Hm).
    2:{ eapply Forall_impl; [|exact Hi]. intros row Hrow.
        eapply Forall_impl; [|exact Hrow]. intros x Hx. cbn [fst snd].
        change (Qtrunc ((1 - 1) * inject_Z (UNK ext))) with 0%Z.
        rewrite Z.add_0_r. apply wrap64_id, Hx. }
    reflexivity. }
  split; [exact Two|].
  intros H.
  destruct (Nat.eq_dec n 2) as [E|E].
  { rewrite (Two E) in H. injection H as <- <-. auto. }
  exfalso.
  destruct (Nat.le_gt_cases 3 n) as [H3|H3].
  { rewrite (@replace_by_unk_cpu_mismatch ext self g seqs prob Hg) in H;
      [discriminate | destruct Hm; lia]. }
  unfold NMTModel.replace_by_unk in H. rewrite Hg in H.
  cbn [NMTModel.truthy] in H.
  assert (S0 : (Z.of_nat (size0 seqs) - 2 < 0)%Z)
    by (destruct Hm as [Lm _]; unfold size0; lia).
  unfold full at 1 in H. apply Z.ltb_lt in S0. rewrite S0 in H.
  discriminate.
Qed.

Lemma replace_by_unk_cpu_never_replaces_witness :
  NMTModel.replace_by_unk Instance.ext
    (Instance.model [] true false false false 0 0) Instance.g0
    [[2%Z]; [7%Z]] 0
  = Ok ([[2%Z]; [7%Z]], advance Instance.g0 1).
Proof.
  assert (Hm : is_mat 2 1 [[2%Z]; [7%Z]])
    by (split; [reflexivity | repeat constructor]).
  assert (Hi : Forall (Forall in_int64) [[2%Z]; [7%Z]])
    by (repeat constructor; unfold in_int64; lia).
  exact (proj1 (@replace_by_unk_cpu_never_replaces Instance.ext
                  (Instance.model [] true false false false 0 0)
                  Instance.g0 Instance.g0 2 1 [[2%Z]; [7%Z]] [] 0
                  eq_refl Hm Hi) eq_refl).
Defined.

(** ** [encode], example by example *)

Lemma Linear_forward_rows (l : Linear) (x : mat Q) :
  forall y, Linear_forward l x = Ok y ->
            Forall2 (fun row r => Linear_row l row = Ok r) x y.
Proof.
  unfold Linear_forward.
  induction x as [|row x IH]; intros y H; cbn [length repeat zip_exact] in H.
  - injection H as <-. constructor.
  - apply bind_ok in H. destruct H as [r [Hr H]].
    apply bind_ok in H. destruct H as [rs [Hrs H]].
    injection H as <-. constructor; [exact Hr | apply IH, Hrs].
Qed.

Lemma Forall2_nth_pair {X Y : Type} (P : X -> Y -> Prop) (l1 : list X)
      (l2 : list Y) (dx : X) (dy : Y) :
  Forall2 P l1 l2 ->
  forall i, (i < length l1)%nat -> P (nth i l1 dx) (nth i l2 dy).
Proof.
  induction 1 as [|x y l1 l2 Hxy _ IH]; intros i Hi; cbn [length] in Hi; [lia|].
  destruct i as [|i]; [exact Hxy | apply IH; lia].
Qed.

(** Row [i] of the output of a linear layer is computed from row [i] of
    its input alone. *)
Lemma Linear_forward_row_local (l : Linear) (x1 x2 y1 y2 : mat Q) (i j : nat) :
  Linear_forward l x1 = Ok y1 -> Linear_forward l x2 = Ok y2 ->
  (i < length x1)%nat -> (j < length x2)%nat ->
  nth i x1 [] = nth j x2 [] ->
  nth i y1 [] = nth j y2 [].
Proof.
  intros H1 H2 Hi Hj E.
  pose proof (@Forall2_nth_pair _ _ _ x1 y1 [] []
                (Linear_forward_rows l x1 H1) i Hi) as R1.
  pose proof (@Forall2_nth_pair _ _ _ x2 y2 [] []
                (Linear_forward_rows l x2 H2) j Hj) as R2.
  cbn beta in R1, R2. rewrite E in R1. congruence.
Qed.

Lemma Linear_forward_length (l : Linear) (x y : mat Q) :
  Linear_forward l x = Ok y -> length y = length x.
Proof.
  intros H. apply Linear_forward_rows in H.
  symmetry. exact (Forall2_length H).
Qed.

Lemma nth_map_rows {X Y : Type} (f : X -> Y) (m : mat X) (i : nat) :
  nth i (map (map f) m) [] = map f (nth i m []).
Proof.
  change (@nil Y) with (map f []) at 1. apply map_nth.
Qed.

Lemma latent_row_local (self : NMTModel.t) (flat1 flat2 mu1 lv1 mu2 lv2 : mat Q)
      (i j : nat) :
  NMTModel.latent self flat1 = Ok (mu1, lv1) ->
  NMTModel.latent self flat2 = Ok (mu2, lv2) ->
  (i < length flat1)%nat -> (j < length flat2)%nat ->
  nth i flat1 [] = nth j flat2 [] ->
  nth i mu1 [] = nth j mu2 [] /\ nth i lv1 [] = nth j lv2 [].
Proof.
  unfold NMTModel.latent. intros H1 H2 Hi Hj E.
  apply bind_ok in H1. destruct H1 as [m1 [Hm1 H1]].
  apply bind_ok in H1. destruct H1 as [n1 [Hn1 H1]].
  apply bind_ok in H1. destruct H1 as [v1 [Hv1 H1]].
  apply bind_ok in H2. destruct H2 as [m2 [Hm2 H2]].
  apply bind_ok in H2. destruct H2 as [n2 [Hn2 H2]].
  apply bind_ok in H2. destruct H2 as [v2 [Hv2 H2]].
  pose proof (Linear_forward_row_local _ _ _ Hm1 Hm2 Hi Hj E) as Em.
  pose proof (Linear_forward_row_local _ _ _ Hn1 Hn2 Hi Hj E) as En.
  assert (Ev : nth i v1 [] = nth j v2 []).
  { apply (Linear_forward_row_local _ _ _ Hv1 Hv2).
    - unfold ReLU. rewrite length_map, (Linear_forward_length _ _ Hn1). exact Hi.
    - unfold ReLU. rewrite length_map, (Linear_forward_length _ _ Hn2). exact Hj.
    - unfold ReLU. rewrite !nth_map_rows, En. reflexivity. }
  destruct (NMTModel.prelu self); injection H1 as <- <-; injection H2 as <- <-;
    unfold PReLU; rewrite !nth_map_rows, ?Em, ?Ev; split; reflexivity.
Qed.

Lemma is_tensor3_slice {X : Type} (a b c : nat) (t : tensor3 X) (s : nat) :
  is_tensor3 a b c t -> (s < a)%nat -> is_mat b c (nth s t []).
Proof.
  intros [Hl F] Hs. rewrite Forall_forall in F. apply F, nth_In. lia.
Qed.

(** What batch element [i] contributes to the concatenated state. *)
Lemma cat_slices_of_example {X : Type} (a b k1 k2 : nat) (h c : tensor3 X)
      (i : nat) :
  is_tensor3 a b k1 h -> is_tensor3 a b k2 c -> (i < b)%nat ->
  map (fun m => nth i m []) (map2 (map2 (@app X)) h c) =
  map (fun s => nth i (nth s h []) [] ++ nth i (nth s c []) []) (seq 0 a).
Proof.
  intros Hh Hc Hi.
  assert (Lh : length h = a) by (destruct Hh; assumption).
  assert (Lc : length c = a) by (destruct Hc; assumption).
  apply (nth_ext _ _ [] []).
  - rewrite !length_map, length_seq, length_map2; len.
  - intros s Hs. rewrite length_map, length_map2 in Hs by len.
    rewrite (nth_map_seq _ (n:=a)) by len.
    rewrite (@nth_map_in _ _ (fun m => nth i m []) _ [] [] s)
      by (rewrite length_map2; len).
    rewrite (nth_map2 (map2 (@app X)) h c [] [] []) by len.
    pose proof (@is_tensor3_slice _ a b k1 h s Hh ltac:(len)) as [L1 _].
    pose proof (@is_tensor3_slice _ a b k2 c s Hc ltac:(len)) as [L2 _].
    apply nth_map2; len.
Qed.

(** X9.  After the encoder, [encode] works example by example: the rows of
    [mu] and [logvar] for a batch element are computed from the hidden and
    cell vectors of that element alone.  An element with the same vectors
    gets the same two rows in any batch, at any position. *)
Theorem encode_is_per_example (self : NMTModel.t) (a b1 b2 k1 k2 : nat)
        (h1 c1 h2 c2 : tensor3 Q) (flat1 flat2 mu1 lv1 mu2 lv2 : mat Q)
        (i j : nat) :
  is_tensor3 (S a) (S b1) k1 h1 -> is_tensor3 (S a) (S b1) k2 c1 ->
  is_tensor3 (S a) (S b2) k1 h2 -> is_tensor3 (S a) (S b2) k2 c2 ->
  (0 < k1 + k2)%nat -> (i < S b1)%nat -> (j < S b2)%nat ->
  (forall s, nth i (nth s h1 []) [] = nth j (nth s h2 []) []) ->
  (forall s, nth i (nth s c1 []) [] = nth j (nth s c2 []) []) ->
  NMTModel.encode_flatten (h1, c1) = Ok flat1 ->
  NMTModel.encode_flatten (h2, c2) = Ok flat2 ->
  NMTModel.latent self flat1 = Ok (mu1, lv1) ->
  NMTModel.latent self flat2 = Ok (mu2, lv2) ->
  nth i mu1 [] = nth j mu2 [] /\ nth i lv1 [] = nth j lv2 [].
Proof.
  intros Hh1 Hc1 Hh2 Hc2 Hk Hi Hj Eh Ec F1 F2 L1 L2.
  destruct (encode_flatten_spec Hh1 Hc1 Hk) as [E1 M1].
  destruct (encode_flatten_spec Hh2 Hc2 Hk) as [E2 M2].
  set (f1 := map _ (seq 0 (S b1))) in *. set (f2 := map _ (seq 0 (S b2))) in *.
  rewrite E1 in F1. rewrite E2 in F2.
  injection F1 as <-. injection F2 as <-.
  apply (latent_row_local self _ _ L1 L2).
  - destruct M1 as [-> _]. exact Hi.
  - destruct M2 as [-> _]. exact Hj.
  - subst f1 f2. rewrite !nth_map_seq by assumption. unfold column.
    rewrite (cat_slices_of_example Hh1 Hc1 Hi).
    rewrite (cat_slices_of_example Hh2 Hc2 Hj).
    f_equal. apply map_ext. intros s. rewrite Eh, Ec. reflexivity.
Qed.

Lemma encode_is_per_example_witness :
  nth 1 [[1]; [2]] [] = nth 0 [[2]] ([] : list Q) /\
  nth 1 [[-2]; [-4]] [] = nth 0 [[-4]] ([] : list Q).
Proof.
  apply (@encode_is_per_example
           (Instance.model [] false true false false 1 0) 0 1 0 1 1
           [[[1]; [2]]] [[[3]; [4]]] [[[2]]] [[[4]]]
           [[1; 3]; [2; 4]] [[2; 4]] [[1]; [2]] [[-2]; [-4]] [[2]] [[-4]]
           1 0).
  - split; [reflexivity | repeat constructor].
  - split; [reflexivity | repeat constructor].
  - split; [reflexivity | repeat constructor].
  - split; [reflexivity | repeat constructor].
  - lia.
  - lia.
  - lia.
  - intros [|[|s]]; reflexivity.
  - intros [|[|s]]; reflexivity.
  - reflexivity.
  - reflexivity.
  - reflexivity.
  - reflexivity.
Defined.

(** ** The reshaping in [decode] *)

Lemma nth_group {X : Type} (size : nat) :
  forall (count : nat) (l : list X) (j : nat),
    (j < count)%nat ->
    nth j (group count size l) [] = firstn size (skipn (j * size) l).
Proof.
  induction count as [|count IH]; intros l j Hj; [lia|].
  cbn [group]. destruct j as [|j]; [reflexivity|].
  cbn [nth]. rewrite IH by lia. rewrite skipn_skipn.
  do 2 f_equal. lia.
Qed.

Lemma skipn_concat_rows {X : Type} (w : nat) :
  forall (q : nat) (m : list (list X)),
    Forall (fun r => length r = w) m ->
    skipn (q * w) (concat m) = concat (skipn q m).
Proof.
  induction q as [|q IH]; intros m Hm; [reflexivity|].
  destruct m as [|r m].
  - cbn [concat skipn]. apply skipn_nil.
  - pose proof (Forall_inv Hm) as Hr. pose proof (Forall_inv_tail Hm) as Hm'.
    cbn beta in Hr. cbn [concat skipn].
    replace (S q * w)%nat with (q * w + w)%nat by lia.
    rewrite <- skipn_skipn, skipn_app, Hr, Nat.sub_diag.
    rewrite (skipn_all2 r) by lia. cbn [skipn app].
    apply IH, Hm'.
Qed.

Lemma firstn_skipn_within {X : Type} (row rest : list X) (x k : nat) :
  (x + k <= length row)%nat ->
  firstn k (skipn x (row ++ rest)) = firstn k (skipn x row).
Proof.
  intros H. rewrite skipn_app, firstn_app, length_skipn.
  replace (k - (length row - x))%nat with 0%nat by lia.
  cbn [firstn]. apply app_nil_r.
Qed.

Lemma skipn_nth_cons {X : Type} (d : X) :
  forall (q : nat) (l : list X),
    (q < length l)%nat -> skipn q l = nth q l d :: skipn (S q) l.
Proof.
  induction q as [|q IH]; intros [|x l] H; cbn [length] in H; try lia.
  - reflexivity.
  - cbn [skipn nth]. rewrite (IH l) by lia. reflexivity.
Qed.

(** Block [j] of [K] entries of a row-major matrix whose rows hold [L]
    such blocks lies in row [j / L], at block [j mod L]. *)
Lemma block_of_rows {X : Type} (B L K : nat) (m : mat X) (j : nat) :
  is_mat B (S L * K) m -> (j < S L * B)%nat ->
  firstn K (skipn (j * K) (concat m)) =
  firstn K (skipn ((j mod S L) * K) (nth (j / S L) m [])).
Proof.
  intros [Lm Fm] Hj.
  assert (Hq : (j / S L < B)%nat) by (apply Nat.Div0.div_lt_upper_bound; lia).
  pose proof (Nat.mod_upper_bound j (S L) ltac:(lia)) as Hr.
  pose proof (Nat.div_mod_eq j (S L)) as Ej.
  replace (j * K)%nat
    with ((j mod S L) * K + (j / S L) * (S L * K))%nat by nia.
  rewrite <- skipn_skipn, (skipn_concat_rows (j / S L) Fm).
  rewrite (@skipn_nth_cons _ [] (j / S L) m) by lia.
  cbn [concat]. apply firstn_skipn_within.
  rewrite Forall_forall in Fm. rewrite (Fm (nth (j / S L) m [])).
  - nia.
  - apply nth_In. lia.
Qed.

(** Where [m.view(L, B, -1)] finds the entries of slice [lay], position
    [ex]. *)
Lemma view3_entry {X : Type} (l b K : nat) (m : mat X) (t : tensor3 X) :
  is_mat (S b) (S l * K) m -> (0 < K)%nat ->
  view3 (S l) (S b) m = Ok t ->
  forall lay ex, (lay < S l)%nat -> (ex < S b)%nat ->
    nth ex (nth lay t []) [] =
    firstn K (skipn (((lay * S b + ex) mod S l) * K)
                    (nth ((lay * S b + ex) / S l) m [])).
Proof.
  intros Hm HK H lay ex Hlay Hex. unfold view3 in H.
  assert (Hpos : (S l * S b <> 0)%nat) by lia.
  remember (S l * S b)%nat as n eqn:En.
  assert (Ln : length (concat m) = (K * n)%nat).
  { destruct Hm as [Lm Fm]. rewrite (length_concat_const Fm). len. }
  rewrite Ln in H.
  destruct (Nat.eqb_spec (K * n) 0) as [E|_]; [nia|].
  destruct (Nat.eqb_spec n 0) as [E|_]; [contradiction|]. cbn [orb] in H.
  rewrite Nat.Div0.mod_mul in H. cbn [Nat.eqb negb] in H.
  rewrite Nat.div_mul in H by assumption.
  assert (Et : t = group (S l) (S b) (group n K (concat m))) by congruence.
  rewrite Et. unfold tensor3, mat in *.
  rewrite nth_group by assumption.
  rewrite nth_firstn.
  destruct (Nat.ltb_spec ex (S b)) as [_|C]; [|lia].
  rewrite nth_skipn, nth_group by nia.
  apply (@block_of_rows X (S b) l K m); [exact Hm | nia].
Qed.

Lemma is_tensor3_size2 {X : Type} (a b c : nat) (t : tensor3 X) :
  is_tensor3 (S a) (S b) c t -> size2 t = c.
Proof.
  intros Ht. destruct t as [|m t']; [destruct Ht; discriminate|].
  apply is_tensor3_cons in Ht. destruct Ht as [Hm _].
  destruct m as [|row m']; [destruct Hm; discriminate|].
  apply is_mat_cons in Hm. unfold size2. cbn [hd]. apply Hm.
Qed.

Lemma nth_map_slices {X Y : Type} (f : list X -> list Y) (t : tensor3 X)
      (lay ex : nat) :
  f [] = [] ->
  nth ex (nth lay (map (map f) t) []) [] = f (nth ex (nth lay t []) []).
Proof.
  intros Hf.
  change (@nil (list Y)) with (map f []) at 1. rewrite map_nth.
  rewrite <- Hf at 1. apply map_nth.
Qed.

(** The two halves [torch.chunk(t, 2, 2)] makes of every vector. *)
Lemma chunk2_entries {X : Type} (a b k : nat) (t hd cl : tensor3 X)
      (lay ex : nat) :
  is_tensor3 (S a) (S b) (2 * S k) t ->
  chunk2 t = Ok (hd, cl) ->
  nth ex (nth lay hd []) [] = firstn (S k) (nth ex (nth lay t []) []) /\
  nth ex (nth lay cl []) [] = skipn (S k) (nth ex (nth lay t []) []).
Proof.
  intros Mt H. unfold chunk2 in H. rewrite (is_tensor3_size2 Mt) in H.
  destruct (Nat.ltb_spec (2 * S k) 2) as [E|_]; [lia|].
  replace ((2 * S k + 1) / 2)%nat with (S k) in H
    by (apply Nat.div_unique with (r:=1%nat); lia).
  assert (Eh : hd = map (map (firstn (S k))) t) by congruence.
  assert (El : cl = map (map (skipn (S k))) t) by congruence.
  subst hd cl. rewrite !nth_map_slices by reflexivity.
  split; reflexivity.
Qed.

(** X10.  How [decode] reshapes the projected latent code.  The matrix has
    one row per batch element, holding the hidden and cell vectors of
    every layer; [view(layers, batch, -1)] regroups it in storage order
    without a transpose.  So for [L] layers and [B] batch elements the
    state of layer [lay] for element [ex] is block
    [(lay * B + ex) mod L] of row [(lay * B + ex) / L], its first half the
    hidden vector and its second half the cell vector.  With one layer
    that is row [ex]; with more layers and more elements it is in general
    the row of another batch element. *)
Theorem decode_unflatten_entries {X : Type} (l b k : nat) (m : mat X)
        (hd cl : tensor3 X) :
  is_mat (S b) (S l * (2 * S k)) m ->
  NMTModel.decode_unflatten (S l) (S b) m = Ok (hd, cl) ->
  forall lay ex, (lay < S l)%nat -> (ex < S b)%nat ->
    let j := (lay * S b + ex)%nat in
    let block := firstn (2 * S k) (skipn ((j mod S l) * (2 * S k))
                                         (nth (j / S l) m [])) in
    nth ex (nth lay hd []) [] = firstn (S k) block /\
    nth ex (nth lay cl []) [] = skipn (S k) block.
Proof.
  intros Hm H lay ex Hlay Hex j block.
  unfold NMTModel.decode_unflatten in H.
  apply bind_ok in H. destruct H as [t [Ht H]].
  destruct (@view3_shape X l b (2 * S k) (S b) (S l * (2 * S k)) m Hm
              ltac:(lia) ltac:(lia)) as [t' [Ht' [Mt _]]].
  rewrite Ht in Ht'. injection Ht' as <-.
  destruct (@chunk2_entries X l b k t hd cl lay ex Mt H) as [Eh El].
  rewrite Eh, El.
  rewrite (@view3_entry X l b (2 * S k) m t Hm ltac:(lia) Ht lay ex Hlay Hex).
  split; reflexivity.
Qed.

Lemma decode_unflatten_entries_witness :
  let block :=
    firstn 2 (skipn (((0 * 2 + 1) mod 2) * 2)
                    (nth ((0 * 2 + 1) / 2) [[1; 5; 3; 7]; [2; 6; 4; 8]] [])) in
  nth 1 (nth 0 [[[1]; [3]]; [[2]; [4]]] []) [] = firstn 1 block /\
  nth 1 (nth 0 [[[5]; [7]]; [[6]; [8]]] []) [] = skipn 1 block.
Proof.
  apply (@decode_unflatten_entries Q 1 1 0 [[1; 5; 3; 7]; [2; 6; 4; 8]]
           [[[1]; [3]]; [[2]; [4]]] [[[5]; [7]]; [[6]; [8]]]).
  - split; [reflexivity | repeat constructor].
  - reflexivity.
  - lia.
  - lia.
Defined.

(** X11.  Which latent code the decoder starts an example from.  The
    initial state [decode] builds for layer [lay] and batch element [ex]
    is computed from row [(lay * B + ex) / L] of the latent code [z] and
    from no other row: two batches of codes that agree on that row give
    the same hidden and cell vector there. *)
Theorem decoder_state_source_row (self : NMTModel.t) (l b k N : nat)
        (z1 z2 : mat Q) (hd1 cl1 hd2 cl2 : tensor3 Q) (lay ex : nat) :
  NMTModel.layers self = S l ->
  NMTModel.Linear_shape N (S l * (2 * S k)) (NMTModel.latent_to_decoder self) ->
  is_mat (S b) N z1 -> is_mat (S b) N z2 ->
  NMTModel.decoder_state self z1 = Ok (hd1, cl1) ->
  NMTModel.decoder_state self z2 = Ok (hd2, cl2) ->
  (lay < S l)%nat -> (ex < S b)%nat ->
  nth ((lay * S b + ex) / S l) z1 [] = nth ((lay * S b + ex) / S l) z2 [] ->
  nth ex (nth lay hd1 []) [] = nth ex (nth lay hd2 []) [] /\
  nth ex (nth lay cl1 []) [] = nth ex (nth lay cl2 []) [].
Proof.
  intros HL Hd Hz1 Hz2 H1 H2 Hlay Hex Ez.
  unfold NMTModel.decoder_state in H1, H2.
  apply bind_ok in H1. destruct H1 as [ds1 [E1 H1]].
  apply bind_ok in H2. destruct H2 as [ds2 [E2 H2]].
  assert (S1 : size0 z1 = S b) by (destruct Hz1; assumption).
  assert (S2 : size0 z2 = S b) by (destruct Hz2; assumption).
  rewrite HL, S1 in H1. rewrite HL, S2 in H2.
  set (q := ((lay * S b + ex) / S l)%nat) in *.
  assert (Hq : (q < S b)%nat)
    by (subst q; apply Nat.Div0.div_lt_upper_bound; nia).
  destruct (Linear_forward_shape Hd Hz1) as [y1 [Ey1 My1]].
  destruct (Linear_forward_shape Hd Hz2) as [y2 [Ey2 My2]].
  rewrite E1 in Ey1. injection Ey1 as <-.
  rewrite E2 in Ey2. injection Ey2 as <-.
  assert (Er : nth q ds1 [] = nth q ds2 []).
  { apply (Linear_forward_row_local _ _ _ E1 E2); [| | exact Ez].
    - destruct Hz1 as [-> _]. exact Hq.
    - destruct Hz2 as [-> _]. exact Hq. }
  set (d1 := if NMTModel.prelu self then _ else ds1) in H1.
  set (d2 := if NMTModel.prelu self then _ else ds2) in H2.
  assert (M1 : is_mat (S b) (S l * (2 * S k)) d1).
  { subst d1. destruct (NMTModel.prelu self); [apply is_mat_map|]; assumption. }
  assert (M2 : is_mat (S b) (S l * (2 * S k)) d2).
  { subst d2. destruct (NMTModel.prelu self); [apply is_mat_map|]; assumption. }
  assert (Ed : nth q d1 [] = nth q d2 []).
  { subst d1 d2. destruct (NMTModel.prelu self); [|exact Er].
    unfold PReLU. rewrite !nth_map_rows, Er. reflexivity. }
  unfold NMTModel.decode_unflatten in H1, H2.
  apply bind_ok in H1. destruct H1 as [t1 [V1 C1]].
  apply bind_ok in H2. destruct H2 as [t2 [V2 C2]].
  destruct (@view3_shape Q l b (2 * S k) (S b) (S l * (2 * S k)) d1 M1
              ltac:(lia) ltac:(lia)) as [t1' [V1' [T1 _]]].
  destruct (@view3_shape Q l b (2 * S k) (S b) (S l * (2 * S k)) d2 M2
              ltac:(lia) ltac:(lia)) as [t2' [V2' [T2 _]]].
  rewrite V1 in V1'. injection V1' as <-.
  rewrite V2 in V2'. injection V2' as <-.
  destruct (@chunk2_entries Q l b k t1 hd1 cl1 lay ex T1 C1) as [A1 B1].
  destruct (@chunk2_entries Q l b k t2 hd2 cl2 lay ex T2 C2) as [A2 B2].
  rewrite A1, B1, A2, B2.
  rewrite (@view3_entry Q l b (2 * S k) d1 t1 M1 ltac:(lia) V1 lay ex Hlay Hex).
  rewrite (@view3_entry Q l b (2 * S k) d2 t2 M2 ltac:(lia) V2 lay ex Hlay Hex).
  fold q. rewrite Ed. split; reflexivity.
Qed.

Lemma decoder_state_source_row_witness :
  nth 1 (nth 0 [[[1]; [3]]; [[2]; [6]]] []) [] =
  nth 1 (nth 0 [[[1]; [3]]; [[5]; [15]]] []) ([] : list Q) /\
  nth 1 (nth 0 [[[2]; [4]]; [[4]; [8]]] []) [] =
  nth 1 (nth 0 [[[2]; [4]]; [[10]; [20]]] []) ([] : list Q).
Proof.
  apply (@decoder_state_source_row TwoLayers.model 1 1 0 1
           [[1]; [2]] [[1]; [5]]
           [[[1]; [3]]; [[2]; [6]]] [[[2]; [4]]; [[4]; [8]]]
           [[[1]; [3]]; [[5]; [15]]] [[[2]; [4]]; [[10]; [20]]] 0 1).
  - reflexivity.
  - split; [split; [reflexivity | repeat constructor] | reflexivity].
  - split; [reflexivity | repeat constructor].
  - split; [reflexivity | repeat constructor].
  - reflexivity.
  - reflexivity.
  - lia.
  - lia.
  - reflexivity.
Defined.

(** ** [StackedLSTM.__init__] *)

Lemma StackedLSTM_init_loop_spec :
  forall (idx : list nat) (input_size rnn_size : Z) (layers : list (Z * Z)),
    StackedLSTM_init_loop idx input_size rnn_size layers =
    layers ++
    match idx with
    | [] => []
    | _ :: idx' => (input_size, rnn_size) :: repeat (rnn_size, rnn_size) (length idx')
    end.
Proof.
  induction idx as [|i idx IH]; intros input_size rnn_size layers.
  - cbn [StackedLSTM_init_loop]. rewrite app_nil_r. reflexivity.
  - cbn [StackedLSTM_init_loop]. rewrite IH, <- app_assoc. cbn [app].
    destruct idx as [|j idx]; reflexivity.
Qed.

(** X12.  [StackedLSTM.__init__] builds one cell per layer, every cell with
    [rnn_size] outputs; the first cell takes [input_size] inputs and every
    further cell takes as many inputs as the cell below it has outputs, so
    the vector [forward] hands from one layer to the next fits. *)
Theorem StackedLSTM_init_cells (num_layers : nat) (input_size rnn_size : Z) :
  let cells := StackedLSTM_init num_layers input_size rnn_size in
  length cells = num_layers /\
  ((0 < num_layers)%nat -> fst (nth 0 cells (0, 0)%Z) = input_size) /\
  (forall k, (k < num_layers)%nat -> snd (nth k cells (0, 0)%Z) = rnn_size) /\
  (forall k, (S k < num_layers)%nat ->
     fst (nth (S k) cells (0, 0)%Z) = snd (nth k cells (0, 0)%Z)).
Proof.
  unfold StackedLSTM_init. rewrite StackedLSTM_init_loop_spec. cbn [app].
  destruct num_layers as [|n].
  - cbn [seq length]. repeat split; intros; lia.
  - cbn [seq]. rewrite length_seq.
    assert (R : forall k, (k < n)%nat ->
                  nth k (repeat (rnn_size, rnn_size) n) (0, 0)%Z
                  = (rnn_size, rnn_size))
      by (intros k Hk; apply nth_repeat_in, Hk).
    repeat split.
    + cbn [length]. rewrite repeat_length. reflexivity.
    + intros k Hk. destruct k as [|k]; [reflexivity|].
      cbn [nth]. rewrite R by lia. reflexivity.
    + intros k Hk. cbn [nth]. rewrite R by lia.
      destruct k as [|k]; [reflexivity|].
      cbn [nth]. rewrite R by lia. reflexivity.
Qed.

Lemma StackedLSTM_init_cells_witness :
  StackedLSTM_init 3 5 7 = [(5, 7); (7, 7); (7, 7)]%Z /\
  fst (nth 1 (StackedLSTM_init 3 5 7) (0, 0)%Z) =
  snd (nth 0 (StackedLSTM_init 3 5 7) (0, 0)%Z).
Proof.
  split; [reflexivity|].
  apply (proj2 (proj2 (proj2 (StackedLSTM_init_cells 3 5 7)))). lia.
Defined.

(** ** The last target row *)

(** X13.  [forward] cuts the last row off the target before anything else
    reads it ([input[1][:-1]]): logits, mean, log-variance and generator
    are the same whatever that row holds, in training and in evaluation
    mode. *)
Theorem forward_ignores_last_target_row (ext : External) (self : NMTModel.t)
        (g : rng) (src : tokens_input) (tgt : mat Z) (r1 r2 : list Z)
        (step : Z) :
  NMTModel.forward ext self g (src, tgt ++ [r1]) step =
  NMTModel.forward ext self g (src, tgt ++ [r2]) step.
Proof.
  unfold NMTModel.forward. cbn [fst snd]. rewrite !removelast_last.
  reflexivity.
Qed.
